(** * sanlock: paxos leases and the supervisor's kill escalation

    A shallow embedding of the disk-paxos lease engine (paxos_lease.c:
    [verify_dblock], [run_ballot], [paxos_lease_acquire],
    [paxos_lease_release], [paxos_lease_init] and the helpers they call)
    and of the supervisor's [kill_pids] escalation (main.c), followed by
    the properties proved about them.

    Conventions.
    - C integers are [Z]; unsigned 64-bit and 32-bit arithmetic that can
      wrap is written with [wrap64] / [wrap32], signed [int] conversions
      with [to_int].
    - The numeric values of the result codes, flag bits and magic numbers
      (header files), the checksum functions and a few helpers defined in
      other files are collected in the class [Consts]; what the proofs
      need to know about them is stated in [consts_ok].
    - Disk state, the token and the outcomes of system calls live in a
      [world]; the C functions become computations in the state monad [M]. *)

From stdpp Require Import base numbers list gmap strings.
From Stdlib Require Import ZArith Lia.

Open Scope Z_scope.

(** ** Machine integers *)

Definition wrap64 (x : Z) : Z := x mod 2 ^ 64.
Definition wrap32 (x : Z) : Z := x mod 2 ^ 32.

(** Conversion to a 32-bit signed [int] (two's complement). *)
Definition to_int (x : Z) : Z := (x + 2 ^ 31) mod 2 ^ 32 - 2 ^ 31.

(** [flags & bit] as a C truth value. *)
Definition flag_set (flags bit : Z) : bool := negb (Z.land flags bit =? 0).

(** ** On-disk records *)

Record paxos_dblock := mk_dblock {
  pd_mbal : Z;
  pd_bal : Z;
  pd_inp : Z;
  pd_inp2 : Z;
  pd_inp3 : Z;
  pd_lver : Z;
  pd_checksum : Z;
  pd_flags : Z
}.

Record mode_block := mk_mblock {
  mb_flags : Z;
  mb_generation : Z
}.

Record leader_record := mk_leader {
  lr_magic : Z;
  lr_version : Z;
  lr_flags : Z;
  lr_sector_size : Z;
  lr_num_hosts : Z;
  lr_max_hosts : Z;
  lr_owner_id : Z;
  lr_owner_generation : Z;
  lr_lver : Z;
  lr_space_name : string;
  lr_resource_name : string;
  lr_timestamp : Z;
  lr_checksum : Z;
  lr_write_id : Z;
  lr_write_generation : Z;
  lr_write_timestamp : Z
}.

#[global] Instance paxos_dblock_eq_dec : EqDecision paxos_dblock.
Proof. solve_decision. Defined.
#[global] Instance mode_block_eq_dec : EqDecision mode_block.
Proof. solve_decision. Defined.
#[global] Instance leader_record_eq_dec : EqDecision leader_record.
Proof. solve_decision. Defined.

(** [memset(&x, 0, sizeof(x))]. *)
Definition zero_dblock : paxos_dblock := mk_dblock 0 0 0 0 0 0 0 0.
Definition zero_mblock : mode_block := mk_mblock 0 0.
Definition zero_leader : leader_record :=
  mk_leader 0 0 0 0 0 0 0 0 0 "" "" 0 0 0 0 0.

(** Field updates ([x.f = v]). *)
Definition set_pd_checksum (v : Z) (pd : paxos_dblock) : paxos_dblock :=
  mk_dblock (pd_mbal pd) (pd_bal pd) (pd_inp pd) (pd_inp2 pd) (pd_inp3 pd)
            (pd_lver pd) v (pd_flags pd).

Definition set_lr_flags (v : Z) (l : leader_record) : leader_record :=
  mk_leader (lr_magic l) (lr_version l) v (lr_sector_size l) (lr_num_hosts l)
    (lr_max_hosts l) (lr_owner_id l) (lr_owner_generation l) (lr_lver l)
    (lr_space_name l) (lr_resource_name l) (lr_timestamp l) (lr_checksum l)
    (lr_write_id l) (lr_write_generation l) (lr_write_timestamp l).

Definition set_lr_num_hosts (v : Z) (l : leader_record) : leader_record :=
  mk_leader (lr_magic l) (lr_version l) (lr_flags l) (lr_sector_size l) v
    (lr_max_hosts l) (lr_owner_id l) (lr_owner_generation l) (lr_lver l)
    (lr_space_name l) (lr_resource_name l) (lr_timestamp l) (lr_checksum l)
    (lr_write_id l) (lr_write_generation l) (lr_write_timestamp l).

(** [owner_id], [owner_generation], [timestamp] and [lver] together, as
    the commit after a ballot assigns them. *)
Definition set_lr_owner (id gen ts lv : Z) (l : leader_record) : leader_record :=
  mk_leader (lr_magic l) (lr_version l) (lr_flags l) (lr_sector_size l)
    (lr_num_hosts l) (lr_max_hosts l) id gen lv
    (lr_space_name l) (lr_resource_name l) ts (lr_checksum l)
    (lr_write_id l) (lr_write_generation l) (lr_write_timestamp l).

Definition set_lr_timestamp (v : Z) (l : leader_record) : leader_record :=
  mk_leader (lr_magic l) (lr_version l) (lr_flags l) (lr_sector_size l)
    (lr_num_hosts l) (lr_max_hosts l) (lr_owner_id l) (lr_owner_generation l)
    (lr_lver l) (lr_space_name l) (lr_resource_name l) v (lr_checksum l)
    (lr_write_id l) (lr_write_generation l) (lr_write_timestamp l).

Definition set_lr_resource_name (v : string) (l : leader_record) : leader_record :=
  mk_leader (lr_magic l) (lr_version l) (lr_flags l) (lr_sector_size l)
    (lr_num_hosts l) (lr_max_hosts l) (lr_owner_id l) (lr_owner_generation l)
    (lr_lver l) (lr_space_name l) v (lr_timestamp l) (lr_checksum l)
    (lr_write_id l) (lr_write_generation l) (lr_write_timestamp l).

Definition set_lr_checksum (v : Z) (l : leader_record) : leader_record :=
  mk_leader (lr_magic l) (lr_version l) (lr_flags l) (lr_sector_size l)
    (lr_num_hosts l) (lr_max_hosts l) (lr_owner_id l) (lr_owner_generation l)
    (lr_lver l) (lr_space_name l) (lr_resource_name l) (lr_timestamp l) v
    (lr_write_id l) (lr_write_generation l) (lr_write_timestamp l).

(** [write_id], [write_generation] and [write_timestamp] together. *)
Definition set_lr_writer (id gen ts : Z) (l : leader_record) : leader_record :=
  mk_leader (lr_magic l) (lr_version l) (lr_flags l) (lr_sector_size l)
    (lr_num_hosts l) (lr_max_hosts l) (lr_owner_id l) (lr_owner_generation l)
    (lr_lver l) (lr_space_name l) (lr_resource_name l) (lr_timestamp l)
    (lr_checksum l) id gen ts.

(** ** Constants and helpers declared in headers and other files *)

(** Modelled from the spec: [LEASE_FREE], the timestamp of an unowned
    lease, which the data model gives as [LEASE_FREE(0)]. *)
Definition LEASE_FREE : Z := 0.

Class Consts := {
  (* result codes (sanlock_rv.h) and errno values *)
  SANLK_OK : Z;
  SANLK_AIO_TIMEOUT : Z;
  SANLK_DBLOCK_READ : Z;
  SANLK_DBLOCK_WRITE : Z;
  SANLK_DBLOCK_LVER : Z;
  SANLK_DBLOCK_MBAL : Z;
  SANLK_DBLOCK_CHECKSUM : Z;
  SANLK_LEADER_READ : Z;
  SANLK_LEADER_WRITE : Z;
  SANLK_LEADER_DIFF : Z;
  SANLK_LEADER_MAGIC : Z;
  SANLK_LEADER_VERSION : Z;
  SANLK_LEADER_LOCKSPACE : Z;
  SANLK_LEADER_RESOURCE : Z;
  SANLK_LEADER_NUMHOSTS : Z;
  SANLK_LEADER_CHECKSUM : Z;
  SANLK_ACQUIRE_LVER : Z;
  SANLK_ACQUIRE_LOCKSPACE : Z;
  SANLK_ACQUIRE_IDDISK : Z;
  SANLK_ACQUIRE_IDLIVE : Z;
  SANLK_ACQUIRE_OWNED : Z;
  SANLK_ACQUIRE_OTHER : Z;
  SANLK_ACQUIRE_OWNED_RETRY : Z;
  SANLK_RELEASE_LVER : Z;
  SANLK_RELEASE_OWNER : Z;
  EINVAL : Z;
  ENOMEM : Z;
  (* magic numbers and versions (leader.h) *)
  PAXOS_DISK_MAGIC : Z;
  PAXOS_DISK_CLEAR : Z;
  PAXOS_DISK_VERSION_MAJOR : Z;
  PAXOS_DISK_VERSION_MINOR : Z;
  DEFAULT_MAX_HOSTS : Z;
  (* flag bits *)
  T_RETRACT_PAXOS : Z;
  T_WRITE_DBLOCK_MBLOCK_SH : Z;
  PAXOS_ACQUIRE_FORCE : Z;
  PAXOS_ACQUIRE_SHARED : Z;
  PAXOS_ACQUIRE_OWNER_NOWAIT : Z;
  LFL_SHORT_HOLD : Z;
  DBLOCK_FL_RELEASED : Z;
  MBLOCK_SHARED : Z;
  (* crc32c over the first LEADER_CHECKSUM_LEN / DBLOCK_CHECKSUM_LEN bytes
     of the on-disk record *)
  leader_checksum : leader_record -> Z;
  dblock_checksum : paxos_dblock -> Z;
  (* memcmp over the first LEADER_COMPARE_LEN bytes *)
  leaders_match : leader_record -> leader_record -> bool;
  (* helpers defined in other files *)
  majority_disks : Z -> Z -> bool;
  leader_align_size_from_flag : Z -> Z;
  leader_align_flag_from_size : Z -> Z;
  sector_size_to_align_size_old : Z -> Z;
  sizes_from_flags : Z -> Z * (Z * Z * Z);
  calc_host_dead_seconds : Z -> Z
}.

(** What the proofs rely on: success is not negative, the errors are, the
    codes the ballot and the release tell apart are different numbers,
    no disk at all is no majority, the retract flag is a non-empty bit
    mask, and the leader checksum does not cover the checksum field
    itself. *)
Record consts_ok `{Consts} : Prop := {
  ok_nonneg : 0 <= SANLK_OK;
  aio_timeout_neg : SANLK_AIO_TIMEOUT < 0;
  dblock_read_neg : SANLK_DBLOCK_READ < 0;
  dblock_write_neg : SANLK_DBLOCK_WRITE < 0;
  dblock_lver_neg : SANLK_DBLOCK_LVER < 0;
  dblock_mbal_neg : SANLK_DBLOCK_MBAL < 0;
  dblock_checksum_neg : SANLK_DBLOCK_CHECKSUM < 0;
  dblock_codes_distinct :
    NoDup [SANLK_DBLOCK_READ; SANLK_DBLOCK_WRITE; SANLK_DBLOCK_LVER;
           SANLK_DBLOCK_MBAL; SANLK_DBLOCK_CHECKSUM];
  leader_codes_neg :
    Forall (fun code => code < 0)
      [SANLK_LEADER_MAGIC; SANLK_LEADER_VERSION; SANLK_LEADER_LOCKSPACE;
       SANLK_LEADER_RESOURCE; SANLK_LEADER_NUMHOSTS; SANLK_LEADER_CHECKSUM];
  leader_write_neg : SANLK_LEADER_WRITE < 0;
  einval_pos : 0 < EINVAL;
  majority_needs_a_disk : forall n, 0 <= n -> majority_disks n 0 = false;
  release_lver_neg : SANLK_RELEASE_LVER < 0;
  release_owner_neg : SANLK_RELEASE_OWNER < 0;
  release_codes_distinct : SANLK_RELEASE_LVER <> SANLK_RELEASE_OWNER;
  retract_bit : 0 < T_RETRACT_PAXOS;
  leader_checksum_skips_field :
    forall c l, leader_checksum (set_lr_checksum c l) = leader_checksum l
}.

(** ** The world: token, disks and the environment's replies *)

(** A dblock sector: the host's dblock and the mode block overlaid at
    [MBLOCK_OFFSET] in the same sector. *)
Record sector := mk_sector {
  sec_dblock : paxos_dblock;
  sec_mblock : mode_block
}.

(** The lease area of one disk: sector 0 holds the leader, sector
    [2 + q] the dblock of host [q + 1].  Sectors never written read as
    zeros. *)
Record lease_area := mk_area {
  la_leader : leader_record;
  la_sectors : gmap Z sector
}.

Definition zero_sector : sector := mk_sector zero_dblock zero_mblock.
Definition zero_area : lease_area := mk_area zero_leader ∅.

Definition area_sector (a : lease_area) (q : Z) : sector :=
  default zero_sector (la_sectors a !! q).
Definition area_dblock (a : lease_area) (q : Z) : paxos_dblock :=
  sec_dblock (area_sector a q).

(** The fields of [struct token] the lease engine uses; [token->disks] and
    [token->r.num_disks] are the world's list of disks and its length. *)
Record token := mk_token {
  host_id : Z;
  host_generation : Z;
  tk_flags : Z;
  tk_sector_size : Z;
  tk_align_size : Z;
  r_lockspace_name : string;
  r_name : string;
  r_flags : Z;
  disk0_sector_size : Z
}.

Definition set_tk_flags (v : Z) (t : token) : token :=
  mk_token (host_id t) (host_generation t) v (tk_sector_size t)
    (tk_align_size t) (r_lockspace_name t) (r_name t) (r_flags t)
    (disk0_sector_size t).

Definition set_tk_sizes (ss al : Z) (t : token) : token :=
  mk_token (host_id t) (host_generation t) (tk_flags t) ss al
    (r_lockspace_name t) (r_name t) (r_flags t) (disk0_sector_size t).

(** [struct host_status], as [host_info] fills it in. *)
Record host_status := mk_hs {
  hs_last_check : Z;
  hs_last_live : Z;
  hs_timestamp : Z;
  hs_owner_id : Z;
  hs_owner_generation : Z;
  hs_io_timeout : Z
}.

(** What the lease engine does to the outside, in program order (newest
    first in [w_trace]). *)
Inductive event :=
| EvReadArea (d : nat) (rv : Z)
| EvReadLeader (d : nat) (rv : Z)
| EvReadDblock (d : nat) (q : Z) (rv : Z)
| EvWriteDblock (d : nat) (q : Z) (pd : paxos_dblock) (rv : Z)
| EvWriteLeader (d : nat) (lr : leader_record) (rv : Z)
| EvWriteArea (d : nat) (rv : Z)
| EvDeltaRead (owner : Z) (rv : Z)
| EvUsleep (us : Z)
| EvSleep (seconds : Z).

#[global] Instance event_eq_dec : EqDecision event.
Proof. solve_decision. Defined.

(** The replies of the lockspace layer (lockspace.c, delta_lease.c), which
    the acquire path consults while it waits for an owner to die. *)
Record lockspace_env := mk_ls_env {
  ls_lockspace_disk : Z;                       (* lockspace_disk() *)
  ls_open_disks_fd : Z;                        (* open_disks_fd() *)
  ls_host_info : list (Z * host_status);       (* host_info() calls to come *)
  ls_delta : list (Z * leader_record);         (* delta_lease_leader_read() *)
  ls_shutdown : list bool                      (* external_shutdown, as read *)
}.

(** The replies still to come are lists consumed from the head; a call
    made after its list has run out succeeds with 0 (an allocation or I/O),
    reads time 0, or finds an unknown host. *)
Record world := mk_world {
  w_token : token;
  w_disks : list lease_area;
  w_io : list Z;          (* results of the disk reads and writes to come *)
  w_alloc : list Z;       (* results of posix_memalign to come *)
  w_clock : list Z;       (* values of monotime() to come *)
  w_rand : list Z;        (* values of get_rand() to come *)
  w_ls : lockspace_env;
  w_trace : list event
}.

Definition M (A : Type) : Type := world -> A * world.

Definition ret {A} (a : A) : M A := fun w => (a, w).
Definition bind {A B} (m : M A) (k : A -> M B) : M B :=
  fun w => let (a, w') := m w in k a w'.

Declare Scope lease_scope.
Delimit Scope lease_scope with lease.
Notation "x <- m ;; k" := (bind m (fun x => k))
  (at level 100, m at next level, right associativity) : lease_scope.
Notation "m ;;; k" := (bind m (fun _ => k))
  (at level 100, right associativity) : lease_scope.
Open Scope lease_scope.

Definition get_token : M token := fun w => (w_token w, w).
Definition put_token (t : token) : M unit := fun w =>
  (tt, mk_world t (w_disks w) (w_io w) (w_alloc w) (w_clock w) (w_rand w)
         (w_ls w) (w_trace w)).
Definition get_disks : M (list lease_area) := fun w => (w_disks w, w).
Definition put_disks (ds : list lease_area) : M unit := fun w =>
  (tt, mk_world (w_token w) ds (w_io w) (w_alloc w) (w_clock w) (w_rand w)
         (w_ls w) (w_trace w)).
Definition emit (e : event) : M unit := fun w =>
  (tt, mk_world (w_token w) (w_disks w) (w_io w) (w_alloc w) (w_clock w)
         (w_rand w) (w_ls w) (e :: w_trace w)).

(** The result of the next read or write system call. *)
Definition io_result : M Z := fun w =>
  (hd 0 (w_io w),
   mk_world (w_token w) (w_disks w) (tl (w_io w)) (w_alloc w) (w_clock w)
     (w_rand w) (w_ls w) (w_trace w)).
Definition posix_memalign : M Z := fun w =>
  (hd 0 (w_alloc w),
   mk_world (w_token w) (w_disks w) (w_io w) (tl (w_alloc w)) (w_clock w)
     (w_rand w) (w_ls w) (w_trace w)).
Definition monotime : M Z := fun w =>
  (hd 0 (w_clock w),
   mk_world (w_token w) (w_disks w) (w_io w) (w_alloc w) (tl (w_clock w))
     (w_rand w) (w_ls w) (w_trace w)).
Definition get_rand : M Z := fun w =>
  (hd 0 (w_rand w),
   mk_world (w_token w) (w_disks w) (w_io w) (w_alloc w) (w_clock w)
     (tl (w_rand w)) (w_ls w) (w_trace w)).

Definition get_ls : M lockspace_env := fun w => (w_ls w, w).
Definition put_ls (e : lockspace_env) : M unit := fun w =>
  (tt, mk_world (w_token w) (w_disks w) (w_io w) (w_alloc w) (w_clock w)
         (w_rand w) e (w_trace w)).

Definition num_disks : M Z := fun w => (Z.of_nat (length (w_disks w)), w).

(** The lease area of disk [d] as it is now. *)
Definition disk_area (d : nat) : M lease_area := fun w =>
  (default zero_area (w_disks w !! d), w).
Definition put_area (d : nat) (a : lease_area) : M unit := fun w =>
  (tt, mk_world (w_token w) (<[d := a]> (w_disks w)) (w_io w) (w_alloc w)
         (w_clock w) (w_rand w) (w_ls w) (w_trace w)).

(** The outcome of a read loop of the ballot: [goto out] with an error, or
    the loop's variables at its end. *)
Inductive scan (A : Type) :=
| Abort (error : Z)
| Go (a : A).
Arguments Abort {A} error.
Arguments Go {A} a.

(** ** paxos_lease.c: helpers *)

Section Lease.
Context `{Consts}.

Definition roundup_power_of_two (val : Z) : Z :=
  let val := wrap32 (val - 1) in
  let val := Z.lor val (Z.shiftr val 1) in
  let val := Z.lor val (Z.shiftr val 2) in
  let val := Z.lor val (Z.shiftr val 4) in
  let val := Z.lor val (Z.shiftr val 8) in
  let val := Z.lor val (Z.shiftr val 16) in
  wrap32 (val + 1).

(** [write_dblock_mblock_sh]: the dblock and a SHARED mode block of our
    generation in one sector.  Returns the result and the caller's dblock,
    whose checksum field the function fills in. *)
Definition write_dblock_mblock_sh (d : nat) (hid : Z) (pd : paxos_dblock)
  : M (Z * paxos_dblock) :=
  token <- get_token ;;
  let mb := mk_mblock MBLOCK_SHARED (host_generation token) in
  if tk_sector_size token =? 0 then ret (- EINVAL, pd)
  else
    rv <- posix_memalign ;;
    if negb (rv =? 0) then ret (- ENOMEM, pd)
    else
      let checksum := dblock_checksum pd in
      let pd := set_pd_checksum checksum pd in
      rv <- io_result ;;
      emit (EvWriteDblock d (hid - 1) pd rv) ;;;
      a <- disk_area d ;;
      (if rv <? 0 then ret tt
       else put_area d (mk_area (la_leader a)
                          (<[hid - 1 := mk_sector pd mb]> (la_sectors a)))) ;;;
      ret (rv, pd).

(** [write_dblock]: host_id N is dblock sector N-1; [write_sector] writes
    the whole sector, so a plain write leaves no mode block behind. *)
Definition write_dblock (d : nat) (hid : Z) (pd : paxos_dblock)
  : M (Z * paxos_dblock) :=
  token <- get_token ;;
  if flag_set (tk_flags token) T_WRITE_DBLOCK_MBLOCK_SH
  then write_dblock_mblock_sh d hid pd
  else
    let checksum := dblock_checksum pd in
    let pd := set_pd_checksum checksum pd in
    rv <- io_result ;;
    emit (EvWriteDblock d (hid - 1) pd rv) ;;;
    a <- disk_area d ;;
    (if rv <? 0 then ret tt
     else put_area d (mk_area (la_leader a)
                        (<[hid - 1 := mk_sector pd zero_mblock]> (la_sectors a)))) ;;;
    ret (rv, pd).

Definition write_leader (d : nat) (lr : leader_record)
  : M (Z * leader_record) :=
  let checksum := leader_checksum lr in
  let lr := set_lr_checksum checksum lr in
  rv <- io_result ;;
  emit (EvWriteLeader d lr rv) ;;;
  a <- disk_area d ;;
  (if rv <? 0 then ret tt else put_area d (mk_area lr (la_sectors a))) ;;;
  ret (rv, lr).

Definition read_dblock (d : nat) (hid : Z) : M (Z * paxos_dblock) :=
  rv <- io_result ;;
  emit (EvReadDblock d (hid - 1) rv) ;;;
  a <- disk_area d ;;
  ret (rv, area_dblock a (hid - 1)).

(** [read_leader]: the result, the leader and the checksum computed over
    the sector as read.  The buffer of a read that failed is taken to hold
    zeros. *)
Definition read_leader (d : nat) : M (Z * leader_record * Z) :=
  token <- get_token ;;
  if tk_sector_size token =? 0 then ret (- EINVAL, zero_leader, 0)
  else
    rv <- io_result ;;
    emit (EvReadLeader d rv) ;;;
    a <- disk_area d ;;
    let lr_end := if rv <? 0 then zero_leader else la_leader a in
    ret (rv, lr_end, leader_checksum lr_end).

Definition verify_dblock (pd : paxos_dblock) (checksum : Z) : Z :=
  if (pd_checksum pd =? 0) && (pd_mbal pd =? 0) && (pd_bal pd =? 0)
     && (pd_inp pd =? 0) && (pd_lver pd =? 0)
  then SANLK_OK
  else if negb (pd_checksum pd =? checksum) then SANLK_DBLOCK_CHECKSUM
  else SANLK_OK.

(** The checks of [_verify_leader] after the one for a cleared leader, in
    order: the result of the first that fails ([goto fail]), if any. *)
Definition verify_leader_checks (token : token) (lr : leader_record)
    (checksum : Z) : option Z :=
  if negb (lr_magic lr =? PAXOS_DISK_MAGIC) then Some SANLK_LEADER_MAGIC
  else if negb (Z.land (lr_version lr) 0xFFFF0000 =? PAXOS_DISK_VERSION_MAJOR)
  then Some SANLK_LEADER_VERSION
  else if negb (String.eqb (lr_space_name lr) (r_lockspace_name token))
  then Some SANLK_LEADER_LOCKSPACE
  else if negb (String.eqb (lr_resource_name lr) (r_name token))
  then Some SANLK_LEADER_RESOURCE
  else if lr_num_hosts lr <? host_id token then Some SANLK_LEADER_NUMHOSTS
  else if negb (lr_checksum lr =? checksum) then Some SANLK_LEADER_CHECKSUM
  else None.

(** [_verify_leader]: a cleared leader fails quietly; any other failure
    with [print_error] set re-reads the leader sector for the log. *)
Definition _verify_leader (d : nat) (lr : leader_record) (checksum : Z)
    (print_error : bool) : M Z :=
  token <- get_token ;;
  if lr_magic lr =? PAXOS_DISK_CLEAR then ret SANLK_LEADER_MAGIC
  else
    match verify_leader_checks token lr checksum with
    | None => ret SANLK_OK
    | Some result =>
        if negb print_error then ret result
        else
          rv <- io_result ;;
          emit (EvReadLeader d rv) ;;;
          ret result
    end.

Definition verify_leader (d : nat) (lr : leader_record) (checksum : Z) : M Z :=
  _verify_leader d lr checksum true.

(** ** Reading the leader *)

(** [_leader_read_one]: the caller's buffer [leader_ret] is overwritten by
    what was read, also when verification fails, but not when the read
    itself fails. *)
Definition _leader_read_one (leader_ret : leader_record)
  : M (Z * leader_record) :=
  r <- read_leader 0 ;;
  let '(rv, leader, checksum) := r in
  if rv <? 0 then ret (rv, leader_ret)
  else
    rv <- verify_leader 0 leader checksum ;;
    ret (rv, leader).

(** [reps[i]++] for the first [i < d] whose leader matches the one of
    disk [d] (the loop that counts how often a leader block repeats). *)
Fixpoint count_repeat (ld : leader_record) (leaders : list leader_record)
    (reps : list Z) : list Z :=
  match leaders, reps with
  | l :: leaders', n :: reps' =>
      if leaders_match ld l then (n + 1) :: reps'
      else n :: count_repeat ld leaders' reps'
  | _, _ => reps
  end.

(** The first disk whose leader repeats on a majority of the disks. *)
Fixpoint majority_leader (n : Z) (leaders : list leader_record)
    (reps : list Z) : option leader_record :=
  match leaders, reps with
  | l :: leaders', r :: reps' =>
      if majority_disks n r then Some l else majority_leader n leaders' reps'
  | _, _ => None
  end.

(** The read loop of [_leader_read_num] over the disks [ds]; [leaders] and
    [reps] hold the entries of the disks before, [rv] is the C variable
    of that name. *)
Fixpoint leader_read_loop (ds : list nat) (leaders : list leader_record)
    (reps : list Z) (num_reads rv : Z)
  : M (list leader_record * list Z * Z * Z) :=
  match ds with
  | [] => ret (leaders, reps, num_reads, rv)
  | d :: ds' =>
      r <- read_leader d ;;
      let '(rv, leader, checksum) := r in
      if rv <? 0
      then leader_read_loop ds' (leaders ++ [leader]) (reps ++ [0]) num_reads rv
      else
        rv <- verify_leader d leader checksum ;;
        if rv <? 0
        then leader_read_loop ds' (leaders ++ [leader]) (reps ++ [0]) num_reads rv
        else
          leader_read_loop ds' (leaders ++ [leader])
            (count_repeat leader leaders reps ++ [1]) (num_reads + 1) rv
  end.

Definition _leader_read_num : M (Z * leader_record) :=
  n <- num_disks ;;
  r <- leader_read_loop (seq 0 (Z.to_nat n)) [] [] 0 0 ;;
  let '(leaders, reps, num_reads, rv) := r in
  if negb (majority_disks n num_reads) then ret (SANLK_LEADER_READ, zero_leader)
  else
    match majority_leader n leaders reps with
    | Some leader => ret (SANLK_OK, leader)
    | None => ret (SANLK_LEADER_DIFF, zero_leader)
    end.

Definition paxos_lease_leader_read (leader_ret : leader_record)
  : M (Z * leader_record) :=
  n <- num_disks ;;
  if n >? 1 then _leader_read_num else _leader_read_one leader_ret.

(** ** Reading the whole lease area *)

(** The dblock loop of [_lease_read_one] over the slots [qs]: the first
    dblock that fails verification ends it with that error; otherwise the
    largest mbal seen and its slot. *)
Fixpoint lease_read_dblocks (a : lease_area) (qs : list Z) (rv tmp_mbal tmp_q : Z)
  : Z * option (Z * Z) :=
  match qs with
  | [] => (rv, Some (tmp_mbal, tmp_q))
  | q :: qs' =>
      let bk := area_dblock a q in
      let checksum := dblock_checksum bk in
      let rv := verify_dblock bk checksum in
      if rv <? 0 then (rv, None)
      else if (tmp_mbal =? 0) || (pd_mbal bk >? tmp_mbal)
      then lease_read_dblocks a qs' rv (pd_mbal bk) q
      else lease_read_dblocks a qs' rv tmp_mbal tmp_q
  end.

(** The caller's buffers of [_lease_read_one] and [_lease_read_num]. *)
Record lease_bufs := mk_bufs {
  b_leader : leader_record;
  b_dblock : paxos_dblock;
  b_max_mbal : Z;
  b_max_q : Z
}.

Definition _lease_read_one (d : nat) (bufs : lease_bufs) : M (Z * lease_bufs) :=
  token <- get_token ;;
  let iobuf_len := tk_align_size token in
  if iobuf_len <? 0 then ret (iobuf_len, bufs)
  else
    rv <- posix_memalign ;;
    if negb (rv =? 0) then ret (rv, bufs)
    else
      rv <- io_result ;;
      emit (EvReadArea d rv) ;;;
      if rv <? 0 then ret (rv, bufs)
      else
        a <- disk_area d ;;
        let leader := la_leader a in
        let checksum := leader_checksum leader in
        let our_dblock := area_dblock a (wrap32 (host_id token) - 1) in
        let bufs := mk_bufs leader our_dblock (b_max_mbal bufs) (b_max_q bufs) in
        rv <- verify_leader d leader checksum ;;
        if rv <? 0 then ret (rv, bufs)
        else
          match lease_read_dblocks a (seqZ 0 (lr_num_hosts leader)) rv 0 (-1) with
          | (rv, None) => ret (rv, bufs)
          | (rv, Some (tmp_mbal, tmp_q)) =>
              ret (rv, mk_bufs leader our_dblock tmp_mbal tmp_q)
          end.

(** The read loop of [_lease_read_num]; [one] holds [leader_one],
    [dblock_one], [mbal_one] and [q_one], which a failed read leaves as
    they were. *)
Fixpoint lease_read_loop (ds : list nat) (one : lease_bufs)
    (leaders : list leader_record) (reps : list Z)
    (num_reads rv tmp_mbal tmp_q : Z) (our_dblock : paxos_dblock)
  : M (list leader_record * list Z * (Z * Z) * (Z * Z) * paxos_dblock) :=
  match ds with
  | [] => ret (leaders, reps, (num_reads, rv), (tmp_mbal, tmp_q), our_dblock)
  | d :: ds' =>
      r <- _lease_read_one d one ;;
      let '(rv, one) := r in
      if rv <? 0
      then lease_read_loop ds' one (leaders ++ [zero_leader]) (reps ++ [0])
             num_reads rv tmp_mbal tmp_q our_dblock
      else
        let '(tmp_mbal, tmp_q, our_dblock) :=
          if (tmp_mbal =? 0) || (b_max_mbal one >? tmp_mbal)
          then (b_max_mbal one, b_max_q one, b_dblock one)
          else (tmp_mbal, tmp_q, our_dblock) in
        lease_read_loop ds' one (leaders ++ [b_leader one])
          (count_repeat (b_leader one) leaders reps ++ [1])
          (num_reads + 1) rv tmp_mbal tmp_q our_dblock
  end.

Definition _lease_read_num (bufs : lease_bufs) : M (Z * lease_bufs) :=
  n <- num_disks ;;
  r <- lease_read_loop (seq 0 (Z.to_nat n))
         (mk_bufs zero_leader zero_dblock 0 0) [] [] 0 0 0 (-1) (b_dblock bufs) ;;
  let '(leaders, reps, (num_reads, rv), (tmp_mbal, tmp_q), our_dblock) := r in
  let bufs := mk_bufs (b_leader bufs) our_dblock tmp_mbal tmp_q in
  if num_reads =? 0 then ret (SANLK_DBLOCK_READ, bufs)
  else
    match majority_leader n leaders reps with
    | Some leader => ret (rv, mk_bufs leader our_dblock tmp_mbal tmp_q)
    | None => ret (SANLK_LEADER_DIFF, bufs)
    end.

(** [paxos_lease_read]: the result, the leader and the largest mbal of all
    dblocks; [bufs] holds what the caller's variables held before. *)
Definition paxos_lease_read (bufs : lease_bufs) : M (Z * lease_bufs) :=
  n <- num_disks ;;
  if n >? 1 then _lease_read_num bufs else _lease_read_one 0 bufs.

(** ** Writing the leader *)

Fixpoint write_leader_loop (ds : list nat) (nl : leader_record)
    (num_writes rv : Z) (timeout : bool) : M (leader_record * Z * Z * bool) :=
  match ds with
  | [] => ret (nl, num_writes, rv, timeout)
  | d :: ds' =>
      r <- write_leader d nl ;;
      let '(rv, nl) := r in
      let timeout := if rv =? SANLK_AIO_TIMEOUT then true else timeout in
      if rv <? 0 then write_leader_loop ds' nl num_writes rv timeout
      else write_leader_loop ds' nl (num_writes + 1) rv timeout
  end.

(** [write_new_leader]: the result and the leader with its checksum set. *)
Definition write_new_leader (nl : leader_record) : M (Z * leader_record) :=
  n <- num_disks ;;
  r <- write_leader_loop (seq 0 (Z.to_nat n)) nl 0 0 false ;;
  let '(nl, num_writes, rv, timeout) := r in
  if negb (majority_disks n num_writes) then
    if timeout then ret (SANLK_AIO_TIMEOUT, nl)
    else if rv <? 0 then ret (rv, nl)
    else ret (SANLK_LEADER_WRITE, nl)
  else ret (SANLK_OK, nl).

(** ** The ballot *)


(** The dblocks of hosts [1 .. num_hosts] in a lease area as read, each
    with its slot [q]. *)
Definition area_blocks (a : lease_area) (num_hosts : Z)
  : list (Z * paxos_dblock) :=
  map (fun q => (q, area_dblock a q)) (seqZ 0 num_hosts).

(** One dblock [bk] of slot [q] in the phase 1 read loop; [bk_max] and
    [q_max] are the loop's variables. *)
Definition phase1_block (dblock : paxos_dblock) (q : Z) (bk : paxos_dblock)
    (bk_max : paxos_dblock) (q_max : Z) : scan (paxos_dblock * Z) :=
  let checksum := dblock_checksum bk in
  let rv := verify_dblock bk checksum in
  if rv <? 0 then Go (bk_max, q_max)
  else if pd_lver bk <? pd_lver dblock then Go (bk_max, q_max)
  else if pd_lver bk >? pd_lver dblock then Abort SANLK_DBLOCK_LVER
  else if pd_mbal bk >? pd_mbal dblock then Abort SANLK_DBLOCK_MBAL
  else if pd_inp bk =? 0 then Go (bk_max, q_max)
  else if pd_bal bk =? 0 then Go (bk_max, q_max)
  else if pd_bal bk >? pd_bal bk_max then Go (bk, q)
  else Go (bk_max, q_max).

Fixpoint phase1_scan (dblock : paxos_dblock) (bks : list (Z * paxos_dblock))
    (bk_max : paxos_dblock) (q_max : Z) : scan (paxos_dblock * Z) :=
  match bks with
  | [] => Go (bk_max, q_max)
  | (q, bk) :: bks' =>
      match phase1_block dblock q bk bk_max q_max with
      | Abort e => Abort e
      | Go (bk_max, q_max) => phase1_scan dblock bks' bk_max q_max
      end
  end.

(** One dblock in the phase 2 read loop. *)
Definition phase2_block (dblock bk : paxos_dblock) : scan unit :=
  let checksum := dblock_checksum bk in
  let rv := verify_dblock bk checksum in
  if rv <? 0 then Go tt
  else if pd_lver bk <? pd_lver dblock then Go tt
  else if pd_lver bk >? pd_lver dblock then Abort SANLK_DBLOCK_LVER
  else if pd_mbal bk >? pd_mbal dblock then Abort SANLK_DBLOCK_MBAL
  else Go tt.

Fixpoint phase2_scan (dblock : paxos_dblock) (bks : list (Z * paxos_dblock))
  : scan unit :=
  match bks with
  | [] => Go tt
  | (_, bk) :: bks' =>
      match phase2_block dblock bk with
      | Abort e => Abort e
      | Go _ => phase2_scan dblock bks'
      end
  end.

(** The write loop of either phase: our dblock to every disk. *)
Fixpoint ballot_write_loop (ds : list nat) (dblock : paxos_dblock)
    (num_writes : Z) : M (paxos_dblock * Z) :=
  match ds with
  | [] => ret (dblock, num_writes)
  | d :: ds' =>
      token <- get_token ;;
      r <- write_dblock d (host_id token) dblock ;;
      let '(rv, dblock) := r in
      if rv <? 0 then ballot_write_loop ds' dblock num_writes
      else ballot_write_loop ds' dblock (num_writes + 1)
  end.

(** The variables of the phase 1 read loop: which [iobuf[d]] are still
    ours (a read that timed out keeps its buffer), [num_reads], [bk_max]
    and [q_max]. *)
Record phase1_vars := mk_p1 {
  p1_iobuf : list bool;
  p1_num_reads : Z;
  p1_bk_max : paxos_dblock;
  p1_q_max : Z
}.

Fixpoint phase1_read_loop (ds : list nat) (num_hosts : Z)
    (dblock : paxos_dblock) (v : phase1_vars) : M (scan phase1_vars) :=
  match ds with
  | [] => ret (Go v)
  | d :: ds' =>
      if negb (default false (p1_iobuf v !! d))
      then phase1_read_loop ds' num_hosts dblock v
      else
        rv <- io_result ;;
        emit (EvReadArea d rv) ;;;
        let iobuf := if rv =? SANLK_AIO_TIMEOUT
                     then <[d := false]> (p1_iobuf v) else p1_iobuf v in
        if rv <? 0
        then phase1_read_loop ds' num_hosts dblock
               (mk_p1 iobuf (p1_num_reads v) (p1_bk_max v) (p1_q_max v))
        else
          a <- disk_area d ;;
          match phase1_scan dblock (area_blocks a num_hosts)
                  (p1_bk_max v) (p1_q_max v) with
          | Abort e => ret (Abort e)
          | Go (bk_max, q_max) =>
              phase1_read_loop ds' num_hosts dblock
                (mk_p1 iobuf (p1_num_reads v + 1) bk_max q_max)
          end
  end.

Fixpoint phase2_read_loop (ds : list nat) (num_hosts : Z)
    (dblock : paxos_dblock) (iobuf : list bool) (num_reads : Z)
  : M (scan Z) :=
  match ds with
  | [] => ret (Go num_reads)
  | d :: ds' =>
      if negb (default false (iobuf !! d))
      then phase2_read_loop ds' num_hosts dblock iobuf num_reads
      else
        rv <- io_result ;;
        emit (EvReadArea d rv) ;;;
        let iobuf := if rv =? SANLK_AIO_TIMEOUT
                     then <[d := false]> iobuf else iobuf in
        if rv <? 0
        then phase2_read_loop ds' num_hosts dblock iobuf num_reads
        else
          a <- disk_area d ;;
          match phase2_scan dblock (area_blocks a num_hosts) with
          | Abort e => ret (Abort e)
          | Go _ => phase2_read_loop ds' num_hosts dblock iobuf (num_reads + 1)
          end
  end.

(** The allocation loop at the start of [run_ballot]: the first
    [posix_memalign] that fails, if any. *)
Fixpoint ballot_alloc (ds : list nat) : M Z :=
  match ds with
  | [] => ret 0
  | _ :: ds' =>
      rv <- posix_memalign ;;
      if negb (rv =? 0) then ret rv else ballot_alloc ds'
  end.

(** The code at [out:]: after phase 2 has begun, a failed read or write
    majority marks the token for retraction. *)
Definition ballot_out (phase2 : bool) (error : Z) (dblock : paxos_dblock)
  : M (Z * paxos_dblock) :=
  token <- get_token ;;
  (if phase2 && (error <? 0)
      && ((error =? SANLK_DBLOCK_READ) || (error =? SANLK_DBLOCK_WRITE))
   then put_token (set_tk_flags (Z.lor (tk_flags token) T_RETRACT_PAXOS) token)
   else ret tt) ;;;
  ret (error, dblock).

(** Phase 2 of [run_ballot], from [phase2 = 1] on; [dblock] carries the
    chosen inp values and [bal = mbal]. *)
Definition ballot_phase2 (ds : list nat) (n num_hosts : Z)
    (dblock : paxos_dblock) (iobuf : list bool) : M (Z * paxos_dblock) :=
  r <- ballot_write_loop ds dblock 0 ;;
  let '(dblock, num_writes) := r in
  if negb (majority_disks n num_writes)
  then ballot_out true SANLK_DBLOCK_WRITE dblock
  else
    r <- phase2_read_loop ds num_hosts dblock iobuf 0 ;;
    match r with
    | Abort e => ballot_out true e dblock
    | Go num_reads =>
        if negb (majority_disks n num_reads)
        then ballot_out true SANLK_DBLOCK_READ dblock
        else ballot_out true SANLK_OK dblock
    end.

(** The choice of inp between the phases: the values of [bk_max] if it
    has any, else our own. *)
Definition choose_inp (dblock bk_max : paxos_dblock) : M paxos_dblock :=
  token <- get_token ;;
  if negb (pd_inp bk_max =? 0)
  then ret (mk_dblock (pd_mbal dblock) (pd_mbal dblock) (pd_inp bk_max)
              (pd_inp2 bk_max) (pd_inp3 bk_max) (pd_lver dblock) 0
              (pd_flags dblock))
  else
    now <- monotime ;;
    ret (mk_dblock (pd_mbal dblock) (pd_mbal dblock) (host_id token)
           (host_generation token) now (pd_lver dblock) 0 (pd_flags dblock)).

(** Phase 1 of [run_ballot], from the write of our dblock on, and phase 2
    after it. *)
Definition ballot_phase1 (ds : list nat) (n num_hosts : Z)
    (dblock : paxos_dblock) : M (Z * paxos_dblock) :=
  r <- ballot_write_loop ds dblock 0 ;;
  let '(dblock, num_writes) := r in
  if negb (majority_disks n num_writes)
  then ballot_out false SANLK_DBLOCK_WRITE dblock
  else
    r <- phase1_read_loop ds num_hosts dblock
           (mk_p1 (map (fun _ => true) ds) 0 zero_dblock (-1)) ;;
    match r with
    | Abort e => ballot_out false e dblock
    | Go v =>
        if negb (majority_disks n (p1_num_reads v))
        then ballot_out false SANLK_DBLOCK_READ dblock
        else
          dblock <- choose_inp dblock (p1_bk_max v) ;;
          (* phase 2 *)
          ballot_phase2 ds n num_hosts dblock (p1_iobuf v)
    end.

(** [run_ballot]: the result and the caller's [dblock_out], which the
    early returns leave as it was.  [flags] only selects what is logged.
    ([check_mode_block], called on each verified dblock of phase 1, only
    records shared holders in the token and is left out.) *)
Definition run_ballot (flags : Z) (num_hosts next_lver our_mbal : Z)
    (dblock_out : paxos_dblock) : M (Z * paxos_dblock) :=
  token <- get_token ;;
  n <- num_disks ;;
  let ds := seq 0 (Z.to_nat n) in
  let sector_count := roundup_power_of_two (wrap32 (num_hosts + 2)) in
  let iobuf_len := to_int (sector_count * tk_sector_size token) in
  if iobuf_len =? 0 then ret (- EINVAL, dblock_out)
  else
    rv <- ballot_alloc ds ;;
    if negb (rv =? 0) then ret (rv, dblock_out)
    else
      (* phase 1 *)
      ballot_phase1 ds n num_hosts (mk_dblock our_mbal 0 0 0 0 next_lver 0 0).

(** ** paxos_lease_acquire *)

(** The ballot number a host starts with: its host_id if no dblock holds
    an mbal yet, else the first number past [max_mbal] in the next block
    of [max_hosts] numbers, at the host's offset (64-bit unsigned).  The
    second case divides by [max_hosts]; [acquire_run] evaluates it only
    for a [max_hosts] that is not zero. *)
Definition choose_our_mbal (max_mbal max_hosts hid : Z) : Z :=
  if max_mbal =? 0 then hid
  else
    let num_mbal := wrap64 (max_mbal - max_mbal mod max_hosts) in
    wrap64 (num_mbal + max_hosts + hid).

(** The lockspace layer's calls. *)
Definition lockspace_disk : M Z := ls <- get_ls ;; ret (ls_lockspace_disk ls).
Definition open_disks_fd : M Z := ls <- get_ls ;; ret (ls_open_disks_fd ls).
Definition host_info : M (Z * host_status) :=
  ls <- get_ls ;;
  put_ls (mk_ls_env (ls_lockspace_disk ls) (ls_open_disks_fd ls)
            (tl (ls_host_info ls)) (ls_delta ls) (ls_shutdown ls)) ;;;
  ret (hd (-1, mk_hs 0 0 0 0 0 0) (ls_host_info ls)).
Definition delta_lease_leader_read (owner : Z) : M (Z * leader_record) :=
  ls <- get_ls ;;
  put_ls (mk_ls_env (ls_lockspace_disk ls) (ls_open_disks_fd ls)
            (ls_host_info ls) (tl (ls_delta ls)) (ls_shutdown ls)) ;;;
  let r := hd (0, zero_leader) (ls_delta ls) in
  emit (EvDeltaRead owner (fst r)) ;;;
  ret r.
Definition external_shutdown : M bool :=
  ls <- get_ls ;;
  put_ls (mk_ls_env (ls_lockspace_disk ls) (ls_open_disks_fd ls)
            (ls_host_info ls) (ls_delta ls) (tl (ls_shutdown ls))) ;;;
  ret (hd false (ls_shutdown ls)).

(** The arguments of [paxos_lease_acquire]. *)
Record acq_args := mk_args {
  a_flags : Z;
  a_acquire_lver : Z;
  a_new_num_hosts : Z
}.

(** Its variables that live across the labels, and the caller's
    [leader_ret] and [dblock_ret]. *)
Record acq_vars := mk_av {
  av_cur_leader : leader_record;
  av_max_mbal : Z;
  av_dblock : paxos_dblock;
  av_disk_open : bool;
  av_leader_ret : leader_record;
  av_dblock_ret : paxos_dblock
}.

(** Where control stands: at a label of the function, at the head of the
    [while (1)] loop, at [out:] with the result, or nowhere any more
    because the process has faulted (a division by zero). *)
Inductive acq_pc :=
| PcRestart
| PcWait (wait_start last_timestamp : Z) (hs : host_status)
| PcRun (copy_cur_leader : bool)
| PcRetryBallot (copy_cur_leader : bool) (next_lver our_mbal : Z)
| PcOut (error : Z)
| PcFault.

Definition is_local_owner (token : token) (l : leader_record) : bool :=
  (lr_owner_id l =? host_id token)
  && (lr_owner_generation l =? host_generation token).

(** From [restart:] up to the [while (1)] loop. *)
Definition acquire_restart (args : acq_args) (v : acq_vars)
  : M (acq_pc * acq_vars) :=
  r <- paxos_lease_read
         (mk_bufs (av_cur_leader v) zero_dblock (av_max_mbal v) (-1)) ;;
  let '(error, bufs) := r in
  let cur_leader := b_leader bufs in
  let v := mk_av cur_leader (b_max_mbal bufs) (av_dblock v) (av_disk_open v)
             (av_leader_ret v) (av_dblock_ret v) in
  if error <? 0 then ret (PcOut error, v)
  else
    token <- get_token ;;
    let align_size := leader_align_size_from_flag (lr_flags cur_leader) in
    let align_size :=
      if align_size =? 0
      then sector_size_to_align_size_old (lr_sector_size cur_leader)
      else align_size in
    if negb (lr_sector_size cur_leader =? tk_sector_size token)
       || negb (align_size =? tk_align_size token)
    then
      put_token (set_tk_sizes (lr_sector_size cur_leader) align_size token) ;;;
      ret (PcRestart, v)
    else if flag_set (a_flags args) PAXOS_ACQUIRE_FORCE then ret (PcRun true, v)
    else if negb (a_acquire_lver args =? 0)
            && negb (lr_lver cur_leader =? a_acquire_lver args)
    then ret (PcOut SANLK_ACQUIRE_LVER, v)
    else if lr_timestamp cur_leader =? LEASE_FREE then ret (PcRun true, v)
    else if is_local_owner token cur_leader then ret (PcRun true, v)
    else if (lr_owner_id cur_leader =? host_id token)
            && (lr_owner_generation cur_leader <? host_generation token)
    then ret (PcRun true, v)
    else
      (* check if the current owner is alive *)
      rv <- (if av_disk_open v then ret 0 else lockspace_disk) ;;
      if rv <? 0 then ret (PcOut SANLK_ACQUIRE_LOCKSPACE, v)
      else
        rv <- (if av_disk_open v then ret 0 else open_disks_fd) ;;
        if rv <? 0 then ret (PcOut SANLK_ACQUIRE_IDDISK, v)
        else
          let v := mk_av cur_leader (av_max_mbal v) (av_dblock v) true
                     (av_leader_ret v) (av_dblock_ret v) in
          r <- host_info ;;
          let '(rv, hs) := r in
          if (rv =? 0) && negb (hs_last_check hs =? 0)
             && negb (hs_last_live hs =? 0)
             && (hs_owner_id hs =? lr_owner_id cur_leader)
             && (hs_owner_generation hs =? lr_owner_generation cur_leader)
          then ret (PcWait (hs_last_live hs) (hs_timestamp hs) hs, v)
          else
            now <- monotime ;;
            ret (PcWait now 0 hs, v).

(** From [skip_live_check:] to the end of the loop body. *)
Definition acquire_skip_live_check (v : acq_vars) (wait_start last_timestamp : Z)
    (hs : host_status) : M (acq_pc * acq_vars) :=
  emit (EvSleep 1) ;;;
  stop <- external_shutdown ;;
  if stop then ret (PcOut (-1), v)
  else
    r <- paxos_lease_leader_read zero_leader ;;
    let '(error, tmp_leader) := r in
    if error <? 0 then ret (PcOut error, v)
    else if negb (bool_decide (av_cur_leader v = tmp_leader))
    then ret (PcRestart, v)
    else ret (PcWait wait_start last_timestamp hs, v).

(** One pass through the [while (1)] loop that waits for a sign of life
    or death of the owner. *)
Definition acquire_wait (args : acq_args) (v : acq_vars)
    (wait_start last_timestamp : Z) (hs : host_status) : M (acq_pc * acq_vars) :=
  let cur_leader := av_cur_leader v in
  r <- delta_lease_leader_read (lr_owner_id cur_leader) ;;
  let '(error, host_id_leader) := r in
  if error <? 0 then ret (PcOut error, v)
  else if lr_timestamp host_id_leader =? LEASE_FREE then ret (PcRun false, v)
  else if negb (lr_owner_id host_id_leader =? lr_owner_id cur_leader)
          || (lr_owner_generation host_id_leader >? lr_owner_generation cur_leader)
  then ret (PcRun false, v)
  else if last_timestamp =? 0
  then acquire_skip_live_check v wait_start (lr_timestamp host_id_leader) hs
  else if negb (lr_timestamp host_id_leader =? last_timestamp)
          || (negb (hs_last_live hs =? 0)
              && (hs_last_check hs =? hs_last_live hs))
  then
    (* the owner is alive *)
    let v := mk_av cur_leader (av_max_mbal v) (av_dblock v) (av_disk_open v)
               cur_leader (av_dblock_ret v) in
    if negb (lr_write_id cur_leader =? lr_owner_id cur_leader)
    then
      r <- read_dblock 0 (lr_owner_id cur_leader) ;;
      let '(rv, owner_dblock) := r in
      if (rv =? 0) && flag_set (pd_flags owner_dblock) DBLOCK_FL_RELEASED
      then ret (PcRun false, v)
      else ret (PcOut SANLK_ACQUIRE_IDLIVE, v)
    else ret (PcOut SANLK_ACQUIRE_IDLIVE, v)
  else
    now <- monotime ;;
    let other_host_dead_seconds := calc_host_dead_seconds (hs_io_timeout hs) in
    if wrap64 (now - wait_start) >? wrap64 other_host_dead_seconds
    then ret (PcRun false, v)
    else if flag_set (a_flags args) PAXOS_ACQUIRE_OWNER_NOWAIT
    then ret (PcOut SANLK_ACQUIRE_OWNED_RETRY, v)
    else acquire_skip_live_check v wait_start last_timestamp hs.

(** [run:] the ballot numbers this attempt starts from.  With a max_mbal
    that is not zero the code computes [max_mbal % cur_leader.max_hosts],
    which no check before it keeps from being a division by zero. *)
Definition acquire_run (v : acq_vars) (copy_cur_leader : bool)
  : M (acq_pc * acq_vars) :=
  token <- get_token ;;
  let cur_leader := av_cur_leader v in
  let next_lver := wrap64 (lr_lver cur_leader + 1) in
  if negb (av_max_mbal v =? 0) && (lr_max_hosts cur_leader =? 0)
  then ret (PcFault, v)
  else
    let our_mbal :=
      choose_our_mbal (av_max_mbal v) (lr_max_hosts cur_leader)
        (host_id token) in
    ret (PcRetryBallot copy_cur_leader next_lver our_mbal, v).

(** The delay before the ballot is tried again: [get_rand(0, 1000000)]
    microseconds, or [host_id * 100] if [get_rand] fails. *)
Definition retry_delay : M Z :=
  token <- get_token ;;
  us <- get_rand ;;
  let us := if us <? 0 then to_int (wrap64 (host_id token * 100)) else us in
  emit (EvUsleep us) ;;;
  ret us.

(** After a ballot that succeeded: commit [next_lver] with the dblock's
    values.  [new_num_hosts] is an [int] stored in the 64-bit unsigned
    [num_hosts]. *)
Definition acquire_commit (args : acq_args) (v : acq_vars)
  : M (acq_pc * acq_vars) :=
  token <- get_token ;;
  let dblock := av_dblock v in
  let new_leader :=
    set_lr_owner (pd_inp dblock) (pd_inp2 dblock) (pd_inp3 dblock)
      (pd_lver dblock) (av_cur_leader v) in
  now <- monotime ;;
  let new_leader :=
    set_lr_writer (host_id token) (host_generation token) now new_leader in
  let new_leader :=
    if negb (a_new_num_hosts args =? 0)
    then set_lr_num_hosts (wrap64 (a_new_num_hosts args)) new_leader
    else new_leader in
  let new_leader :=
    if lr_owner_id new_leader =? host_id token then
      if flag_set (a_flags args) PAXOS_ACQUIRE_SHARED
      then set_lr_flags (Z.lor (lr_flags new_leader) LFL_SHORT_HOLD) new_leader
      else set_lr_flags (Z.land (lr_flags new_leader) (Z.lnot LFL_SHORT_HOLD))
             new_leader
    else new_leader in
  let new_leader := set_lr_checksum 0 new_leader in
  r <- write_new_leader new_leader ;;
  let '(error, new_leader) := r in
  let v' := mk_av (av_cur_leader v) (av_max_mbal v) dblock (av_disk_open v)
              new_leader (av_dblock_ret v) in
  if error <? 0 then
    token <- get_token ;;
    put_token (set_tk_flags (Z.lor (tk_flags token) T_RETRACT_PAXOS) token) ;;;
    ret (PcOut error, v')
  else if negb (lr_owner_id new_leader =? host_id token)
  then ret (PcOut SANLK_ACQUIRE_OTHER, v')
  else
    ret (PcOut SANLK_OK,
         mk_av (av_cur_leader v) (av_max_mbal v) dblock (av_disk_open v)
           new_leader dblock).

(** The ballot of [retry_ballot:] and what follows it: on an MBAL or LVER
    abort back to [retry_ballot:] with a larger mbal, else out with the
    error or on to the commit. *)
Definition acquire_ballot (args : acq_args) (v : acq_vars)
    (next_lver our_mbal : Z) : M (acq_pc * acq_vars) :=
  let cur_leader := av_cur_leader v in
  r <- run_ballot (a_flags args) (to_int (lr_num_hosts cur_leader))
         next_lver our_mbal (av_dblock v) ;;
  let '(error, dblock) := r in
  let v := mk_av cur_leader (av_max_mbal v) dblock (av_disk_open v)
             (av_leader_ret v) (av_dblock_ret v) in
  if (error =? SANLK_DBLOCK_MBAL) || (error =? SANLK_DBLOCK_LVER) then
    retry_delay ;;;
    ret (PcRetryBallot false next_lver
           (wrap64 (our_mbal + lr_max_hosts cur_leader)), v)
  else if error <? 0 then ret (PcOut error, v)
  else acquire_commit args v.

(** [retry_ballot:] re-read the leader and, unless it has moved on, run
    the ballot. *)
Definition acquire_retry_ballot (args : acq_args) (v : acq_vars)
    (copy_cur_leader : bool) (next_lver our_mbal : Z) : M (acq_pc * acq_vars) :=
  token <- get_token ;;
  let cur_leader := av_cur_leader v in
  r <- (if copy_cur_leader then ret (0, cur_leader)
        else paxos_lease_leader_read zero_leader) ;;
  let '(error, tmp_leader) := r in
  if error <? 0 then ret (PcOut error, v)
  else if lr_lver tmp_leader =? next_lver then
    (* another host has committed next_lver *)
    if is_local_owner token tmp_leader
    then ret (PcOut SANLK_OK,
              mk_av cur_leader (av_max_mbal v) (av_dblock v) (av_disk_open v)
                tmp_leader (av_dblock v))
    else ret (PcOut SANLK_ACQUIRE_OWNED,
              mk_av cur_leader (av_max_mbal v) (av_dblock v) (av_disk_open v)
                tmp_leader (av_dblock_ret v))
  else if lr_lver tmp_leader >? next_lver then ret (PcRestart, v)
  else if negb (bool_decide (cur_leader = tmp_leader)) then ret (PcRestart, v)
  else acquire_ballot args v next_lver our_mbal.

Definition acquire_step (args : acq_args) (pc : acq_pc) (v : acq_vars)
  : M (acq_pc * acq_vars) :=
  match pc with
  | PcRestart => acquire_restart args v
  | PcWait wait_start last_timestamp hs =>
      acquire_wait args v wait_start last_timestamp hs
  | PcRun copy_cur_leader => acquire_run v copy_cur_leader
  | PcRetryBallot copy_cur_leader next_lver our_mbal =>
      acquire_retry_ballot args v copy_cur_leader next_lver our_mbal
  | PcOut error => ret (PcOut error, v)
  | PcFault => ret (PcFault, v)
  end.

(** Run from [pc] until [out:], for at most [fuel] jumps: the result with
    the caller's [leader_ret] and [dblock_ret], or [None] when the jumps
    run out or the process has faulted and returns nothing. *)
Fixpoint acquire_from (fuel : nat) (args : acq_args) (pc : acq_pc)
    (v : acq_vars) : M (option (Z * leader_record * paxos_dblock)) :=
  match pc with
  | PcOut error => ret (Some (error, av_leader_ret v, av_dblock_ret v))
  | PcFault => ret None
  | _ =>
      match fuel with
      | O => ret None
      | S fuel' =>
          r <- acquire_step args pc v ;;
          acquire_from fuel' args (fst r) (snd r)
      end
  end.

Definition paxos_lease_acquire (fuel : nat) (args : acq_args)
    (leader_ret : leader_record) (dblock_ret : paxos_dblock)
  : M (option (Z * leader_record * paxos_dblock)) :=
  token <- get_token ;;
  if tk_sector_size token =? 0
  then ret (Some (- EINVAL, leader_ret, dblock_ret))
  else
    acquire_from fuel args PcRestart
      (mk_av zero_leader 0 zero_dblock false leader_ret dblock_ret).

(** ** paxos_lease_release *)

(** The checks of [paxos_lease_release] between reading the leader and
    freeing it, in order: [Some rv] is an early return. *)
Definition release_checks (token : token) (leader last : leader_record)
  : option Z :=
  if negb (lr_write_id leader =? host_id token) then Some 0
  else if negb (lr_lver leader =? lr_lver last) then Some SANLK_RELEASE_LVER
  else if lr_timestamp leader =? LEASE_FREE then Some SANLK_RELEASE_OWNER
  else if negb (lr_owner_id leader =? host_id token)
          || negb (lr_owner_generation leader =? host_generation token)
  then Some SANLK_RELEASE_OWNER
  else if negb (bool_decide (leader = last)) then Some SANLK_RELEASE_OWNER
  else None.

(** The leader a release writes. *)
Definition released_leader (token : token) (resrename : option string)
    (now : Z) (leader : leader_record) : leader_record :=
  let leader :=
    match resrename with
    | Some name => set_lr_resource_name name leader
    | None => leader
    end in
  let leader := set_lr_timestamp LEASE_FREE leader in
  let leader :=
    set_lr_writer (host_id token) (host_generation token) now leader in
  let leader :=
    set_lr_flags (Z.land (lr_flags leader) (Z.lnot LFL_SHORT_HOLD)) leader in
  set_lr_checksum 0 leader.

(** [paxos_lease_release]: the result and the caller's [leader_ret].
    [leader_last] is [None] for a NULL pointer, [resrename] likewise. *)
Definition paxos_lease_release (resrename : option string)
    (leader_last : option leader_record) (leader_ret : leader_record)
  : M (Z * leader_record) :=
  token <- get_token ;;
  r <- paxos_lease_leader_read zero_leader ;;
  let '(error, leader) := r in
  if error <? 0 then ret (error, leader_ret)
  else
    let last := default leader leader_last in
    match release_checks token leader last with
    | Some rv => ret (rv, leader_ret)
    | None =>
        now <- monotime ;;
        r <- write_new_leader (released_leader token resrename now leader) ;;
        let '(error, leader) := r in
        if error <? 0 then ret (error, leader_ret)
        else ret (error, leader)
    end.

(** ** paxos_lease_init *)

(** The write loop of [paxos_lease_init]: the whole zeroed lease area with
    the new leader to each disk, stopping at the first write that fails. *)
Fixpoint init_write_loop (ds : list nat) (leader : leader_record) : M Z :=
  match ds with
  | [] => ret 0
  | d :: ds' =>
      rv <- io_result ;;
      emit (EvWriteArea d rv) ;;;
      (if rv <? 0 then ret tt else put_area d (mk_area leader ∅)) ;;;
      if rv <? 0 then ret rv else init_write_loop ds' leader
  end.

(** [paxos_lease_init]: [sector_size], [num_hosts] and [max_hosts] are
    [int]s; the leader's fields they are stored in are unsigned, of 32,
    64 and 64 bits. *)
Definition paxos_lease_init (num_hosts : Z) (write_clear : bool) : M Z :=
  token <- get_token ;;
  let '(rv, (sector_size, align_size, max_hosts)) :=
    sizes_from_flags (r_flags token) in
  if negb (rv =? 0) then ret rv
  else
    let '(sector_size, align_size, max_hosts) :=
      if sector_size =? 0
      then (disk0_sector_size token,
            sector_size_to_align_size_old (disk0_sector_size token),
            DEFAULT_MAX_HOSTS)
      else (sector_size, align_size, max_hosts) in
    let num_hosts :=
      if (num_hosts =? 0) || (num_hosts >? max_hosts)
      then max_hosts else num_hosts in
    put_token (set_tk_sizes sector_size align_size token) ;;;
    rv <- posix_memalign ;;
    if negb (rv =? 0) then ret rv
    else
      now <- (if write_clear then monotime else ret 0) ;;
      let leader :=
        mk_leader (if write_clear then PAXOS_DISK_CLEAR else PAXOS_DISK_MAGIC)
          (Z.lor PAXOS_DISK_VERSION_MAJOR PAXOS_DISK_VERSION_MINOR)
          (leader_align_flag_from_size align_size) (wrap32 sector_size)
          (wrap64 num_hosts) (wrap64 max_hosts) 0 0 0
          (r_lockspace_name token) (r_name token) LEASE_FREE 0 0 0 now in
      let leader := set_lr_checksum (leader_checksum leader) leader in
      n <- num_disks ;;
      init_write_loop (seq 0 (Z.to_nat n)) leader.

End Lease.

(** ** main.c: killing the clients of a failed lockspace *)

Module Supervisor.

Inductive signal := SIGTERM | SIGKILL.

(** The fields of [struct client] that [kill_pids] reads; a token is
    represented by the name of its lockspace, an empty slot by [None]. *)
Record client := mk_client {
  used : bool;
  pid : Z;
  killing : Z;
  tokens : list (option string)
}.

Record space := mk_space {
  space_name : string;
  killing_pids : Z
}.

(** What a round does to the outside, in program order. *)
Inductive action :=
| Kill (p : Z) (sig : signal)
| Usleep (us : Z)
| LogStuck (p : Z).

Definition client_using_space (cl : client) (sp : space) : bool :=
  existsb (fun t => match t with
                    | Some name => String.eqb name (space_name sp)
                    | None => false
                    end) (tokens cl).

(** A client the signal loops consider: in use, with a pid, and holding a
    token of the lockspace. *)
Definition targeted (cl : client) (sp : space) : bool :=
  used cl && negb (pid cl =? 0) && client_using_space cl sp.

(** The two signal loops of [kill_pids] differ in the signal sent and in
    the value of [cl->killing] above which a client is passed over
    (1 for SIGTERM, 2 for SIGKILL). *)
Fixpoint signal_loop (sp : space) (limit : Z) (sig : signal)
    (cls : list client) (found : Z) : list client * list action * Z :=
  match cls with
  | [] => ([], [], found)
  | cl :: cls' =>
      if negb (used cl) || (pid cl =? 0) || negb (client_using_space cl sp)
         || (killing cl >? limit)
      then
        let '(cls'', acts, found) := signal_loop sp limit sig cls' found in
        (cl :: cls'', acts, found)
      else
        let '(cls'', acts, found) :=
          signal_loop sp limit sig cls' (found + 1) in
        (mk_client (used cl) (pid cl) (killing cl + 1) (tokens cl) :: cls'',
         Kill (pid cl) sig :: acts, found)
  end.

(** The loop at [do_dump:]. *)
Definition dump_loop (cls : list client) : list action :=
  flat_map (fun cl =>
              if negb (pid cl =? 0) && negb (killing cl =? 0)
              then [LogStuck (pid cl)] else []) cls.

Definition kill_pids (cls : list client) (sp : space)
  : list client * space * list action :=
  let sp' := mk_space (space_name sp) (killing_pids sp + 1) in
  if killing_pids sp >? 11 then (cls, sp, [])
  else if killing_pids sp >? 10 then (cls, sp', dump_loop cls)
  else
    let '(cls', acts, found) :=
      if killing_pids sp >? 1 then signal_loop sp 2 SIGKILL cls 0
      else signal_loop sp 1 SIGTERM cls 0 in
    (cls', sp', acts ++ (if found =? 0 then [] else [Usleep 500000])).

Definition all_pids_dead (cls : list client) (sp : space) : bool :=
  negb (existsb (fun cl => targeted cl sp) cls).

(** What [main_loop] does with one lockspace in one pass; [failed] stands
    for [external_shutdown || sp->external_remove || !host_id_renewed(sp)].
    The lockspace is [None] once it has been moved to [spaces_remove]. *)
Definition space_tick (failed : bool) (cls : list client) (sp : space)
  : list client * option space * list action :=
  if negb (killing_pids sp =? 0) then
    if all_pids_dead cls sp then (cls, None, [])
    else let '(cls', sp', acts) := kill_pids cls sp in (cls', Some sp', acts)
  else if failed then
    let '(cls', sp', acts) := kill_pids cls (mk_space (space_name sp) 1) in
    (cls', Some sp', acts)
  else (cls, Some sp, []).

(** [n] passes of [main_loop] over a lockspace whose clients do not exit:
    the actions of each pass, oldest first, and the state after them. *)
Fixpoint ticks (n : nat) (failed : bool) (cls : list client) (sp : space)
  : list (list action) * list client * option space :=
  match n with
  | O => ([], cls, Some sp)
  | S n' =>
      match space_tick failed cls sp with
      | (cls', Some sp', acts) =>
          let '(rest, cls'', sp'') := ticks n' failed cls' sp' in
          (acts :: rest, cls'', sp'')
      | (cls', None, acts) => ([acts], cls', None)
      end
  end.

(** *** What a round amounts to *)

(** A client that a signal loop with the given limit signals. *)
Definition signalled (sp : space) (limit : Z) (cl : client) : bool :=
  targeted cl sp && negb (killing cl >? limit).

(** [cl->killing++]. *)
Definition bump (cl : client) : client :=
  mk_client (used cl) (pid cl) (killing cl + 1) (tokens cl).

(** A round that signals: every signalled client is sent [sig] and has
    its count bumped; the supervisor pauses if any was. *)
Definition signal_round (sp : space) (limit : Z) (sig : signal)
    (cls : list client) : list client * list action :=
  (map (fun cl => if signalled sp limit cl then bump cl else cl) cls,
   map (fun cl => Kill (pid cl) sig) (List.filter (signalled sp limit) cls)
   ++ (if existsb (signalled sp limit) cls then [Usleep 500000] else [])).

Definition next_round (sp : space) : space :=
  mk_space (space_name sp) (killing_pids sp + 1).

(** The rounds the specification describes: SIGTERM twice, then
    SIGKILL. *)
Definition rounds_as_specified (p : Z) : list (list action) :=
  [[Kill p SIGTERM; Usleep 500000]; [Kill p SIGTERM; Usleep 500000];
   [Kill p SIGKILL; Usleep 500000]].

End Supervisor.

(** ** What the phase 1 read loop looks for *)

Section Phase1Spec.
Context `{Consts}.

(** A dblock the read loops take into account: its checksum verifies and
    its lver is not older than ours. *)
Definition considered (dblock bk : paxos_dblock) : bool :=
  negb (verify_dblock bk (dblock_checksum bk) <? 0)
  && negb (pd_lver bk <? pd_lver dblock).

(** A dblock that ends the ballot: taken into account, and with a larger
    lver or, at our lver, a larger mbal. *)
Definition contender (dblock bk : paxos_dblock) : bool :=
  considered dblock bk
  && ((pd_lver bk >? pd_lver dblock) || (pd_mbal bk >? pd_mbal dblock)).

(** The abort it causes. *)
Definition abort_code (dblock bk : paxos_dblock) : Z :=
  if pd_lver bk >? pd_lver dblock then SANLK_DBLOCK_LVER
  else SANLK_DBLOCK_MBAL.

(** A dblock that carries a proposal: taken into account, with an inp and
    a bal. *)
Definition proposal (dblock bk : paxos_dblock) : bool :=
  considered dblock bk && negb (pd_inp bk =? 0) && negb (pd_bal bk =? 0).

(** Keeping the proposal with the largest bal, the first one among
    equals. *)
Definition track (dblock : paxos_dblock) (best : paxos_dblock * Z)
    (qb : Z * paxos_dblock) : paxos_dblock * Z :=
  if proposal dblock qb.2 && (pd_bal qb.2 >? pd_bal best.1)
  then (qb.2, qb.1) else best.

End Phase1Spec.

(** ** Reading the replies ahead *)

(** The results of the next [n] read or write calls. *)
Fixpoint io_results (n : nat) (io : list Z) : list Z :=
  match n with
  | O => []
  | S n' => hd 0 io :: io_results n' (tl io)
  end.

(** The first of them that is a failure. *)
Definition first_failure (rvs : list Z) : option Z :=
  List.find (fun rv => rv <? 0) rvs.

(** How many of them are successes. *)
Definition successes (rvs : list Z) : Z :=
  Z.of_nat (length (List.filter (fun rv => negb (rv <? 0)) rvs)).

(** ** A sample assignment of the constants

    It is used to run the model on concrete inputs.  The result codes are
    negative and pairwise different, the flag bits are single bits, the
    checksums are sums of the fields they cover, and a majority is more
    than half of the disks. *)

Definition sample_leader_checksum (l : leader_record) : Z :=
  wrap32 (lr_magic l + lr_version l + lr_flags l + lr_sector_size l
          + lr_num_hosts l + lr_max_hosts l + lr_owner_id l
          + lr_owner_generation l + lr_lver l
          + Z.of_nat (String.length (lr_space_name l))
          + Z.of_nat (String.length (lr_resource_name l))
          + lr_timestamp l + 1).

Definition sample_dblock_checksum (pd : paxos_dblock) : Z :=
  wrap32 (pd_mbal pd + pd_bal pd + pd_inp pd + pd_inp2 pd + pd_inp3 pd
          + pd_lver pd + 1).

(** Leaders match when they agree on the fields from magic to
    resource_name, which is where [memcmp] over LEADER_COMPARE_LEN
    bytes of the record ends; the timestamp and the checksum and writer
    fields after it are not compared. *)
Definition sample_leaders_match (a b : leader_record) : bool :=
  bool_decide
    ((lr_magic a, lr_version a, lr_flags a, lr_sector_size a, lr_num_hosts a,
      lr_max_hosts a, lr_owner_id a, lr_owner_generation a, lr_lver a,
      lr_space_name a, lr_resource_name a)
     = (lr_magic b, lr_version b, lr_flags b, lr_sector_size b, lr_num_hosts b,
        lr_max_hosts b, lr_owner_id b, lr_owner_generation b, lr_lver b,
        lr_space_name b, lr_resource_name b)).

Definition sample_align_size (sector_size : Z) : Z :=
  if sector_size =? 512 then 1048576
  else if sector_size =? 4096 then 8388608 else 0.

Definition sample_consts : Consts := {|
  SANLK_OK := 1;
  SANLK_AIO_TIMEOUT := -202;
  SANLK_DBLOCK_READ := -210;
  SANLK_DBLOCK_WRITE := -211;
  SANLK_DBLOCK_LVER := -212;
  SANLK_DBLOCK_MBAL := -213;
  SANLK_DBLOCK_CHECKSUM := -214;
  SANLK_LEADER_READ := -220;
  SANLK_LEADER_WRITE := -221;
  SANLK_LEADER_DIFF := -222;
  SANLK_LEADER_MAGIC := -223;
  SANLK_LEADER_VERSION := -224;
  SANLK_LEADER_LOCKSPACE := -226;
  SANLK_LEADER_RESOURCE := -227;
  SANLK_LEADER_NUMHOSTS := -228;
  SANLK_LEADER_CHECKSUM := -229;
  SANLK_ACQUIRE_LVER := -240;
  SANLK_ACQUIRE_LOCKSPACE := -241;
  SANLK_ACQUIRE_IDDISK := -242;
  SANLK_ACQUIRE_IDLIVE := -243;
  SANLK_ACQUIRE_OWNED := -244;
  SANLK_ACQUIRE_OTHER := -245;
  SANLK_ACQUIRE_OWNED_RETRY := -247;
  SANLK_RELEASE_LVER := -250;
  SANLK_RELEASE_OWNER := -251;
  EINVAL := 22;
  ENOMEM := 12;
  PAXOS_DISK_MAGIC := 0x06152010;
  PAXOS_DISK_CLEAR := 0x11282016;
  PAXOS_DISK_VERSION_MAJOR := 0x00060000;
  PAXOS_DISK_VERSION_MINOR := 0x00000003;
  DEFAULT_MAX_HOSTS := 2000;
  T_RETRACT_PAXOS := 0x40;
  T_WRITE_DBLOCK_MBLOCK_SH := 0x80;
  PAXOS_ACQUIRE_FORCE := 0x1;
  PAXOS_ACQUIRE_SHARED := 0x4;
  PAXOS_ACQUIRE_OWNER_NOWAIT := 0x8;
  LFL_SHORT_HOLD := 0x1;
  DBLOCK_FL_RELEASED := 0x1;
  MBLOCK_SHARED := 0x1;
  leader_checksum := sample_leader_checksum;
  dblock_checksum := sample_dblock_checksum;
  leaders_match := sample_leaders_match;
  majority_disks := fun num_disks num => num_disks <? 2 * num;
  leader_align_size_from_flag := fun _ => 0;
  leader_align_flag_from_size := fun _ => 0;
  sector_size_to_align_size_old := sample_align_size;
  sizes_from_flags := fun _ => (0, (0, 0, 0));
  calc_host_dead_seconds := fun io_timeout => 8 * io_timeout
|}.

(** ** Notions used in the statements and proofs *)

(** A computation [keeps R] when every run of it takes a world to one
    related to it by [R]; with [R] reflexive and transitive this is
    closed under [ret] and [bind]. *)
Definition keeps (R : world -> world -> Prop) {A} (m : M A) : Prop :=
  forall w, R w (snd (m w)).

(** A frame relation: reflexive, transitive, and kept by every primitive
    of the world other than [put_token] and [put_area]. *)
Class Frame (R : world -> world -> Prop) : Prop := {
  frame_refl :: Reflexive R;
  frame_trans :: Transitive R;
  frame_emit e : keeps R (emit e);
  frame_io_result : keeps R io_result;
  frame_posix_memalign : keeps R posix_memalign;
  frame_monotime : keeps R monotime;
  frame_get_rand : keeps R get_rand;
  frame_put_ls e : keeps R (put_ls e)
}.

(** One that is also kept by writes to the disks. *)
Class WriteFrame (R : world -> world -> Prop) : Prop := {
  write_frame :: Frame R;
  frame_put_area d a : keeps R (put_area d a)
}.

(** The token is the same. *)
Definition same_token (w w' : world) : Prop := w_token w' = w_token w.

(** The disks are the same. *)
Definition same_disks (w w' : world) : Prop := w_disks w' = w_disks w.

(** The trace has only grown. *)
Definition trace_grows (w w' : world) : Prop :=
  exists t, w_trace w' = t ++ w_trace w.

(** The world with the token's retract flag set. *)
Definition retracted `{Consts} (w : world) : world :=
  mk_world (set_tk_flags (Z.lor (tk_flags (w_token w)) T_RETRACT_PAXOS)
              (w_token w))
    (w_disks w) (w_io w) (w_alloc w) (w_clock w) (w_rand w) (w_ls w)
    (w_trace w).

(** A leader with its checksum filled in, as [write_leader] leaves it in
    memory and on disk. *)
Definition seal `{Consts} (l : leader_record) : leader_record :=
  set_lr_checksum (leader_checksum l) l.

(** The leader on disk [d]. *)
Definition disk_leader (w : world) (d : nat) : leader_record :=
  la_leader (default zero_area (w_disks w !! d)).

(** A run of [m] from [w] issues the call [e], with some result: the
    event is in what the run has added to the trace. *)
Definition issues (e : Z -> event) {A} (m : M A) (w : world) : Prop :=
  exists t t0 rv, w_trace (m w).2 = t ++ e rv :: t0 ++ w_trace w.

(** ** Sample inputs *)

(** A dblock with fields but a wrong checksum. *)
Definition bad_sum_dblock : paxos_dblock := mk_dblock 7 0 0 0 0 3 99 0.

(** Host 1, generation 1, of lockspace LS, holding a token for the
    resource RES on 512-byte sectors. *)
Definition token_host1 : token :=
  mk_token 1 1 0 512 1048576 "LS" "RES" 0 512.

(** A free leader of RES for 8 of at most 2000 hosts, checksummed with
    the sample checksum. *)
Definition free_leader : leader_record :=
  set_lr_checksum
    (sample_leader_checksum
       (mk_leader 0x06152010 0x00060003 0 512 8 2000 0 0 0 "LS" "RES" 0 0 0 0 0))
    (mk_leader 0x06152010 0x00060003 0 512 8 2000 0 0 0 "LS" "RES" 0 0 0 0 0).

Definition quiet_lockspace : lockspace_env := mk_ls_env 0 0 [] [] [].

(** One disk with a freshly initialised lease area; every call succeeds. *)
Definition world_host1 : world :=
  mk_world token_host1 [mk_area free_leader ∅] [] [] [] [] quiet_lockspace [].

(** The variables of an acquire that saw max_mbal 14002. *)
Definition vars_mbal_14002 : acq_vars :=
  mk_av free_leader 14002 zero_dblock false zero_leader zero_dblock.

(** A dblock of host 2 for lver 1 with mbal 2002 and nothing accepted,
    checksummed with the sample checksum. *)
Definition host2_prepare : paxos_dblock :=
  set_pd_checksum (sample_dblock_checksum (mk_dblock 2002 0 0 0 0 1 0 0))
    (mk_dblock 2002 0 0 0 0 1 0 0).

(** Three disks; host 2's dblock has reached only the first of them, and
    the first read of that disk (the fourth call, after the three writes
    of phase 1) fails. *)
Definition world_three_disks : world :=
  mk_world token_host1
    [mk_area free_leader {[ 1 := mk_sector host2_prepare zero_mblock ]};
     mk_area free_leader ∅; mk_area free_leader ∅]
    [0; 0; 0; -5] [] [100] [] quiet_lockspace [].

(** One disk whose second call, the read, fails. *)
Definition world_read_fails : world :=
  mk_world token_host1 [mk_area free_leader ∅] [0; -5] [] [] []
    quiet_lockspace [].

(** Host 1's dblock when it enters phase 2 of the ballot for lver 1 with
    mbal 1 and its own inp values. *)
Definition host1_accept : paxos_dblock := mk_dblock 1 1 1 1 100 1 0 0.

(** A leader with its sample checksum filled in. *)
Definition sealed (l : leader_record) : leader_record :=
  set_lr_checksum (sample_leader_checksum l) l.

(** Leaders of RES at lver 1, all written by host 1: held by host 1,
    already freed by host 1, and held by host 2. *)
Definition leader_held : leader_record :=
  sealed (mk_leader 0x06152010 0x00060003 0 512 8 2000 1 1 1 "LS" "RES"
            100 0 1 1 101).
Definition leader_freed : leader_record :=
  sealed (mk_leader 0x06152010 0x00060003 0 512 8 2000 1 1 1 "LS" "RES"
            0 0 1 1 101).
Definition leader_of_host2 : leader_record :=
  sealed (mk_leader 0x06152010 0x00060003 0 512 8 2000 2 1 1 "LS" "RES"
            100 0 1 1 101).

(** One disk holding the given leader and no dblocks; host 1's token;
    every call succeeds. *)
Definition world_with_leader (l : leader_record) : world :=
  mk_world token_host1 [mk_area l ∅] [] [] [] [] quiet_lockspace [].

(** One disk whose leader host 1 holds, no dblocks, host 1's token and a
    clock at 200; every call succeeds. *)
Definition world_held_by_host1 : world :=
  mk_world token_host1 [mk_area leader_held ∅] [] [] [200; 201; 202] []
    quiet_lockspace [].

(** Three blank disks for RES; the write to the second one fails. *)
Definition world_second_write_fails : world :=
  mk_world token_host1 [zero_area; zero_area; zero_area] [0; -5; 0] [] [] []
    quiet_lockspace [].

(** One disk with a free leader on which host 2 has already prepared
    lver 1 with mbal 2002; [get_rand] will return 500000. *)
Definition world_host2_ahead : world :=
  mk_world token_host1
    [mk_area free_leader {[ 1 := mk_sector host2_prepare zero_mblock ]}]
    [] [] [100] [500000] quiet_lockspace [].

(** The variables of an acquire that has just read the free leader. *)
Definition vars_free : acq_vars :=
  mk_av free_leader 0 zero_dblock false zero_leader zero_dblock.

(** Host 1's dblock in phase 1 of a ballot for lver 2 with mbal 1. *)
Definition host1_prepare_lver2 : paxos_dblock := mk_dblock 1 0 0 0 0 2 0 0.

(** Dblocks as read in phase 1 of that ballot: host 2's from lver 1 with
    mbal 2002, and proposals of hosts 3 and 4 for lver 2 with bal 0 (none
    yet) and bal 1, the latter carrying host 4's inp. *)
Definition sample_blocks : list (Z * paxos_dblock) :=
  [(1, host2_prepare);
   (2, set_pd_checksum 4 (mk_dblock 1 0 0 0 0 2 0 0));
   (3, set_pd_checksum 110 (mk_dblock 1 1 4 1 100 2 0 0))].

(** The same with a dblock of host 5 for lver 2 and mbal 5 at the end. *)
Definition sample_blocks_contended : list (Z * paxos_dblock) :=
  sample_blocks ++ [(4, set_pd_checksum 8 (mk_dblock 5 0 0 0 0 2 0 0))].

(** A client with pid 4321 holding a token of lockspace LS, not signalled
    so far, and the lockspace before its renewal fails. *)
Definition client_4321 : Supervisor.client :=
  Supervisor.mk_client true 4321 0 [None; Some "LS"].
Definition space_LS : Supervisor.space := Supervisor.mk_space "LS" 0.

(** ** More notions for the statements *)

(** The dblock sector of slot [q] on disk [d]. *)
Definition disk_sector (w : world) (d : nat) (q : Z) : sector :=
  area_sector (default zero_area (w_disks w !! d)) q.

(** The host is the same: its host_id and its generation. *)
Definition same_host (w w' : world) : Prop :=
  host_id (w_token w') = host_id (w_token w)
  /\ host_generation (w_token w') = host_generation (w_token w).

(** The leaders on the disks are the same. *)
Definition same_leaders (w w' : world) : Prop :=
  length (w_disks w') = length (w_disks w)
  /\ forall d, disk_leader w' d = disk_leader w d.

(** The dblock sectors on the disks are the same. *)
Definition same_sectors (w w' : world) : Prop :=
  length (w_disks w') = length (w_disks w)
  /\ forall d q, disk_sector w' d q = disk_sector w d q.

(** The host is the same, and so are the dblock sectors of all other
    hosts. *)
Definition others_sectors_kept (w w' : world) : Prop :=
  same_host w w'
  /\ length (w_disks w') = length (w_disks w)
  /\ forall d q, q <> host_id (w_token w) - 1 ->
       disk_sector w' d q = disk_sector w d q.

(** [m] keeps [R] on the worlds that satisfy [P]. *)
Definition keeps_when (P : world -> Prop) (R : world -> world -> Prop)
    {A} (m : M A) : Prop :=
  forall w, P w -> R w (m w).2.

(** ** paxos_lease.c: erasing a dblock *)

Section LeaseMore.
Context `{Consts}.

(** The write loop of [paxos_erase_dblock]; [dblock_end] is the zeroed
    dblock, whose checksum field each [write_dblock] fills in, and
    [error] the result of the last write that failed. *)
Fixpoint erase_write_loop (ds : list nat) (hid : Z)
    (dblock_end : paxos_dblock) (num_writes error : Z) : M (Z * Z) :=
  match ds with
  | [] => ret (num_writes, error)
  | d :: ds' =>
      r <- write_dblock d hid dblock_end ;;
      let '(rv, dblock_end) := r in
      if rv <? 0 then erase_write_loop ds' hid dblock_end num_writes rv
      else erase_write_loop ds' hid dblock_end (num_writes + 1) error
  end.

Definition paxos_erase_dblock (hid : Z) : M Z :=
  n <- num_disks ;;
  r <- erase_write_loop (seq 0 (Z.to_nat n)) hid zero_dblock 0 (-1) ;;
  let '(num_writes, error) := r in
  if negb (majority_disks n num_writes) then ret error else ret SANLK_OK.

(** The results of [n] calls of [write_dblock] in a row, from the
    replies the world holds: a plain write returns the next I/O result;
    a write with a mode block returns -EINVAL before anything else when
    the token has no sector size, -ENOMEM when the next allocation
    fails, using up no I/O result, and the next I/O result otherwise. *)
Fixpoint dblock_write_results (token : token) (n : nat) (alloc io : list Z)
  : list Z :=
  match n with
  | O => []
  | S n' =>
      if flag_set (tk_flags token) T_WRITE_DBLOCK_MBLOCK_SH
      then
        if tk_sector_size token =? 0
        then - EINVAL :: dblock_write_results token n' alloc io
        else if negb (hd 0 alloc =? 0)
        then - ENOMEM :: dblock_write_results token n' (tl alloc) io
        else hd 0 io :: dblock_write_results token n' (tl alloc) (tl io)
      else hd 0 io :: dblock_write_results token n' alloc (tl io)
  end.

(** The sector size and the max_hosts that [paxos_lease_init] works
    with: those of the token's flags or, when the flags name no sector
    size, the sector size of the first disk and DEFAULT_MAX_HOSTS. *)
Definition init_sector_size (token : token) : Z :=
  let sizes := (sizes_from_flags (r_flags token)).2 in
  if sizes.1.1 =? 0 then disk0_sector_size token else sizes.1.1.

Definition init_max_hosts (token : token) : Z :=
  let sizes := (sizes_from_flags (r_flags token)).2 in
  if sizes.1.1 =? 0 then DEFAULT_MAX_HOSTS else sizes.2.

(** The num_hosts it settles on, an [int]. *)
Definition init_num_hosts (token : token) (num_hosts : Z) : Z :=
  if (num_hosts =? 0) || (num_hosts >? init_max_hosts token)
  then init_max_hosts token else num_hosts.

(** A lease that reads as free, carries the names of [token] and the
    sizes of the init, each [int] as the unsigned field holds it. *)
Definition fresh_leader (token : token) (num_hosts : Z) (write_clear : bool)
    (l : leader_record) : Prop :=
  lr_magic l = (if write_clear then PAXOS_DISK_CLEAR else PAXOS_DISK_MAGIC)
  /\ lr_version l = Z.lor PAXOS_DISK_VERSION_MAJOR PAXOS_DISK_VERSION_MINOR
  /\ lr_timestamp l = LEASE_FREE
  /\ lr_owner_id l = 0 /\ lr_owner_generation l = 0 /\ lr_lver l = 0
  /\ lr_space_name l = r_lockspace_name token
  /\ lr_resource_name l = r_name token
  /\ lr_sector_size l = wrap32 (init_sector_size token)
  /\ lr_max_hosts l = wrap64 (init_max_hosts token)
  /\ lr_num_hosts l = wrap64 (init_num_hosts token num_hosts)
  /\ lr_checksum l = leader_checksum l.

(** The results with which [paxos_lease_acquire] gives up are not the
    success code. *)
Definition acquire_codes_fail : Prop :=
  Forall (fun code => code <> SANLK_OK)
    [SANLK_ACQUIRE_LVER; SANLK_ACQUIRE_LOCKSPACE; SANLK_ACQUIRE_IDDISK;
     SANLK_ACQUIRE_IDLIVE; SANLK_ACQUIRE_OWNED; SANLK_ACQUIRE_OTHER;
     SANLK_ACQUIRE_OWNED_RETRY].

(** The dblock checksum does not cover the checksum field itself. *)
Definition dblock_checksum_skips_field : Prop :=
  forall c pd, dblock_checksum (set_pd_checksum c pd) = dblock_checksum pd.

End LeaseMore.

(** A dblock with nothing in it but, possibly, a checksum. *)
Definition erased (pd : paxos_dblock) : Prop :=
  pd_mbal pd = 0 /\ pd_bal pd = 0 /\ pd_inp pd = 0 /\ pd_inp2 pd = 0
  /\ pd_inp3 pd = 0 /\ pd_lver pd = 0 /\ pd_flags pd = 0.

(** The last of the results that is a failure, or [error] if none is. *)
Definition last_failure (rvs : list Z) (error : Z) : Z :=
  fold_left (fun e rv => if rv <? 0 then rv else e) rvs error.

(** ** main.c: the client table *)

(** The daemon keeps its connections in the array [client], with one
    [struct pollfd] per entry in [pollfd]; [client_maxi] is the largest
    index that was ever taken.  The model covers the runs in which
    [malloc] and [realloc] succeed (after a failure the code goes on to
    write through the pointer it did not get) and leaves out the mutex
    and [owner_name].  Constants of headers that are not at hand are
    variables of the section. *)
Module Daemon.

(** A [workfn] or [deadfn]: [client_dead] itself, or another function. *)
Inductive fn := ClientDeadFn | Fn (name : string).

(** [struct client]; a token is represented by the name of its
    lockspace, a NULL pointer by [None]. *)
Record client := mk_client {
  used : bool;
  fd : Z;
  pid : Z;
  cmd_active : Z;
  acquire_done : Z;
  pid_dead : Z;
  killing : Z;
  workfn : option fn;
  deadfn : option fn;
  tokens : list (option string)
}.

(** The [events] of a [struct pollfd]: not written since the allocation,
    0, or POLLIN. *)
Inductive poll_events := EventsUnset | EventsNone | POLLIN.

Record pollfd_entry := mk_pollfd {
  p_fd : Z;
  p_events : poll_events;
  p_revents : Z
}.

(** The arrays [client] and [pollfd] (both of [client_size] entries) and
    [client_maxi]. *)
Record table := mk_table {
  clients : list client;
  pollfd : list pollfd_entry;
  client_maxi : Z
}.

(** What a function does to the outside, in program order. *)
Inductive effect :=
| Close (fd : Z)
| KillPid (pid : Z) (sig : Supervisor.signal)
| ReleaseTokenAsync (space : string).

Definition CLIENT_NALLOC : nat := 32.

(** The table before the first [client_alloc]. *)
Definition no_table : table := mk_table [] [] 0.

Definition client_size (t : table) : Z := Z.of_nat (length (clients t)).

Section Table.
Context (SANLK_MAX_RESOURCES : nat) (SM_CMD_ACQUIRE EBUSY : Z).

(** An entry after [memset] and [fd = -1]. *)
Definition zero_client : client :=
  mk_client false (-1) 0 0 0 0 0 None None (replicate SANLK_MAX_RESOURCES None).

(** [client[ci]]; the index is taken to be within the array. *)
Definition client_at (t : table) (ci : nat) : client :=
  default zero_client (clients t !! ci).

Definition client_alloc (t : table) : table :=
  mk_table (clients t ++ replicate CLIENT_NALLOC zero_client)
    (pollfd t ++ replicate CLIENT_NALLOC (mk_pollfd (-1) EventsUnset 0))
    (client_maxi t).

Definition client_ignore (ci : nat) (t : table) : table :=
  mk_table (clients t)
    (alter (fun p => mk_pollfd (-1) EventsNone (p_revents p)) ci (pollfd t))
    (client_maxi t).

Definition client_back (ci : nat) (fd : Z) (t : table) : table :=
  mk_table (clients t)
    (alter (fun p => mk_pollfd fd POLLIN (p_revents p)) ci (pollfd t))
    (client_maxi t).

Definition client_dead (ci : nat) (t : table) : list effect * table :=
  ([Close (fd (client_at t ci))],
   mk_table (<[ci := zero_client]> (clients t))
     (alter (fun p => mk_pollfd (-1) EventsNone (p_revents p)) ci (pollfd t))
     (client_maxi t)).

(** The [for] loop of [client_add]: the first entry not in use. *)
Fixpoint find_unused (cls : list client) (i : nat) : option nat :=
  match cls with
  | [] => None
  | c :: cls' => if negb (used c) then Some i else find_unused cls' (S i)
  end.

(** What [client_add] does with the entry it has found. *)
Definition take_entry (i : nat) (fd : Z) (workfn deadfn : option fn)
    (t : table) : table :=
  mk_table
    (alter (fun c =>
              mk_client true fd (pid c) (cmd_active c) (acquire_done c)
                (pid_dead c) (killing c) workfn
                (Some (default ClientDeadFn deadfn)) (tokens c))
       i (clients t))
    (alter (fun p => mk_pollfd fd POLLIN (p_revents p)) i (pollfd t))
    (if Z.of_nat i >? client_maxi t then Z.of_nat i else client_maxi t).

(** From the label [again:], for at most [fuel] more jumps to it. *)
Fixpoint client_add_again (fuel : nat) (fd : Z) (workfn deadfn : option fn)
    (t : table) : option (Z * table) :=
  match find_unused (clients t) 0 with
  | Some i => Some (Z.of_nat i, take_entry i fd workfn deadfn t)
  | None =>
      match fuel with
      | O => None
      | S fuel' => client_add_again fuel' fd workfn deadfn (client_alloc t)
      end
  end.

Definition client_add (fuel : nat) (fd : Z) (workfn deadfn : option fn)
    (t : table) : option (Z * table) :=
  client_add_again fuel fd workfn deadfn
    (match clients t with [] => client_alloc t | _ => t end).

Fixpoint find_pid_from (p : Z) (cls : list client) (i : Z) : Z :=
  match cls with
  | [] => -1
  | c :: cls' =>
      if used c && (pid c =? p) then i else find_pid_from p cls' (i + 1)
  end.

Definition find_client_pid (p : Z) (t : table) : Z :=
  find_pid_from p (clients t) 0.

Definition client_pid_dead (ci : nat) (t : table) : list effect * table :=
  let cl := client_at t ci in
  let p := pid cl in
  let cl' :=
    mk_client (used cl) (fd cl) (-1) (cmd_active cl) (acquire_done cl) 1
      (killing cl) (workfn cl) (deadfn cl) (tokens cl) in
  let delay_release :=
    (cmd_active cl =? SM_CMD_ACQUIRE) && (acquire_done cl =? 0) in
  let t' := mk_table (<[ci := cl']> (clients t)) (pollfd t) (client_maxi t) in
  let killed := if p >? 0 then [KillPid p Supervisor.SIGKILL] else [] in
  if delay_release then (killed, t')
  else
    let released :=
      flat_map (fun tok => match tok with
                           | Some name => [ReleaseTokenAsync name]
                           | None => []
                           end) (tokens cl') in
    let '(closed, t'') := client_dead ci t' in
    (killed ++ released ++ closed, t'').

Definition set_cmd_active (ci_target : nat) (cmd : Z) (t : table) : Z * table :=
  let cl := client_at t ci_target in
  let cmd_active0 := cmd_active cl in
  let new_active :=
    if cmd =? 0 then 0
    else if cmd_active cl =? 0 then cmd else cmd_active cl in
  let t' :=
    mk_table
      (<[ci_target :=
           mk_client (used cl) (fd cl) (pid cl) new_active (acquire_done cl)
             (pid_dead cl) (killing cl) (workfn cl) (deadfn cl) (tokens cl)]>
         (clients t))
      (pollfd t) (client_maxi t) in
  if negb (cmd =? 0) && negb (cmd_active0 =? 0) then (- EBUSY, t')
  else (0, t').

End Table.

(** The entry [client_add] takes: the first one not in use, or the first
    of a new block when all are in use. *)
Definition entry_taken (t : table) : nat :=
  default (length (clients t)) (find_unused (clients t) 0).

(** The part of an entry that [kill_pids] and [all_pids_dead] read. *)
Definition seen_by_supervisor (c : client) : Supervisor.client :=
  Supervisor.mk_client (used c) (pid c) (killing c) (tokens c).

(** The entries [0 .. client_maxi], over which their loops run. *)
Definition scanned (t : table) : list Supervisor.client :=
  map seen_by_supervisor (take (Z.to_nat (client_maxi t + 1)) (clients t)).

(** The two arrays are of one size, [client_maxi] is an index of theirs
    (0 before they are allocated), and no entry past it is in use. *)
Definition table_ok (t : table) : Prop :=
  length (pollfd t) = length (clients t)
  /\ 0 <= client_maxi t < Z.max 1 (client_size t)
  /\ forall i c, clients t !! i = Some c -> used c = true ->
       Z.of_nat i <= client_maxi t.

End Daemon.

(** ** More notions for the supervisor *)

Section SupervisorNotions.
Import Supervisor.

Definition is_kill (a : action) : bool :=
  match a with Kill _ _ => true | _ => false end.

(** How many signals a list of actions sends. *)
Definition kills (acts : list action) : Z :=
  Z.of_nat (length (List.filter is_kill acts)).

(** The killing counts of a client table, added up. *)
Definition sum_killing (cls : list client) : Z :=
  foldr (fun cl s => killing cl + s) 0 cls.

(** [cl'] is the client [cl] after some more signals: nothing but its
    killing count differs, and that has not gone down, nor up past 3. *)
Definition signalled_on (cl cl' : client) : Prop :=
  used cl' = used cl /\ pid cl' = pid cl /\ tokens cl' = tokens cl
  /\ killing cl <= killing cl' <= Z.max (killing cl) 3.

End SupervisorNotions.

(** ** More sample inputs *)

(** The leader of RES at lver 1, owned by host 1 as committed by host 2. *)
Definition leader_written_by_host2 : leader_record :=
  sealed (mk_leader 0x06152010 0x00060003 0 512 8 2000 1 1 1 "LS" "RES"
            100 0 2 1 101).


(** One disk with a freshly initialised lease area, and no memory for
    the first buffer asked for. *)
Definition world_no_memory : world :=
  mk_world token_host1 [mk_area free_leader ∅] [] [12] [] []
    quiet_lockspace [].

(** Three disks that all hold host 1's dblock of its ballot and host
    2's; the write to the second disk fails. *)
Definition world_dblocks_on_three_disks : world :=
  let a := mk_area free_leader
             {[ 0 := mk_sector host1_accept zero_mblock;
                1 := mk_sector host2_prepare zero_mblock ]} in
  mk_world token_host1 [a; a; a] [0; -5; 0] [] [] [] quiet_lockspace [].

(** Three disks whose leader host 1 holds.  A release makes six calls,
    three reads and three writes; the write to the first disk fails. *)
Definition world_held_on_three_disks : world :=
  mk_world token_host1
    [mk_area leader_held ∅; mk_area leader_held ∅; mk_area leader_held ∅]
    [0; 0; 0; -5; 0; 0] [] [200] [] quiet_lockspace [].

(** The dblocks of [sample_blocks] with a proposal of host 5 at the end
    that has the bal of host 4's, 1, and host 5's inp. *)
Definition sample_blocks_tied : list (Z * paxos_dblock) :=
  sample_blocks ++ [(4, set_pd_checksum 111 (mk_dblock 1 1 5 1 100 2 0 0))].

(** The caller's buffers before a lease read. *)
Definition bufs_blank : lease_bufs := mk_bufs zero_leader zero_dblock 0 (-1).

(** A table of one connection on fd 5: the client with pid 4321, which
    holds a token of lockspace LS and has no command active, and the
    same client while an acquire (command 1 here) is in progress. *)
Definition table_idle : Daemon.table :=
  Daemon.mk_table
    [Daemon.mk_client true 5 4321 0 0 0 0 None (Some Daemon.ClientDeadFn)
       [Some "LS"%string; None]]
    [Daemon.mk_pollfd 5 Daemon.POLLIN 0] 0.
Definition table_acquiring : Daemon.table :=
  Daemon.mk_table
    [Daemon.mk_client true 5 4321 1 0 0 0 None (Some Daemon.ClientDeadFn)
       [Some "LS"%string; None]]
    [Daemon.mk_pollfd 5 Daemon.POLLIN 0] 0.

(** * Properties *)

Lemma sample_consts_ok : @consts_ok sample_consts.
Proof.
  split; cbn; try lia.
  - apply (bool_decide_unpack _). by vm_compute.
  - repeat constructor; lia.
  - intros c l. reflexivity.
Qed.

Section Properties.
Context `{Consts} (HC : consts_ok).

(** ** Frame conditions *)

Lemma keeps_ret R `{!Reflexive R} {A} (a : A) : keeps R (ret a).
Proof. intros w. cbn. reflexivity. Qed.

Lemma keeps_bind R `{!Transitive R} {A B} (m : M A) (k : A -> M B) :
  keeps R m -> (forall a, keeps R (k a)) -> keeps R (bind m k).
Proof.
  intros Hm Hk w. unfold bind. specialize (Hm w).
  destruct (m w) as [a w1]. cbn in Hm. etrans; [exact Hm|apply Hk].
Qed.

#[local] Instance same_token_frame : Frame same_token.
Proof.
  split; unfold keeps, same_token.
  1: by intros w.
  1: intros a b c Hab Hbc; congruence.
  all: by intros.
Qed.
#[local] Instance same_token_write_frame : WriteFrame same_token.
Proof. split; [tc_solve|]. by intros. Qed.

#[local] Instance same_disks_frame : Frame same_disks.
Proof.
  split; unfold keeps, same_disks.
  1: by intros w.
  1: intros a b c Hab Hbc; congruence.
  all: by intros.
Qed.

#[local] Instance trace_grows_frame : Frame trace_grows.
Proof.
  split; unfold keeps, trace_grows.
  1: intros w; by exists [].
  1: { intros a b c [t1 H1] [t2 H2]. exists (t2 ++ t1).
       by rewrite H2, H1, app_assoc. }
  1: intros e w; by exists [e].
  all: intros; by exists [].
Qed.
#[local] Instance trace_grows_write_frame : WriteFrame trace_grows.
Proof. split; [tc_solve|]. intros d a w. by exists []. Qed.

Lemma put_token_grows t : keeps trace_grows (put_token t).
Proof. intros w. by exists []. Qed.

Create HintDb keeps.

(** Breaks a goal [keeps R m] down along the structure of [m]; what is
    left are the calls of functions that have lemmas of their own. *)
Ltac keeps_step :=
  match goal with
  | |- keeps _ (ret _) => apply keeps_ret; tc_solve
  | |- keeps _ (bind _ _) => apply keeps_bind; [tc_solve| |intros ?]
  | |- keeps _ (if ?b then _ else _) => destruct b
  | |- keeps _ (match ?x with _ => _ end) => destruct x
  | |- keeps _ get_token => intros ?; reflexivity
  | |- keeps _ get_disks => intros ?; reflexivity
  | |- keeps _ get_ls => intros ?; reflexivity
  | |- keeps _ num_disks => intros ?; reflexivity
  | |- keeps _ (disk_area _) => intros ?; reflexivity
  | |- keeps _ (emit _) => apply frame_emit
  | |- keeps _ io_result => apply frame_io_result
  | |- keeps _ posix_memalign => apply frame_posix_memalign
  | |- keeps _ monotime => apply frame_monotime
  | |- keeps _ get_rand => apply frame_get_rand
  | |- keeps _ (put_ls _) => apply frame_put_ls
  | |- keeps _ (put_area _ _) => apply frame_put_area
  | |- keeps trace_grows (put_token _) => apply put_token_grows
  end.
Ltac keeps_auto := repeat (first [keeps_step | by auto with keeps]).

Section ReadFrameLemmas.
Context (R : world -> world -> Prop) `{!Frame R}.

Lemma read_dblock_keeps d hid : keeps R (read_dblock d hid).
Proof. unfold read_dblock. keeps_auto. Qed.
Hint Resolve read_dblock_keeps : keeps.

Lemma read_leader_keeps d : keeps R (read_leader d).
Proof. unfold read_leader. keeps_auto. Qed.
Hint Resolve read_leader_keeps : keeps.

Lemma verify_leader_keeps d lr checksum : keeps R (verify_leader d lr checksum).
Proof. unfold verify_leader, _verify_leader. keeps_auto. Qed.
Hint Resolve verify_leader_keeps : keeps.

Lemma phase1_read_loop_keeps ds num_hosts dblock v :
  keeps R (phase1_read_loop ds num_hosts dblock v).
Proof.
  revert v.
  induction ds as [|d ds IH]; intros; cbn [phase1_read_loop]; keeps_auto.
Qed.

Lemma phase2_read_loop_keeps ds num_hosts dblock iobuf num_reads :
  keeps R (phase2_read_loop ds num_hosts dblock iobuf num_reads).
Proof.
  revert iobuf num_reads.
  induction ds as [|d ds IH]; intros; cbn [phase2_read_loop]; keeps_auto.
Qed.

Lemma ballot_alloc_keeps ds : keeps R (ballot_alloc ds).
Proof. induction ds as [|d ds IH]; cbn [ballot_alloc]; keeps_auto. Qed.

Lemma choose_inp_keeps dblock bk_max : keeps R (choose_inp dblock bk_max).
Proof. unfold choose_inp. keeps_auto. Qed.

Lemma leader_read_one_keeps leader_ret : keeps R (_leader_read_one leader_ret).
Proof. unfold _leader_read_one. keeps_auto. Qed.
Hint Resolve leader_read_one_keeps : keeps.

Lemma leader_read_loop_keeps ds leaders reps num_reads rv :
  keeps R (leader_read_loop ds leaders reps num_reads rv).
Proof.
  revert leaders reps num_reads rv.
  induction ds as [|d ds IH]; intros; cbn [leader_read_loop]; keeps_auto.
Qed.
Hint Resolve leader_read_loop_keeps : keeps.

Lemma leader_read_num_keeps : keeps R _leader_read_num.
Proof. unfold _leader_read_num. keeps_auto. Qed.
Hint Resolve leader_read_num_keeps : keeps.

Lemma paxos_lease_leader_read_keeps leader_ret :
  keeps R (paxos_lease_leader_read leader_ret).
Proof. unfold paxos_lease_leader_read. keeps_auto. Qed.

Lemma lease_read_one_keeps d bufs : keeps R (_lease_read_one d bufs).
Proof. unfold _lease_read_one. keeps_auto. Qed.
Hint Resolve lease_read_one_keeps : keeps.

Lemma lease_read_loop_keeps ds one leaders reps num_reads rv tmp_mbal tmp_q od :
  keeps R (lease_read_loop ds one leaders reps num_reads rv tmp_mbal tmp_q od).
Proof.
  revert one leaders reps num_reads rv tmp_mbal tmp_q od.
  induction ds as [|d ds IH]; intros; cbn [lease_read_loop]; keeps_auto.
Qed.
Hint Resolve lease_read_loop_keeps : keeps.

Lemma lease_read_num_keeps bufs : keeps R (_lease_read_num bufs).
Proof. unfold _lease_read_num. keeps_auto. Qed.
Hint Resolve lease_read_num_keeps : keeps.

Lemma paxos_lease_read_keeps bufs : keeps R (paxos_lease_read bufs).
Proof. unfold paxos_lease_read. keeps_auto. Qed.

End ReadFrameLemmas.

Hint Resolve same_token_frame same_disks_frame trace_grows_frame
  same_token_write_frame trace_grows_write_frame write_frame : keeps.
Hint Resolve read_dblock_keeps read_leader_keeps verify_leader_keeps
  phase1_read_loop_keeps phase2_read_loop_keeps ballot_alloc_keeps
  choose_inp_keeps leader_read_one_keeps leader_read_loop_keeps
  leader_read_num_keeps paxos_lease_leader_read_keeps lease_read_one_keeps
  lease_read_loop_keeps lease_read_num_keeps paxos_lease_read_keeps : keeps.

Section WriteFrameLemmas.
Context (R : world -> world -> Prop) `{!WriteFrame R}.

Lemma write_dblock_mblock_sh_keeps d hid pd :
  keeps R (write_dblock_mblock_sh d hid pd).
Proof. unfold write_dblock_mblock_sh. keeps_auto. Qed.
Hint Resolve write_dblock_mblock_sh_keeps : keeps.

Lemma write_dblock_keeps d hid pd : keeps R (write_dblock d hid pd).
Proof. unfold write_dblock. keeps_auto. Qed.
Hint Resolve write_dblock_keeps : keeps.

Lemma write_leader_keeps d lr : keeps R (write_leader d lr).
Proof. unfold write_leader. keeps_auto. Qed.
Hint Resolve write_leader_keeps : keeps.

Lemma ballot_write_loop_keeps ds dblock num_writes :
  keeps R (ballot_write_loop ds dblock num_writes).
Proof.
  revert dblock num_writes.
  induction ds as [|d ds IH]; intros; cbn [ballot_write_loop]; keeps_auto.
Qed.

Lemma write_leader_loop_keeps ds nl num_writes rv timeout :
  keeps R (write_leader_loop ds nl num_writes rv timeout).
Proof.
  revert nl num_writes rv timeout.
  induction ds as [|d ds IH]; intros; cbn [write_leader_loop]; keeps_auto.
Qed.
Hint Resolve write_leader_loop_keeps : keeps.

Lemma write_new_leader_keeps nl : keeps R (write_new_leader nl).
Proof. unfold write_new_leader. keeps_auto. Qed.

End WriteFrameLemmas.

Hint Resolve write_dblock_mblock_sh_keeps write_dblock_keeps
  write_leader_keeps ballot_write_loop_keeps write_leader_loop_keeps
  write_new_leader_keeps : keeps.

(** What a run of [m] from [w] returns and the world it leaves. *)
Lemma keeps_run R {A} (m : M A) w a w' : keeps R m -> m w = (a, w') -> R w w'.
Proof. intros Hk Hm. specialize (Hk w). by rewrite Hm in Hk. Qed.

(** ** verify_dblock *)

(** C9. [verify_dblock] accepts every dblock whose checksum, mbal, bal,
    inp and lver fields are all zero, whatever checksum was computed for
    it; it returns one of SANLK_OK and SANLK_DBLOCK_CHECKSUM, and the
    latter exactly for a dblock that is not all-zero in those fields and
    whose stored checksum differs from the computed one. *)
Theorem verify_dblock_all_zero_or_checksum (pd : paxos_dblock) (checksum : Z) :
  let all_zero :=
    pd_checksum pd = 0 /\ pd_mbal pd = 0 /\ pd_bal pd = 0
    /\ pd_inp pd = 0 /\ pd_lver pd = 0 in
  (all_zero -> forall computed, verify_dblock pd computed = SANLK_OK)
  /\ (verify_dblock pd checksum = SANLK_OK
      \/ verify_dblock pd checksum = SANLK_DBLOCK_CHECKSUM)
  /\ (verify_dblock pd checksum = SANLK_DBLOCK_CHECKSUM
      <-> ~ all_zero /\ pd_checksum pd <> checksum).
Proof.
  pose proof (ok_nonneg HC) as Hok.
  pose proof (dblock_checksum_neg HC) as Hneg.
  cbv zeta. unfold verify_dblock.
  split; [|split].
  - intros (-> & -> & -> & -> & ->) computed. reflexivity.
  - destruct (_ && _); [by left|].
    destruct (pd_checksum pd =? checksum); cbn; auto.
  - destruct ((pd_checksum pd =? 0) && (pd_mbal pd =? 0) && (pd_bal pd =? 0)
               && (pd_inp pd =? 0) && (pd_lver pd =? 0)) eqn:Ez.
    + split; [lia|]. intros [Hnz _]. exfalso. apply Hnz.
      repeat (apply andb_prop in Ez; destruct Ez as [Ez ?]). lia.
    + assert (Hnz : ~ (pd_checksum pd = 0 /\ pd_mbal pd = 0 /\ pd_bal pd = 0
                       /\ pd_inp pd = 0 /\ pd_lver pd = 0)).
      { intros (E1 & E2 & E3 & E4 & E5).
        rewrite E1, E2, E3, E4, E5 in Ez. discriminate. }
      destruct (pd_checksum pd =? checksum) eqn:E6; cbn; split.
      * lia.
      * intros [_ Hne]. lia.
      * intros _. split; [exact Hnz|lia].
      * reflexivity.
Qed.

(** ** The choice of our_mbal *)

Lemma wrap64_small (x : Z) : 0 <= x < 2 ^ 64 -> wrap64 x = x.
Proof. intros. unfold wrap64. by apply Z.mod_small. Qed.

Lemma choose_our_mbal_nowrap (max_mbal max_hosts hid : Z) :
  0 < max_mbal -> 1 <= hid <= max_hosts ->
  max_mbal / max_hosts * max_hosts + max_hosts + hid < 2 ^ 64 ->
  choose_our_mbal max_mbal max_hosts hid
  = max_mbal / max_hosts * max_hosts + max_hosts + hid.
Proof.
  intros Hm Hh Hfit. unfold choose_our_mbal.
  destruct (Z.eqb_spec max_mbal 0) as [->|_]; [lia|].
  assert (Hmh : 0 < max_hosts) by lia.
  pose proof (Z.div_mod max_mbal max_hosts ltac:(lia)) as Hdm.
  pose proof (Z.mod_pos_bound max_mbal max_hosts Hmh) as Hmod.
  assert (Hq : 0 <= max_mbal / max_hosts) by (apply Z.div_pos; lia).
  assert (Hnum : max_mbal - max_mbal mod max_hosts
                 = max_mbal / max_hosts * max_hosts) by lia.
  rewrite Hnum.
  rewrite (wrap64_small (max_mbal / max_hosts * max_hosts)) by nia.
  apply wrap64_small. nia.
Qed.

(** C2 (amended). At [run:] the ballot starts from
    [our_mbal = choose_our_mbal max_mbal max_hosts host_id], which is
    host_id when max_mbal is zero and otherwise
    floor(max_mbal / max_hosts) * max_hosts + max_hosts + host_id.  For
    host_id in 1..max_hosts, and as long as that sum fits in 64 bits, the
    value is strictly greater than max_mbal and congruent to host_id
    modulo max_hosts, so two different hosts never choose the same
    value. *)
Theorem our_mbal_exceeds_max_and_is_own
    (v : acq_vars) (copy_cur_leader : bool) (w : world)
    (max_hosts hid : Z) :
  max_hosts = lr_max_hosts (av_cur_leader v) ->
  hid = host_id (w_token w) ->
  0 <= av_max_mbal v -> 1 <= hid <= max_hosts ->
  av_max_mbal v / max_hosts * max_hosts + max_hosts + hid < 2 ^ 64 ->
  exists our_mbal,
    acquire_run v copy_cur_leader w
    = (PcRetryBallot copy_cur_leader
         (wrap64 (lr_lver (av_cur_leader v) + 1)) our_mbal, v, w)
    /\ our_mbal = choose_our_mbal (av_max_mbal v) max_hosts hid
    /\ (av_max_mbal v = 0 -> our_mbal = hid)
    /\ (av_max_mbal v <> 0 ->
        our_mbal = av_max_mbal v / max_hosts * max_hosts + max_hosts + hid)
    /\ av_max_mbal v < our_mbal
    /\ our_mbal mod max_hosts = hid mod max_hosts
    /\ (forall max_mbal' hid',
          0 <= max_mbal' -> 1 <= hid' <= max_hosts -> hid' <> hid ->
          max_mbal' / max_hosts * max_hosts + max_hosts + hid' < 2 ^ 64 ->
          choose_our_mbal max_mbal' max_hosts hid' <> our_mbal).
Proof.
  intros -> -> Hm Hh Hfit.
  set (mh := lr_max_hosts (av_cur_leader v)) in *.
  set (hid := host_id (w_token w)) in *.
  set (m := av_max_mbal v) in *.
  assert (Hmh : 0 < mh) by lia.
  assert (Hval : forall m' h', 0 <= m' -> 1 <= h' <= mh ->
            m' / mh * mh + mh + h' < 2 ^ 64 ->
            m' < choose_our_mbal m' mh h'
            /\ choose_our_mbal m' mh h' mod mh = h' mod mh).
  { intros m' h' Hm' Hh' Hfit'.
    destruct (Z.eq_dec m' 0) as [->|Hnz].
    - unfold choose_our_mbal. cbn. split; [lia|done].
    - rewrite choose_our_mbal_nowrap by lia.
      pose proof (Z.div_mod m' mh ltac:(lia)).
      pose proof (Z.mod_pos_bound m' mh Hmh).
      split; [lia|].
      replace (m' / mh * mh + mh + h') with (h' + (m' / mh + 1) * mh) by lia.
      apply Z.mod_add. lia. }
  exists (choose_our_mbal m mh hid).
  destruct (Hval m hid Hm Hh Hfit) as [Hgt Hcong].
  assert (Hrun : acquire_run v copy_cur_leader w
                 = (PcRetryBallot copy_cur_leader
                      (wrap64 (lr_lver (av_cur_leader v) + 1))
                      (choose_our_mbal m mh hid), v, w)).
  { unfold acquire_run, bind, get_token, ret. cbn [fst snd]. fold mh m.
    destruct (Z.eqb_spec mh 0); [lia|]. by rewrite andb_false_r. }
  repeat split; try done.
  - intros Hz. unfold choose_our_mbal. by rewrite Hz.
  - intros Hnz. apply choose_our_mbal_nowrap; lia.
  - intros m' h' Hm' Hh' Hne Hfit' Heq.
    destruct (Hval m' h' Hm' Hh' Hfit') as [_ Hcong'].
    rewrite Heq, Hcong in Hcong'.
    destruct (Z.eq_dec hid mh) as [E1|N1], (Z.eq_dec h' mh) as [E2|N2].
    + lia.
    + rewrite E1, Z.mod_same, Z.mod_small in Hcong' by lia. lia.
    + rewrite E2, Z.mod_same, Z.mod_small in Hcong' by lia. lia.
    + rewrite !Z.mod_small in Hcong' by lia. lia.
Qed.

(** ** The ballot's aborts and the retract flag *)

Lemma land_lor_same (f b : Z) : Z.land (Z.lor f b) b = b.
Proof.
  apply Z.bits_inj'. intros i Hi.
  rewrite Z.land_spec, Z.lor_spec. destruct (Z.testbit b i), (Z.testbit f i); done.
Qed.

Lemma phase1_block_abort dblock q bk bk_max q_max e :
  phase1_block dblock q bk bk_max q_max = Abort e ->
  e = SANLK_DBLOCK_LVER \/ e = SANLK_DBLOCK_MBAL.
Proof.
  unfold phase1_block.
  repeat (match goal with |- context [if ?b then _ else _] => destruct b end);
    intros [= <-]; auto.
Qed.

Lemma phase1_scan_abort dblock bks bk_max q_max e :
  phase1_scan dblock bks bk_max q_max = Abort e ->
  e = SANLK_DBLOCK_LVER \/ e = SANLK_DBLOCK_MBAL.
Proof.
  revert bk_max q_max.
  induction bks as [|[q bk] bks IH]; intros bk_max q_max; cbn [phase1_scan].
  - discriminate.
  - destruct (phase1_block dblock q bk bk_max q_max) as [e'|[bm qm]] eqn:Hb.
    + intros [= <-]. by eapply phase1_block_abort.
    + apply IH.
Qed.

Lemma phase2_scan_abort dblock bks e :
  phase2_scan dblock bks = Abort e ->
  e = SANLK_DBLOCK_LVER \/ e = SANLK_DBLOCK_MBAL.
Proof.
  induction bks as [|[q bk] bks IH]; cbn [phase2_scan].
  - discriminate.
  - unfold phase2_block.
    repeat (match goal with |- context [if ?b then _ else _] => destruct b end);
      first [apply IH | intros [= <-]; auto].
Qed.

Lemma phase1_read_loop_abort ds num_hosts dblock v w e w' :
  phase1_read_loop ds num_hosts dblock v w = (Abort e, w') ->
  e = SANLK_DBLOCK_LVER \/ e = SANLK_DBLOCK_MBAL.
Proof.
  revert v w.
  induction ds as [|d ds IH]; intros v w; cbn [phase1_read_loop].
  - discriminate.
  - destruct (negb _); [apply IH|].
    unfold bind, io_result, emit, disk_area, ret. cbn.
    destruct (_ <? 0); [apply IH|].
    destruct (phase1_scan _ _ _ _) as [e'|[bm qm]] eqn:Hs.
    + intros [= <- _]. by eapply phase1_scan_abort.
    + apply IH.
Qed.

Lemma phase2_read_loop_abort ds num_hosts dblock iobuf num_reads w e w' :
  phase2_read_loop ds num_hosts dblock iobuf num_reads w = (Abort e, w') ->
  e = SANLK_DBLOCK_LVER \/ e = SANLK_DBLOCK_MBAL.
Proof.
  revert iobuf num_reads w.
  induction ds as [|d ds IH]; intros iobuf num_reads w; cbn [phase2_read_loop].
  - discriminate.
  - destruct (negb _); [apply IH|].
    unfold bind, io_result, emit, disk_area, ret. cbn.
    destruct (_ <? 0); [apply IH|].
    destruct (phase2_scan _ _) as [e'|[]] eqn:Hs.
    + intros [= <- _]. by eapply phase2_scan_abort.
    + apply IH.
Qed.

Lemma ballot_out_eq phase2 error dblock w :
  ballot_out phase2 error dblock w
  = (error, dblock,
     if phase2 && (error <? 0)
        && ((error =? SANLK_DBLOCK_READ) || (error =? SANLK_DBLOCK_WRITE))
     then retracted w else w).
Proof.
  unfold ballot_out, bind, get_token, put_token, ret, retracted.
  by destruct (_ && _).
Qed.

Lemma retracted_flag_set w :
  flag_set (tk_flags (w_token (retracted w))) T_RETRACT_PAXOS = true.
Proof.
  unfold flag_set, retracted. cbn. rewrite land_lor_same.
  pose proof (retract_bit HC). apply negb_true_iff, Z.eqb_neq. lia.
Qed.

(** What [ballot_out] does to the token, by the error it is given. *)
Lemma ballot_out_token phase2 error dblock w r w' :
  ballot_out phase2 error dblock w = (r, w') ->
  r = (error, dblock)
  /\ (phase2 = true ->
      error = SANLK_DBLOCK_READ \/ error = SANLK_DBLOCK_WRITE ->
      w' = retracted w)
  /\ (phase2 = false
      \/ (error <> SANLK_DBLOCK_READ /\ error <> SANLK_DBLOCK_WRITE) ->
      w' = w).
Proof.
  rewrite ballot_out_eq. intros [= <- <-].
  pose proof (dblock_read_neg HC). pose proof (dblock_write_neg HC).
  split; [done|]. split.
  - intros -> [->| ->].
    + rewrite Z.eqb_refl. cbn. by destruct (Z.ltb_spec SANLK_DBLOCK_READ 0); [|lia].
    + rewrite Z.eqb_refl, orb_true_r. cbn.
      by destruct (Z.ltb_spec SANLK_DBLOCK_WRITE 0); [|lia].
  - intros [->|[Hr Hw]]; [done|].
    apply Z.eqb_neq in Hr, Hw. rewrite Hr, Hw. cbn. by rewrite !andb_false_r.
Qed.

(** The codes of the two aborts are not those of a failed majority. *)
Lemma abort_not_read_write e :
  e = SANLK_DBLOCK_LVER \/ e = SANLK_DBLOCK_MBAL ->
  e <> SANLK_DBLOCK_READ /\ e <> SANLK_DBLOCK_WRITE.
Proof.
  pose proof (dblock_codes_distinct HC) as Hnd.
  apply NoDup_cons in Hnd as [Hr Hnd]. apply NoDup_cons in Hnd as [Hw _].
  rewrite !elem_of_cons in Hr, Hw.
  intros [->| ->]; split; intros E.
  - apply Hr. right. left. done.
  - apply Hw. left. done.
  - apply Hr. right. right. left. done.
  - apply Hw. right. left. done.
Qed.

Lemma ballot_phase2_token ds n num_hosts dblock iobuf w error dblock' w' :
  ballot_phase2 ds n num_hosts dblock iobuf w = (error, dblock', w') ->
  (error = SANLK_DBLOCK_READ \/ error = SANLK_DBLOCK_WRITE ->
     flag_set (tk_flags (w_token w')) T_RETRACT_PAXOS = true)
  /\ (error = SANLK_DBLOCK_MBAL \/ error = SANLK_DBLOCK_LVER ->
      w_token w' = w_token w).
Proof.
  pose proof (ok_nonneg HC). pose proof (dblock_read_neg HC).
  pose proof (dblock_write_neg HC). pose proof (dblock_mbal_neg HC).
  pose proof (dblock_lver_neg HC).
  unfold ballot_phase2, bind.
  destruct (ballot_write_loop ds dblock 0 w) as [[db nw] w1] eqn:Hw.
  pose proof (keeps_run same_token _ _ _ _
                (ballot_write_loop_keeps same_token _ _ _) Hw) as Ht1.
  unfold same_token in Ht1.
  destruct (negb (majority_disks n nw)).
  { intros Hout. apply ballot_out_token in Hout as ([= -> ->] & Hset & _).
    split.
    - intros _. rewrite (Hset eq_refl) by auto. apply retracted_flag_set.
    - intros Habort. apply or_comm, abort_not_read_write in Habort.
      destruct Habort; congruence. }
  destruct (phase2_read_loop ds num_hosts db iobuf 0 w1) as [[e|nr] w2] eqn:Hr;
    pose proof (keeps_run same_token _ _ _ _
                  (phase2_read_loop_keeps same_token _ _ _ _ _) Hr) as Ht2;
    unfold same_token in Ht2.
  { apply phase2_read_loop_abort in Hr. apply abort_not_read_write in Hr as Hne.
    intros Hout. apply ballot_out_token in Hout as ([= -> ->] & _ & Hsame).
    split; [tauto|]. intros _. rewrite Hsame by auto. congruence. }
  destruct (negb (majority_disks n nr)).
  { intros Hout. apply ballot_out_token in Hout as ([= -> ->] & Hset & _).
    split.
    - intros _. rewrite (Hset eq_refl) by auto. apply retracted_flag_set.
    - intros Habort. apply or_comm, abort_not_read_write in Habort.
      destruct Habort; congruence. }
  intros Hout. apply ballot_out_token in Hout as ([= -> ->] & _ & _).
  split; intros [?|?]; lia.
Qed.

(** C3 (amended). Once phase 2 of [run_ballot] has been entered, a ballot
    that fails with DBLOCK_READ or DBLOCK_WRITE (no majority of the
    phase 2 writes or reads) returns with the token's T_RETRACT_PAXOS
    flag set; a ballot that returns the MBAL or LVER abort, in either
    phase, leaves the token and so the flag as they were. *)
Theorem retract_flag_follows_read_write_failure :
  (forall ds n num_hosts dblock iobuf w error dblock' w',
     ballot_phase2 ds n num_hosts dblock iobuf w = (error, dblock', w') ->
     (error = SANLK_DBLOCK_READ \/ error = SANLK_DBLOCK_WRITE ->
        flag_set (tk_flags (w_token w')) T_RETRACT_PAXOS = true)
     /\ (error = SANLK_DBLOCK_MBAL \/ error = SANLK_DBLOCK_LVER ->
         w_token w' = w_token w))
  /\ (forall flags num_hosts next_lver our_mbal dblock_out w error dblock' w',
       run_ballot flags num_hosts next_lver our_mbal dblock_out w
       = (error, dblock', w') ->
       error = SANLK_DBLOCK_MBAL \/ error = SANLK_DBLOCK_LVER ->
       w_token w' = w_token w).
Proof.
  split; [intros *; apply ballot_phase2_token|].
  intros flags num_hosts next_lver our_mbal dblock_out w error dblock' w'.
  unfold run_ballot, ballot_phase1, bind, get_token, num_disks.
  destruct (_ =? 0); [by intros [= <- <- <-]|].
  destruct (ballot_alloc _ w) as [rv w0] eqn:Ha.
  pose proof (keeps_run same_token _ _ _ _ (ballot_alloc_keeps same_token _) Ha)
    as Ht0.
  destruct (negb (rv =? 0)); [intros [= <- <- <-]; done|].
  destruct (ballot_write_loop _ _ 0 w0) as [[db nw] w1] eqn:Hw.
  pose proof (keeps_run same_token _ _ _ _
                (ballot_write_loop_keeps same_token _ _ _) Hw) as Ht1.
  unfold same_token in *.
  destruct (negb (majority_disks _ nw)).
  { intros Hout _. apply ballot_out_token in Hout as (_ & _ & Hsame).
    rewrite Hsame by auto. congruence. }
  destruct (phase1_read_loop _ _ _ _ w1) as [[e|v] w2] eqn:Hr;
    pose proof (keeps_run same_token _ _ _ _
                  (phase1_read_loop_keeps same_token _ _ _ _) Hr) as Ht2;
    unfold same_token in Ht2.
  { intros Hout _. apply ballot_out_token in Hout as (_ & _ & Hsame).
    rewrite Hsame by auto. congruence. }
  destruct (negb (majority_disks _ (p1_num_reads v))).
  { intros Hout _. apply ballot_out_token in Hout as (_ & _ & Hsame).
    rewrite Hsame by auto. congruence. }
  destruct (choose_inp db (p1_bk_max v) w2) as [db2 w3] eqn:Hc.
  pose proof (keeps_run same_token _ _ _ _ (choose_inp_keeps same_token _ _) Hc)
    as Ht3.
  unfold same_token in Ht3.
  intros Hp2 Habort. apply ballot_phase2_token in Hp2 as [_ Hsame].
  rewrite Hsame by done. congruence.
Qed.

(** ** paxos_lease_release *)

(** C5 (amended). When the leader read by [paxos_lease_release] has our
    host_id as write_id, a leader whose lver differs from the caller's
    last leader makes the release fail with RELEASE_LVER, while a leader
    that is already free and a leader owned by another host or generation
    both make it fail with the same code, RELEASE_OWNER, which differs
    from RELEASE_LVER.  Nothing is written in any of these cases. *)
Theorem release_verification_errors
    (resrename : option string) (leader_last : option leader_record)
    (leader_ret : leader_record) (w : world)
    (rv : Z) (leader : leader_record) (w1 : world) :
  paxos_lease_leader_read zero_leader w = (rv, leader, w1) ->
  0 <= rv ->
  lr_write_id leader = host_id (w_token w) ->
  let last := default leader leader_last in
  let release := paxos_lease_release resrename leader_last leader_ret w in
  (lr_lver leader <> lr_lver last ->
     release = (SANLK_RELEASE_LVER, leader_ret, w1))
  /\ (lr_lver leader = lr_lver last -> lr_timestamp leader = LEASE_FREE ->
      release = (SANLK_RELEASE_OWNER, leader_ret, w1))
  /\ (lr_lver leader = lr_lver last -> lr_timestamp leader <> LEASE_FREE ->
      lr_owner_id leader <> host_id (w_token w)
      \/ lr_owner_generation leader <> host_generation (w_token w) ->
      release = (SANLK_RELEASE_OWNER, leader_ret, w1))
  /\ SANLK_RELEASE_LVER <> SANLK_RELEASE_OWNER.
Proof.
  intros Hread Hrv Hwriter last release.
  assert (Hrel : forall code, release_checks (w_token w) leader last = Some code ->
                   release = (code, leader_ret, w1)).
  { intros code Hc. unfold release, paxos_lease_release, bind, get_token.
    rewrite Hread. destruct (Z.ltb_spec rv 0); [lia|].
    fold last. by rewrite Hc. }
  unfold release_checks in Hrel.
  apply Z.eqb_eq in Hwriter. rewrite Hwriter in Hrel. cbn [negb] in Hrel.
  split; [|split; [|split]].
  - intros Hne. apply Hrel. apply Z.eqb_neq in Hne. by rewrite Hne.
  - intros He Hfree. apply Hrel.
    apply Z.eqb_eq in He, Hfree. by rewrite He, Hfree.
  - intros He Hheld Howner. apply Hrel.
    apply Z.eqb_eq in He. apply Z.eqb_neq in Hheld. rewrite He, Hheld. cbn.
    destruct Howner as [Hne|Hne]; apply Z.eqb_neq in Hne; rewrite Hne; cbn;
      [done|by rewrite orb_true_r].
  - apply (release_codes_distinct HC).
Qed.

(** *** A successful release *)

Lemma write_leader_loop_count ds nl num_writes rv timeout w :
  (write_leader_loop ds nl num_writes rv timeout w).1.1.1.2
  = num_writes + successes (io_results (length ds) (w_io w)).
Proof.
  revert nl num_writes rv timeout w.
  induction ds as [|d ds IH]; intros nl num_writes rv timeout w.
  { cbn. unfold successes. cbn. lia. }
  cbn [write_leader_loop length io_results].
  unfold bind at 1. unfold write_leader, bind, io_result, emit, disk_area, ret,
    put_area. cbn.
  unfold successes. cbn [List.filter].
  destruct (hd 0 (w_io w) <? 0) eqn:E; cbn; rewrite ?E, IH; unfold successes;
    cbn; lia.
Qed.

Lemma leader_checksum_seal l : leader_checksum (seal l) = leader_checksum l.
Proof. apply (leader_checksum_skips_field HC). Qed.

Lemma seal_seal l : seal (seal l) = seal l.
Proof.
  unfold seal at 1. rewrite leader_checksum_seal. by destruct l.
Qed.

Lemma write_leader_eq d nl w :
  write_leader d nl w
  = (hd 0 (w_io w), seal nl,
     mk_world (w_token w)
       (if hd 0 (w_io w) <? 0 then w_disks w
        else <[d := mk_area (seal nl)
                      (la_sectors (default zero_area (w_disks w !! d)))]>
               (w_disks w))
       (tl (w_io w)) (w_alloc w) (w_clock w) (w_rand w) (w_ls w)
       (EvWriteLeader d (seal nl) (hd 0 (w_io w)) :: w_trace w)).
Proof.
  unfold write_leader, bind, io_result, emit, disk_area, put_area, ret, seal.
  cbn. by destruct (hd 0 (w_io w) <? 0).
Qed.

(** The write loop leaves the sealed leader in memory and on every disk
    whose write succeeded, and touches no other disk. *)
Lemma write_leader_loop_disks ds nl num_writes rv timeout w :
  NoDup ds ->
  (forall d, d ∈ ds -> (d < length (w_disks w))%nat) ->
  let r := write_leader_loop ds nl num_writes rv timeout w in
  r.1.1.1.1 = match ds with [] => nl | _ => seal nl end
  /\ length (w_disks r.2) = length (w_disks w)
  /\ (forall d, d ∉ ds -> w_disks r.2 !! d = w_disks w !! d)
  /\ (forall i d x,
        ds !! i = Some d -> io_results (length ds) (w_io w) !! i = Some x ->
        0 <= x -> disk_leader r.2 d = seal nl).
Proof.
  revert nl num_writes rv timeout w.
  induction ds as [|d ds IH]; intros nl num_writes rv timeout w Hnd Hlt.
  { cbn. repeat split; try done. }
  apply NoDup_cons in Hnd as [Hd Hnd].
  pose (x0 := hd 0 (w_io w)).
  pose (w1 := (write_leader d nl w).2).
  assert (Hstep : write_leader_loop (d :: ds) nl num_writes rv timeout w
                  = write_leader_loop ds (seal nl)
                      (if x0 <? 0 then num_writes else num_writes + 1) x0
                      (if x0 =? SANLK_AIO_TIMEOUT then true else timeout) w1).
  { cbn [write_leader_loop]. unfold bind at 1. unfold w1.
    rewrite write_leader_eq. fold x0. cbn. by destruct (x0 <? 0). }
  rewrite Hstep. clear Hstep.
  unfold w1 in *. rewrite write_leader_eq in *. fold x0 in w1 |- *.
  clear w1. set (w1 := mk_world _ _ _ _ _ _ _ _).
  assert (Hlen1 : length (w_disks w1) = length (w_disks w)).
  { unfold w1. cbn. destruct (x0 <? 0); [done|apply length_insert]. }
  assert (Hlt1 : forall d', d' ∈ ds -> (d' < length (w_disks w1))%nat).
  { intros d' Hin. rewrite Hlen1. apply Hlt. apply elem_of_cons. by right. }
  assert (Hloop : forall nw t,
            let r := write_leader_loop ds (seal nl) nw x0 t w1 in
            r.1.1.1.1 = seal nl
            /\ length (w_disks r.2) = length (w_disks w)
            /\ (forall d', d' ∉ d :: ds -> w_disks r.2 !! d' = w_disks w !! d')
            /\ (forall i d' x,
                  (d :: ds) !! i = Some d' ->
                  io_results (S (length ds)) (w_io w) !! i = Some x ->
                  0 <= x -> disk_leader r.2 d' = seal nl)).
  { intros nw t. specialize (IH (seal nl) nw x0 t w1 Hnd Hlt1).
    cbv zeta in IH. destruct IH as (Hnl & Hlen & Hother & Hwritten).
    cbv zeta. split; [|split; [|split]].
    - rewrite Hnl. destruct ds; [done|apply seal_seal].
    - congruence.
    - intros d' Hd'. apply not_elem_of_cons in Hd' as [Hne Hd'].
      rewrite Hother by done. unfold w1. cbn.
      destruct (x0 <? 0); [done|]. by apply list_lookup_insert_ne.
    - intros [|i] d' x Hi Hx Hpos; cbn in Hi, Hx.
      + injection Hi as <-. injection Hx as <-. fold x0 in Hpos.
        unfold disk_leader. rewrite (Hother d Hd). unfold w1. cbn.
        destruct (Z.ltb_spec x0 0); [lia|].
        rewrite list_lookup_insert_eq; [done|].
        apply Hlt. apply elem_of_cons. by left.
      + etrans; [exact (Hwritten i d' x Hi Hx Hpos)|apply seal_seal]. }
  apply Hloop.
Qed.

Lemma leader_read_single lr w :
  length (w_disks w) = 1%nat ->
  paxos_lease_leader_read lr w = _leader_read_one lr w.
Proof.
  intros Hone. unfold paxos_lease_leader_read, bind, num_disks.
  rewrite Hone. by change (Z.of_nat 1 >? 1) with false.
Qed.

(** A leader read from a single disk that did not fail was verified. *)
Lemma leader_read_one_verified w rv leader w1 :
  length (w_disks w) = 1%nat ->
  paxos_lease_leader_read zero_leader w = (rv, leader, w1) ->
  0 <= rv ->
  tk_sector_size (w_token w) <> 0
  /\ leader = disk_leader w 0
  /\ lr_magic leader <> PAXOS_DISK_CLEAR
  /\ verify_leader_checks (w_token w) leader (leader_checksum leader) = None.
Proof.
  intros Hone. pose proof (einval_pos HC) as Hinval.
  pose proof (leader_codes_neg HC) as Hneg. rewrite Forall_forall in Hneg.
  rewrite leader_read_single by done.
  unfold _leader_read_one, bind, read_leader, bind, get_token.
  destruct (Z.eqb_spec (tk_sector_size (w_token w)) 0) as [Hz|Hnz].
  { cbn. destruct (Z.ltb_spec (- EINVAL) 0); [|lia].
    intros [= <- _ _] ?. lia. }
  unfold io_result, emit, disk_area, ret. cbn.
  destruct (Z.ltb_spec (hd 0 (w_io w)) 0) as [Hio|Hio].
  { intros [= <- _ _] ?. lia. }
  unfold verify_leader, _verify_leader, bind, get_token. cbn.
  fold (disk_leader w 0).
  destruct (Z.eqb_spec (lr_magic (disk_leader w 0)) PAXOS_DISK_CLEAR).
  { intros [= <- _ _] ?. cbn in *.
    assert (SANLK_LEADER_MAGIC < 0) by (apply Hneg; set_solver). lia. }
  destruct (verify_leader_checks _ _ _) as [code|] eqn:Hchk.
  - assert (Hcode : code < 0).
    { apply Hneg. revert Hchk. unfold verify_leader_checks.
      repeat (match goal with
              | |- context [if ?b then _ else _] => destruct b
              end); intros [= <-]; set_solver. }
    unfold io_result, emit, ret. cbn. intros [= <- _ _] ?. lia.
  - intros [= <- <- _] _. done.
Qed.

(** Reading the leader back from a single disk. *)
Lemma leader_read_one_back w :
  length (w_disks w) = 1%nat ->
  tk_sector_size (w_token w) <> 0 ->
  0 <= hd 0 (w_io w) ->
  exists rv w',
    paxos_lease_leader_read zero_leader w = (rv, disk_leader w 0, w')
    /\ (lr_magic (disk_leader w 0) <> PAXOS_DISK_CLEAR ->
        verify_leader_checks (w_token w) (disk_leader w 0)
          (leader_checksum (disk_leader w 0)) = None ->
        rv = SANLK_OK).
Proof.
  intros Hone Hnz Hio.
  rewrite leader_read_single by done.
  unfold _leader_read_one, bind, read_leader, bind, get_token.
  destruct (Z.eqb_spec (tk_sector_size (w_token w)) 0); [done|].
  unfold io_result, emit, disk_area, ret. cbn.
  destruct (Z.ltb_spec (hd 0 (w_io w)) 0); [lia|].
  unfold verify_leader, _verify_leader, bind, get_token. cbn.
  fold (disk_leader w 0).
  destruct (Z.eqb_spec (lr_magic (disk_leader w 0)) PAXOS_DISK_CLEAR).
  { eexists _, _. split; [reflexivity|]. done. }
  destruct (verify_leader_checks _ _ _) as [code|].
  - unfold io_result, emit, ret. cbn. eexists _, _. split; [reflexivity|done].
  - eexists _, _. split; [reflexivity|done].
Qed.

(** Reading the leader sector of one disk. *)
Lemma read_leader_back d w :
  tk_sector_size (w_token w) <> 0 ->
  0 <= hd 0 (w_io w) ->
  (read_leader d w).1.1 = (hd 0 (w_io w), disk_leader w d).
Proof.
  intros Hss Hio. unfold read_leader, bind at 1, get_token.
  destruct (Z.eqb_spec (tk_sector_size (w_token w)) 0); [done|].
  unfold bind, io_result, emit, disk_area, ret. cbn.
  by destruct (Z.ltb_spec (hd 0 (w_io w)) 0); [lia|].
Qed.

(** A released leader passes the checks its original passed, as long as
    it was not renamed. *)
Lemma released_leader_verifies token now leader :
  verify_leader_checks token leader (leader_checksum leader) = None ->
  verify_leader_checks token (seal (released_leader token None now leader))
    (leader_checksum (seal (released_leader token None now leader))) = None.
Proof.
  unfold verify_leader_checks. rewrite leader_checksum_seal.
  unfold seal, released_leader. cbn. rewrite Z.eqb_refl. cbn.
  repeat (match goal with
          | |- context [if ?b then _ else _] => destruct b; try done
          end).
Qed.

Lemma length_io_results n io : length (io_results n io) = n.
Proof. revert io. induction n as [|n IH]; intros io; cbn; by rewrite ?IH. Qed.

Lemma successes_pos rvs :
  successes rvs <> 0 -> exists i x, rvs !! i = Some x /\ 0 <= x.
Proof.
  unfold successes. induction rvs as [|r rvs IH]; cbn; [done|].
  destruct (Z.ltb_spec r 0); cbn.
  - intros Hne. destruct (IH Hne) as (i & x & Hi & Hx). by exists (S i), x.
  - intros _. by exists 0%nat, r.
Qed.

(** [write_new_leader] succeeds only with [SANLK_OK], when a majority of
    the writes succeeded; the sealed leader is then on each of those
    disks. *)
Lemma write_new_leader_ok nl w e l w' :
  write_new_leader nl w = (e, l, w') ->
  0 <= e ->
  let n := length (w_disks w) in
  e = SANLK_OK /\ l = seal nl
  /\ w_token w' = w_token w
  /\ length (w_disks w') = n
  /\ majority_disks (Z.of_nat n) (successes (io_results n (w_io w))) = true
  /\ (forall d x, io_results n (w_io w) !! d = Some x -> 0 <= x ->
        disk_leader w' d = seal nl).
Proof.
  intros Hw He n.
  pose proof (keeps_run same_token _ _ _ _ (write_new_leader_keeps _ nl) Hw)
    as Htok.
  revert Hw. unfold write_new_leader, bind, num_disks. cbn beta iota.
  rewrite Nat2Z.id. fold n.
  pose proof (write_leader_loop_count (seq 0 n) nl 0 0 false w) as Hcount.
  pose proof (write_leader_loop_disks (seq 0 n) nl 0 0 false w
                (NoDup_seq 0 n)) as Hdisks.
  rewrite length_seq in Hcount, Hdisks. cbv zeta in Hdisks.
  destruct (write_leader_loop (seq 0 n) nl 0 0 false w)
    as [[[[l0 nw] rv] tmo] w2].
  cbn [fst snd] in Hcount, Hdisks. rewrite Z.add_0_l in Hcount. subst nw.
  destruct Hdisks as (Hl0 & Hlen & _ & Hwritten).
  { intros d Hd. apply elem_of_seq in Hd. fold n. lia. }
  pose proof (aio_timeout_neg HC). pose proof (leader_write_neg HC).
  destruct (majority_disks _ _) eqn:Hmaj; cbn [negb].
  - unfold ret. intros [= <- <- <-].
    assert (Hn : n <> 0%nat).
    { intros Hz. rewrite Hz in Hmaj. cbn in Hmaj.
      rewrite (majority_needs_a_disk HC) in Hmaj; [done|lia]. }
    repeat split; try done.
    + rewrite Hl0. clear -Hn. unfold n in *.
      by destruct (length (w_disks w)).
    + intros d x Hd Hx. eapply Hwritten; [|exact Hd|exact Hx].
      apply lookup_seq. split; [done|].
      apply lookup_lt_Some in Hd. by rewrite length_io_results in Hd.
  - destruct tmo; [|destruct (Z.ltb_spec rv 0)];
      unfold ret; intros [= <- <- <-]; lia.
Qed.

Lemma release_checks_refuse token leader last rv :
  release_checks token leader last = Some rv ->
  lr_write_id leader = host_id token -> rv < 0.
Proof.
  pose proof (release_lver_neg HC). pose proof (release_owner_neg HC).
  unfold release_checks. intros Hchk Hwid. rewrite Hwid, Z.eqb_refl in Hchk.
  cbn [negb] in Hchk.
  repeat (match type of Hchk with
          | context [if ?b then _ else _] => destruct b
          end); first [discriminate | by injection Hchk as <-].
Qed.

Lemma release_checks_pass token leader last :
  release_checks token leader last = None ->
  leader = last
  /\ lr_owner_id leader = host_id token
  /\ lr_owner_generation leader = host_generation token
  /\ lr_timestamp leader <> LEASE_FREE.
Proof.
  unfold release_checks.
  destruct (lr_write_id leader =? host_id token); [|done].
  destruct (lr_lver leader =? lr_lver last); [|done]. cbn [negb].
  destruct (Z.eqb_spec (lr_timestamp leader) LEASE_FREE); [done|].
  destruct (Z.eqb_spec (lr_owner_id leader) (host_id token)); [|done].
  destruct (Z.eqb_spec (lr_owner_generation leader) (host_generation token));
    [|done].
  cbn [negb orb]. case_bool_decide; done.
Qed.

Lemma released_leader_fields token resrename now leader :
  lr_timestamp (seal (released_leader token resrename now leader)) = LEASE_FREE
  /\ lr_lver (seal (released_leader token resrename now leader))
     = lr_lver leader
  /\ lr_magic (seal (released_leader token resrename now leader))
     = lr_magic leader.
Proof. by destruct resrename, leader. Qed.

(** The steps of a release that does not fail. *)
Lemma paxos_lease_release_ok resrename leader_last leader_ret w
    rv0 leader w1 error leader' w' :
  paxos_lease_leader_read zero_leader w = (rv0, leader, w1) ->
  lr_write_id leader = host_id (w_token w) ->
  paxos_lease_release resrename leader_last leader_ret w
  = (error, leader', w') ->
  0 <= error ->
  0 <= rv0
  /\ release_checks (w_token w) leader (default leader leader_last) = None
  /\ write_new_leader
       (released_leader (w_token w) resrename (hd 0 (w_clock w1)) leader)
       (monotime w1).2
     = (error, leader', w').
Proof.
  intros Hread Hwid Hrel Herr. revert Hrel.
  unfold paxos_lease_release, bind, get_token. cbn beta iota.
  rewrite Hread. cbn beta iota.
  destruct (Z.ltb_spec rv0 0) as [Hneg|Hpos].
  { unfold ret. intros [= <- _ _]. lia. }
  destruct (release_checks _ _ _) as [rv|] eqn:Hchk.
  { apply release_checks_refuse in Hchk; [|done].
    unfold ret. intros [= <- _ _]. lia. }
  unfold monotime at 1. cbn beta iota.
  change (mk_world (w_token w1) (w_disks w1) (w_io w1) (w_alloc w1)
            (tl (w_clock w1)) (w_rand w1) (w_ls w1) (w_trace w1))
    with (monotime w1).2.
  destruct (write_new_leader _ _) as [[e l] w3].
  destruct (Z.ltb_spec e 0); unfold ret; intros [= <- <- <-]; [lia|done].
Qed.


(** ** paxos_lease_init *)

Lemma first_failure_spec (rvs : list Z) :
  match first_failure rvs with
  | Some rv => rv < 0 /\ rv ∈ rvs
  | None => Forall (fun r => 0 <= r) rvs
  end.
Proof.
  unfold first_failure. induction rvs as [|r rvs IH]; cbn; [constructor|].
  destruct (Z.ltb_spec r 0).
  - split; [done|]. apply elem_of_cons. by left.
  - destruct (List.find _ rvs).
    + destruct IH. split; [done|]. apply elem_of_cons. by right.
    + by constructor.
Qed.

Lemma init_write_loop_result (ds : list nat) (leader : leader_record) (w : world) :
  (init_write_loop ds leader w).1
  = default 0 (first_failure (io_results (length ds) (w_io w))).
Proof.
  revert w. induction ds as [|d ds IH]; intros w; [done|].
  cbn [init_write_loop length io_results]. unfold first_failure. cbn [List.find].
  unfold bind, io_result, emit, ret, put_area. cbn.
  destruct (hd 0 (w_io w) <? 0); cbn; [done|].
  rewrite IH. done.
Qed.

(** C10. Once the sizes are known and the buffer is allocated,
    [paxos_lease_init] writes the lease area to one disk after the other
    and returns the result of the first write that fails, so it succeeds
    (with 0) exactly when the write to every disk succeeds.  The
    majority rule of acquire and release is not applied: on the same
    results [write_new_leader] succeeds as soon as the successful writes
    are a majority. *)
Theorem init_succeeds_only_on_every_disk
    (num_hosts : Z) (write_clear : bool) (w : world) :
  (sizes_from_flags (r_flags (w_token w))).1 = 0 ->
  hd 0 (w_alloc w) = 0 ->
  let n := length (w_disks w) in
  let results := io_results n (w_io w) in
  let rv := (paxos_lease_init num_hosts write_clear w).1 in
  rv = default 0 (first_failure results)
  /\ (0 <= rv <-> Forall (fun r => 0 <= r) results)
  /\ (0 <= rv -> rv = 0)
  /\ (forall nl,
        majority_disks (Z.of_nat n) (successes results) = true ->
        (write_new_leader nl w).1.1 = SANLK_OK).
Proof.
  intros Hsizes Halloc n results rv.
  assert (Hrv : rv = default 0 (first_failure results)).
  { unfold rv, paxos_lease_init, bind, get_token.
    destruct (sizes_from_flags _) as [rv0 [[ss al] mh]]. cbn in Hsizes.
    subst rv0. cbn [negb Z.eqb].
    match goal with
    | |- context [if ?b then (?x, ?y, ?z) else _] =>
        destruct (if b then (x, y, z) else _) as [[ss' al'] mh']
    end.
    unfold put_token, posix_memalign. cbn. rewrite Halloc. cbn.
    destruct write_clear; unfold monotime, ret, num_disks; cbn;
      rewrite Nat2Z.id, init_write_loop_result, length_seq; done. }
  pose proof (first_failure_spec results) as Hspec.
  split; [exact Hrv|]. split; [|split].
  - rewrite Hrv. destruct (first_failure results) as [r|]; cbn.
    + destruct Hspec as [Hneg Hin]. split; [lia|].
      intros Hall. rewrite Forall_forall in Hall. specialize (Hall _ Hin). lia.
    + done.
  - rewrite Hrv. destruct (first_failure results) as [r|]; cbn; [|done].
    destruct Hspec. lia.
  - intros nl Hmaj. unfold write_new_leader, bind, num_disks.
    pose proof (write_leader_loop_count (seq 0 (Z.to_nat (Z.of_nat n))) nl 0 0
                  false w) as Hcount.
    destruct (write_leader_loop _ nl 0 0 false w) as [[[[nl' nw] rv'] t] w'].
    cbn in Hcount. rewrite Nat2Z.id, length_seq in Hcount.
    fold results in Hcount. rewrite Z.add_0_l in Hcount. subst nw.
    fold n. by rewrite Hmaj.
Qed.

(** ** paxos_lease_acquire: retrying the ballot *)

(** C6 (amended). At [retry_ballot:], when the leader is as it was read
    and [run_ballot] returns the MBAL or LVER abort, the acquire calls
    [usleep] with [get_rand(0, 1000000)] microseconds (so up to one
    second for a result in that range), or with host_id * 100 if
    [get_rand] fails, and jumps back to [retry_ballot:] with our_mbal
    increased by the leader's max_hosts (64-bit unsigned) and the same
    next_lver; nothing else changes but the dblock returned by the
    ballot. *)
Theorem ballot_abort_delays_and_retries
    (args : acq_args) (v : acq_vars) (copy_cur_leader : bool)
    (next_lver our_mbal : Z) (w : world)
    (rv : Z) (tmp_leader : leader_record) (w1 : world)
    (error : Z) (dblock : paxos_dblock) (w2 : world) :
  (if copy_cur_leader then ret (0, av_cur_leader v)
   else paxos_lease_leader_read zero_leader) w = (rv, tmp_leader, w1) ->
  0 <= rv ->
  tmp_leader = av_cur_leader v ->
  lr_lver tmp_leader < next_lver ->
  run_ballot (a_flags args) (to_int (lr_num_hosts (av_cur_leader v)))
    next_lver our_mbal (av_dblock v) w1 = (error, dblock, w2) ->
  error = SANLK_DBLOCK_MBAL \/ error = SANLK_DBLOCK_LVER ->
  let rand := hd 0 (w_rand w2) in
  let us :=
    if rand <? 0 then to_int (wrap64 (host_id (w_token w2) * 100)) else rand in
  let v' := mk_av (av_cur_leader v) (av_max_mbal v) dblock (av_disk_open v)
              (av_leader_ret v) (av_dblock_ret v) in
  let our_mbal' := wrap64 (our_mbal + lr_max_hosts (av_cur_leader v)) in
  exists w3,
    acquire_retry_ballot args v copy_cur_leader next_lver our_mbal w
    = (PcRetryBallot false next_lver our_mbal', v', w3)
    /\ w_trace w3 = EvUsleep us :: w_trace w2
    /\ w_disks w3 = w_disks w2
    /\ w_token w3 = w_token w2
    /\ (0 <= rand <= 1000000 -> us = rand)
    /\ acquire_step args (PcRetryBallot false next_lver our_mbal') v'
       = acquire_retry_ballot args v' false next_lver our_mbal'.
Proof.
  intros Hread Hrv -> Hlver Hrun Herr rand us v' our_mbal'.
  eexists. split; [|split; [|split; [|split; [|split]]]].
  - unfold acquire_retry_ballot, bind at 1, get_token.
    unfold bind at 1. rewrite Hread.
    destruct (Z.ltb_spec rv 0); [lia|].
    destruct (Z.eqb_spec (lr_lver (av_cur_leader v)) next_lver); [lia|].
    destruct (Z.gtb_spec (lr_lver (av_cur_leader v)) next_lver); [lia|].
    rewrite bool_decide_eq_true_2 by done. cbn [negb].
    unfold acquire_ballot, bind at 1. rewrite Hrun.
    assert (Hab : (error =? SANLK_DBLOCK_MBAL) || (error =? SANLK_DBLOCK_LVER)
                  = true).
    { destruct Herr as [->| ->]; rewrite Z.eqb_refl; [done|apply orb_true_r]. }
    rewrite Hab. unfold bind, retry_delay, bind, get_token, get_rand, emit, ret.
    cbn. reflexivity.
  - reflexivity.
  - reflexivity.
  - reflexivity.
  - intros Hrange. unfold us. destruct (Z.ltb_spec rand 0); [lia|done].
  - reflexivity.
Qed.

(** ** Phase 1 of the ballot *)

Lemma phase1_block_spec dblock q bk bk_max q_max :
  phase1_block dblock q bk bk_max q_max
  = if contender dblock bk then Abort (abort_code dblock bk)
    else Go (track dblock (bk_max, q_max) (q, bk)).
Proof.
  unfold phase1_block, contender, abort_code, track, proposal, considered.
  cbn [fst snd].
  destruct (verify_dblock bk (dblock_checksum bk) <? 0); cbn; [done|].
  destruct (pd_lver bk <? pd_lver dblock); cbn; [done|].
  destruct (pd_lver bk >? pd_lver dblock); cbn; [done|].
  destruct (pd_mbal bk >? pd_mbal dblock); cbn; [done|].
  destruct (pd_inp bk =? 0); cbn; [done|].
  destruct (pd_bal bk =? 0); cbn; [done|].
  by destruct (pd_bal bk >? pd_bal bk_max).
Qed.

Lemma phase1_scan_spec dblock bks bk_max q_max :
  phase1_scan dblock bks bk_max q_max
  = match List.find (fun qb => contender dblock qb.2) bks with
    | Some qb => Abort (abort_code dblock qb.2)
    | None => Go (fold_left (track dblock) bks (bk_max, q_max))
    end.
Proof.
  revert bk_max q_max.
  induction bks as [|[q bk] bks IH]; intros bk_max q_max; [done|].
  cbn [phase1_scan List.find fold_left snd]. rewrite phase1_block_spec.
  destruct (contender dblock bk); [done|].
  destruct (track dblock (bk_max, q_max) (q, bk)) as [bm qm]. apply IH.
Qed.

Lemma fold_track_spec dblock bks best :
  let best' := fold_left (track dblock) bks best in
  pd_bal best.1 <= pd_bal best'.1
  /\ (best' = best
      \/ ((best'.2, best'.1) ∈ bks /\ proposal dblock best'.1 = true
          /\ pd_bal best.1 < pd_bal best'.1))
  /\ (forall q bk, (q, bk) ∈ bks -> proposal dblock bk = true ->
        pd_bal bk <= pd_bal best'.1).
Proof.
  revert best. induction bks as [|[q bk] bks IH]; intros best; cbn [fold_left].
  { cbv zeta. split; [lia|]. split; [by left|].
    intros q bk Hin. by apply elem_of_nil in Hin. }
  specialize (IH (track dblock best (q, bk))). cbv zeta in *.
  destruct IH as (Hle & Hbest & Hall).
  set (best' := fold_left (track dblock) bks (track dblock best (q, bk))) in *.
  assert (Hstep : pd_bal best.1 <= pd_bal (track dblock best (q, bk)).1
            /\ (proposal dblock bk = true ->
                pd_bal bk <= pd_bal (track dblock best (q, bk)).1)
            /\ (track dblock best (q, bk) = best
                \/ (track dblock best (q, bk) = (bk, q)
                    /\ proposal dblock bk = true
                    /\ pd_bal best.1 < pd_bal bk))).
  { unfold track. cbn [fst snd].
    destruct (proposal dblock bk); cbn [andb].
    - destruct (Z.gtb_spec (pd_bal bk) (pd_bal best.1)); cbn [fst snd].
      + split; [lia|]. split; [lia|]. right. done.
      + split; [lia|]. split; [lia|]. by left.
    - split; [lia|]. split; [done|]. by left. }
  destruct Hstep as (Hle1 & Hprop1 & Htrack).
  split; [lia|]. split.
  - destruct Hbest as [Heq|(Hin & Hp & Hlt)].
    + destruct Htrack as [Hsame|(Hnew & Hp & Hlt)].
      * left. congruence.
      * right. rewrite Heq, Hnew. cbn [fst snd].
        split; [apply elem_of_cons; by left|done].
    + right. split; [apply elem_of_cons; by right|]. split; [done|lia].
  - intros q' bk' Hin Hp. apply elem_of_cons in Hin as [[= -> ->]|Hin].
    + specialize (Hprop1 Hp). lia.
    + by eapply Hall.
Qed.

(** The proposal that is kept is the first of those with the largest
    bal: every proposal before it has a smaller one. *)
Lemma fold_track_first dblock bks best :
  let best' := fold_left (track dblock) bks best in
  best' = best
  \/ exists i,
       bks !! i = Some (best'.2, best'.1)
       /\ proposal dblock best'.1 = true
       /\ pd_bal best.1 < pd_bal best'.1
       /\ forall j q bk, (j < i)%nat -> bks !! j = Some (q, bk) ->
            proposal dblock bk = true -> pd_bal bk < pd_bal best'.1.
Proof.
  revert best. induction bks as [|[q bk] bks IH]; intros best; cbn [fold_left].
  { by left. }
  specialize (IH (track dblock best (q, bk))). cbv zeta in *.
  set (best' := fold_left (track dblock) bks (track dblock best (q, bk))) in *.
  assert (Hstep : pd_bal best.1 <= pd_bal (track dblock best (q, bk)).1
            /\ (proposal dblock bk = true ->
                pd_bal bk <= pd_bal (track dblock best (q, bk)).1)
            /\ (track dblock best (q, bk) = best
                \/ (track dblock best (q, bk) = (bk, q)
                    /\ proposal dblock bk = true
                    /\ pd_bal best.1 < pd_bal bk))).
  { unfold track. cbn [fst snd].
    destruct (proposal dblock bk); cbn [andb].
    - destruct (Z.gtb_spec (pd_bal bk) (pd_bal best.1)); cbn [fst snd].
      + split; [lia|]. split; [lia|]. right. done.
      + split; [lia|]. split; [lia|]. by left.
    - split; [lia|]. split; [done|]. by left. }
  destruct Hstep as (Hle1 & Hprop1 & Htrack).
  destruct IH as [Heq|(i & Hi & Hp & Hlt & Hbefore)].
  - destruct Htrack as [Hsame|(Hnew & Hp & Hlt)].
    + left. congruence.
    + right. exists 0%nat. rewrite Heq, Hnew. cbn [fst snd lookup].
      split; [done|]. split; [done|]. split; [done|].
      intros j q' bk' Hj. lia.
  - right. exists (S i). split; [done|]. split; [done|]. split; [lia|].
    intros [|j] q' bk' Hj Hlook Hp'; cbn in Hlook.
    + injection Hlook as <- <-. specialize (Hprop1 Hp'). lia.
    + apply (Hbefore j q' bk'); [lia|done|done].
Qed.

(** C1 (amended). In phase 1 of [run_ballot] the dblocks read back from a
    disk are examined in slot order, our own slot included.  A dblock
    that fails checksum verification or whose lver is smaller than ours
    is passed over, whatever its mbal.  The first remaining dblock with a
    larger lver, or with our lver and a larger mbal, ends the ballot, with
    DBLOCK_LVER in the first case and DBLOCK_MBAL in the second.  If
    there is none, bk_max is the first dblock with the largest bal among
    those with a non-zero inp and a non-zero bal (every such dblock
    before it has a smaller bal, every one after it none larger),
    provided that bal is above the one tracked so far (zero at the
    start).  The abort found by the read loop is what [run_ballot]
    returns. *)
Theorem phase1_aborts_on_first_contender_or_tracks_bk_max
    (dblock : paxos_dblock) (bks : list (Z * paxos_dblock)) :
  (forall q bk bk_max q_max,
     considered dblock bk = false ->
     phase1_block dblock q bk bk_max q_max = Go (bk_max, q_max))
  /\ match List.find (fun qb => contender dblock qb.2) bks with
     | Some (q, bk) =>
         phase1_scan dblock bks zero_dblock (-1)
         = Abort (if pd_lver bk >? pd_lver dblock
                  then SANLK_DBLOCK_LVER else SANLK_DBLOCK_MBAL)
     | None =>
         exists bk_max q_max,
           phase1_scan dblock bks zero_dblock (-1) = Go (bk_max, q_max)
           /\ (bk_max = zero_dblock /\ q_max = -1
               \/ exists i,
                    bks !! i = Some (q_max, bk_max)
                    /\ proposal dblock bk_max = true
                    /\ 0 < pd_bal bk_max
                    /\ forall j q bk, (j < i)%nat ->
                         bks !! j = Some (q, bk) ->
                         proposal dblock bk = true ->
                         pd_bal bk < pd_bal bk_max)
           /\ (forall q bk, (q, bk) ∈ bks -> proposal dblock bk = true ->
                 pd_bal bk <= pd_bal bk_max)
     end
  /\ (forall d ds num_hosts v w,
       default false (p1_iobuf v !! d) = true ->
       0 <= hd 0 (w_io w) ->
       bks = area_blocks (default zero_area (w_disks w !! d)) num_hosts ->
       forall e,
         phase1_scan dblock bks (p1_bk_max v) (p1_q_max v) = Abort e ->
         (phase1_read_loop (d :: ds) num_hosts dblock v w).1 = Abort e)
  /\ (forall flags num_hosts next_lver our_mbal dblock_out w w0 db nw w1 e w2,
       let ds := seq 0 (length (w_disks w)) in
       to_int (roundup_power_of_two (wrap32 (num_hosts + 2))
               * tk_sector_size (w_token w)) <> 0 ->
       ballot_alloc ds w = (0, w0) ->
       ballot_write_loop ds (mk_dblock our_mbal 0 0 0 0 next_lver 0 0) 0 w0
       = (db, nw, w1) ->
       majority_disks (Z.of_nat (length (w_disks w))) nw = true ->
       phase1_read_loop ds num_hosts db
         (mk_p1 (map (fun _ => true) ds) 0 zero_dblock (-1)) w1
       = (Abort e, w2) ->
       run_ballot flags num_hosts next_lver our_mbal dblock_out w
       = (e, db, w2)).
Proof.
  split; [|split; [|split]].
  - intros q bk bk_max q_max Hc. rewrite phase1_block_spec.
    unfold contender, track, proposal. cbn [fst snd]. by rewrite Hc.
  - rewrite phase1_scan_spec.
    destruct (List.find _ bks) as [[q bk]|]; [done|].
    pose proof (fold_track_spec dblock bks (zero_dblock, -1)) as Hf.
    pose proof (fold_track_first dblock bks (zero_dblock, -1)) as Hfirst.
    cbv zeta in Hf, Hfirst.
    destruct (fold_left (track dblock) bks (zero_dblock, -1)) as [bm qm].
    cbn [fst snd] in Hf, Hfirst. destruct Hf as (_ & _ & Hall).
    exists bm, qm. split; [done|]. split; [|done].
    destruct Hfirst as [[= -> ->]|(i & Hi & Hp & Hlt & Hbefore)];
      [by left|right].
    exists i. cbn in Hlt. done.
  - intros d ds num_hosts v w Hlive Hio -> e Hscan.
    cbn [phase1_read_loop]. rewrite Hlive. cbn [negb].
    assert (E : (hd 0 (w_io w) <? 0) = false) by lia.
    unfold bind, io_result, emit, disk_area, ret. cbn.
    rewrite E. cbn. by rewrite Hscan.
  - intros flags num_hosts next_lver our_mbal dblock_out w w0 db nw w1 e w2 ds
      Hlen Halloc Hwrite Hmaj Hread.
    unfold run_ballot, ballot_phase1, bind, get_token, num_disks.
    rewrite Nat2Z.id. fold ds.
    apply Z.eqb_neq in Hlen. rewrite Hlen, Halloc. cbn [negb Z.eqb].
    rewrite Hwrite, Hmaj. cbn [negb]. rewrite Hread.
    by rewrite ballot_out_eq.
Qed.

(** ** An acquire by the owner *)

Lemma issues_bind_l e {A B} (m : M A) (k : A -> M B) w :
  issues e m w -> (forall a, keeps trace_grows (k a)) -> issues e (bind m k) w.
Proof.
  intros (t & t0 & rv & Hm) Hk. unfold issues, bind.
  destruct (m w) as [a w1]. cbn in Hm. destruct (Hk a w1) as [t1 H1].
  exists (t1 ++ t), t0, rv. by rewrite H1, Hm, app_assoc.
Qed.

Lemma issues_bind_r e {A B} (m : M A) (k : A -> M B) w :
  keeps trace_grows m -> issues e (k (m w).1) (m w).2 -> issues e (bind m k) w.
Proof.
  intros Hm (t & t0 & rv & Hk). unfold issues, bind.
  destruct (Hm w) as [t1 H1]. destruct (m w) as [a w1]. cbn in *.
  exists t, (t0 ++ t1), rv. by rewrite Hk, H1, <- app_assoc.
Qed.

Lemma ballot_out_grows phase2 error dblock :
  keeps trace_grows (ballot_out phase2 error dblock).
Proof. unfold ballot_out. keeps_auto. Qed.
Hint Resolve ballot_out_grows : keeps.

Lemma ballot_phase2_grows ds n num_hosts dblock iobuf :
  keeps trace_grows (ballot_phase2 ds n num_hosts dblock iobuf).
Proof. unfold ballot_phase2. keeps_auto. Qed.
Hint Resolve ballot_phase2_grows : keeps.

Lemma ballot_phase1_grows ds n num_hosts dblock :
  keeps trace_grows (ballot_phase1 ds n num_hosts dblock).
Proof. unfold ballot_phase1. keeps_auto. Qed.
Hint Resolve ballot_phase1_grows : keeps.

Lemma run_ballot_grows flags num_hosts next_lver our_mbal dblock_out :
  keeps trace_grows (run_ballot flags num_hosts next_lver our_mbal dblock_out).
Proof. unfold run_ballot. keeps_auto. Qed.
Hint Resolve run_ballot_grows : keeps.

Lemma retry_delay_grows : keeps trace_grows retry_delay.
Proof. unfold retry_delay. keeps_auto. Qed.
Hint Resolve retry_delay_grows : keeps.

Lemma acquire_commit_grows args v : keeps trace_grows (acquire_commit args v).
Proof. unfold acquire_commit. keeps_auto. Qed.
Hint Resolve acquire_commit_grows : keeps.

Lemma acquire_ballot_grows args v next_lver our_mbal :
  keeps trace_grows (acquire_ballot args v next_lver our_mbal).
Proof. unfold acquire_ballot. keeps_auto. Qed.
Hint Resolve acquire_ballot_grows : keeps.

Lemma acquire_retry_ballot_grows args v copy_cur_leader next_lver our_mbal :
  keeps trace_grows
    (acquire_retry_ballot args v copy_cur_leader next_lver our_mbal).
Proof. unfold acquire_retry_ballot. keeps_auto. Qed.

Lemma acquire_restart_grows args v : keeps trace_grows (acquire_restart args v).
Proof.
  unfold acquire_restart, lockspace_disk, open_disks_fd, host_info.
  keeps_auto.
Qed.

Lemma acquire_skip_live_check_grows v wait_start last_timestamp hs :
  keeps trace_grows (acquire_skip_live_check v wait_start last_timestamp hs).
Proof. unfold acquire_skip_live_check, external_shutdown. keeps_auto. Qed.
Hint Resolve acquire_skip_live_check_grows : keeps.

Lemma acquire_wait_grows args v wait_start last_timestamp hs :
  keeps trace_grows (acquire_wait args v wait_start last_timestamp hs).
Proof. unfold acquire_wait, delta_lease_leader_read. keeps_auto. Qed.

Lemma acquire_run_grows v copy_cur_leader :
  keeps trace_grows (acquire_run v copy_cur_leader).
Proof. unfold acquire_run. keeps_auto. Qed.

Lemma acquire_step_grows args pc v : keeps trace_grows (acquire_step args pc v).
Proof.
  destruct pc; cbn [acquire_step];
    auto using acquire_restart_grows, acquire_wait_grows, acquire_run_grows,
      acquire_retry_ballot_grows.
  all: keeps_auto.
Qed.
Hint Resolve acquire_step_grows : keeps.

Lemma acquire_from_grows fuel args pc v :
  keeps trace_grows (acquire_from fuel args pc v).
Proof.
  revert pc v.
  induction fuel as [|fuel IH]; intros pc v; destruct pc; cbn [acquire_from];
    keeps_auto.
Qed.

(** The first write of a ballot. *)
Lemma write_dblock_issues d hid pd w :
  tk_sector_size (w_token w) <> 0 ->
  w_alloc w = [] ->
  issues (EvWriteDblock d (hid - 1) (set_pd_checksum (dblock_checksum pd) pd))
    (write_dblock d hid pd) w.
Proof.
  intros Hss Halloc. apply Z.eqb_neq in Hss.
  exists [], [], (hd 0 (w_io w)).
  unfold write_dblock, bind at 1, get_token.
  destruct (flag_set _ _).
  - unfold write_dblock_mblock_sh, bind at 1, get_token. rewrite Hss.
    unfold bind at 1, posix_memalign. rewrite Halloc. cbn [hd].
    change (negb (0 =? 0)) with false. cbn iota.
    unfold bind, io_result, emit, disk_area, put_area, ret. cbn.
    by destruct (hd 0 (w_io w) <? 0).
  - unfold bind, io_result, emit, disk_area, put_area, ret. cbn.
    by destruct (hd 0 (w_io w) <? 0).
Qed.

Lemma ballot_phase1_issues ds n num_hosts dblock w :
  tk_sector_size (w_token w) <> 0 ->
  w_alloc w = [] ->
  issues (EvWriteDblock 0 (host_id (w_token w) - 1)
            (set_pd_checksum (dblock_checksum dblock) dblock))
    (ballot_phase1 (0%nat :: ds) n num_hosts dblock) w.
Proof.
  intros Hss Halloc. unfold ballot_phase1.
  apply issues_bind_l; [|intros a; keeps_auto].
  cbn [ballot_write_loop].
  apply issues_bind_r; [keeps_auto|]. cbn [get_token fst snd].
  apply issues_bind_l; [by apply write_dblock_issues|intros a; keeps_auto].
Qed.

Lemma ballot_alloc_ok ds w : w_alloc w = [] -> ballot_alloc ds w = (0, w).
Proof.
  destruct w as [tk disks io alloc clock rand ls trace]. cbn. intros ->.
  induction ds as [|d ds IH]; [done|].
  cbn [ballot_alloc]. unfold bind, posix_memalign. cbn. exact IH.
Qed.

Lemma run_ballot_issues flags num_hosts next_lver our_mbal dblock_out w :
  tk_sector_size (w_token w) <> 0 ->
  w_alloc w = [] ->
  w_disks w <> [] ->
  to_int (roundup_power_of_two (wrap32 (num_hosts + 2))
          * tk_sector_size (w_token w)) <> 0 ->
  let dblock := mk_dblock our_mbal 0 0 0 0 next_lver 0 0 in
  issues (EvWriteDblock 0 (host_id (w_token w) - 1)
            (set_pd_checksum (dblock_checksum dblock) dblock))
    (run_ballot flags num_hosts next_lver our_mbal dblock_out) w.
Proof.
  intros Hss Halloc Hdisks Hlen dblock. unfold run_ballot.
  apply issues_bind_r; [keeps_auto|]. cbn [get_token fst snd].
  apply issues_bind_r; [keeps_auto|]. cbn [num_disks fst snd].
  apply Z.eqb_neq in Hlen. rewrite Hlen, Nat2Z.id.
  apply issues_bind_r; [keeps_auto|].
  rewrite ballot_alloc_ok by done. cbn [fst snd].
  change (negb (0 =? 0)) with false. cbn iota.
  destruct (length (w_disks w)) eqn:Hn; [by destruct (w_disks w)|].
  cbn [seq]. by apply ballot_phase1_issues.
Qed.

Lemma acquire_ballot_issues args v next_lver our_mbal w :
  tk_sector_size (w_token w) <> 0 ->
  w_alloc w = [] ->
  w_disks w <> [] ->
  to_int (roundup_power_of_two
            (wrap32 (to_int (lr_num_hosts (av_cur_leader v)) + 2))
          * tk_sector_size (w_token w)) <> 0 ->
  let dblock := mk_dblock our_mbal 0 0 0 0 next_lver 0 0 in
  issues (EvWriteDblock 0 (host_id (w_token w) - 1)
            (set_pd_checksum (dblock_checksum dblock) dblock))
    (acquire_ballot args v next_lver our_mbal) w.
Proof.
  intros Hss Halloc Hdisks Hlen dblock. unfold acquire_ballot.
  apply issues_bind_l; [by apply run_ballot_issues|].
  intros [error db]. keeps_auto.
Qed.

(** With the owner's own leader copied, [retry_ballot:] goes on to the
    ballot. *)
Lemma acquire_retry_ballot_copy args v next_lver our_mbal w :
  lr_lver (av_cur_leader v) < next_lver ->
  acquire_retry_ballot args v true next_lver our_mbal w
  = acquire_ballot args v next_lver our_mbal w.
Proof.
  intros Hlver. unfold acquire_retry_ballot, bind at 1 2, get_token, ret.
  change (0 <? 0) with false. cbn iota.
  destruct (Z.eqb_spec (lr_lver (av_cur_leader v)) next_lver); [lia|].
  destruct (Z.gtb_spec (lr_lver (av_cur_leader v)) next_lver); [lia|].
  by rewrite bool_decide_eq_true_2.
Qed.

(** The leader read at [restart:] is owned by the caller: on to [run:]
    without a look at the owner's delta lease. *)
Lemma acquire_restart_owner args v w rv bufs w1 :
  paxos_lease_read
    (mk_bufs (av_cur_leader v) zero_dblock (av_max_mbal v) (-1)) w
  = (rv, bufs, w1) ->
  0 <= rv ->
  lr_sector_size (b_leader bufs) = tk_sector_size (w_token w) ->
  (let align_size := leader_align_size_from_flag (lr_flags (b_leader bufs)) in
   if align_size =? 0
   then sector_size_to_align_size_old (lr_sector_size (b_leader bufs))
   else align_size) = tk_align_size (w_token w) ->
  a_acquire_lver args = 0 \/ a_acquire_lver args = lr_lver (b_leader bufs) ->
  is_local_owner (w_token w) (b_leader bufs) = true ->
  acquire_restart args v w
  = (PcRun true,
     mk_av (b_leader bufs) (b_max_mbal bufs) (av_dblock v) (av_disk_open v)
       (av_leader_ret v) (av_dblock_ret v), w1).
Proof.
  intros Hread Hrv Hss Halign Hlver Howner.
  pose proof (keeps_run same_token _ _ _ _
                (paxos_lease_read_keeps _ _) Hread) as Htok.
  unfold same_token in Htok.
  unfold acquire_restart, bind at 1. rewrite Hread. cbn beta iota.
  destruct (Z.ltb_spec rv 0); [lia|].
  unfold bind, get_token. cbv zeta in Halign |- *.
  rewrite Htok, Halign, Hss, !Z.eqb_refl. cbn [negb orb].
  destruct (flag_set _ _); [done|].
  assert (Hl : negb (a_acquire_lver args =? 0)
               && negb (lr_lver (b_leader bufs) =? a_acquire_lver args)
               = false).
  { destruct Hlver as [-> | ->]; [done|].
    rewrite Z.eqb_refl. apply andb_false_r. }
  rewrite Hl. destruct (_ =? LEASE_FREE); [done|]. by rewrite Howner.
Qed.

Lemma acquire_run_eq v copy_cur_leader w :
  lr_max_hosts (av_cur_leader v) <> 0 ->
  acquire_run v copy_cur_leader w
  = (PcRetryBallot copy_cur_leader (wrap64 (lr_lver (av_cur_leader v) + 1))
       (choose_our_mbal (av_max_mbal v) (lr_max_hosts (av_cur_leader v))
          (host_id (w_token w))), v, w).
Proof.
  intros Hmh. unfold acquire_run, bind, get_token, ret. cbn [fst snd].
  destruct (Z.eqb_spec (lr_max_hosts (av_cur_leader v)) 0); [done|].
  by rewrite andb_false_r.
Qed.


(** * Further properties of the lease engine *)

(** ** roundup_power_of_two *)

(** One step of the bit smearing: if the set bits of [y] are those with a
    set bit of [x] at most [s - 1] places above, then those of
    [y | y >> s] reach [2 s - 1] places. *)
Lemma smear_step (x y s : Z) :
  0 < s ->
  (forall n, 0 <= n ->
     Z.testbit y n = true
     <-> exists j, 0 <= j < s /\ Z.testbit x (n + j) = true) ->
  forall n, 0 <= n ->
    Z.testbit (Z.lor y (Z.shiftr y s)) n = true
    <-> exists j, 0 <= j < 2 * s /\ Z.testbit x (n + j) = true.
Proof.
  intros Hs Hy n Hn.
  rewrite Z.lor_spec, Z.shiftr_spec, orb_true_iff by lia.
  rewrite (Hy n) by lia. rewrite (Hy (n + s)) by lia.
  split.
  - intros [(j & Hj & Hb)|(j & Hj & Hb)].
    + exists j. split; [lia|done].
    + exists (s + j). split; [lia|].
      by replace (n + (s + j)) with (n + s + j) by lia.
  - intros (j & Hj & Hb). destruct (Z.lt_ge_cases j s).
    + left. exists j. split; [lia|done].
    + right. exists (j - s). split; [lia|].
      by replace (n + s + (j - s)) with (n + j) by lia.
Qed.

(** The five steps set every bit below the highest set bit. *)
Lemma smear_ones (x : Z) :
  0 < x < 2 ^ 32 ->
  let y := Z.lor x (Z.shiftr x 1) in
  let y := Z.lor y (Z.shiftr y 2) in
  let y := Z.lor y (Z.shiftr y 4) in
  let y := Z.lor y (Z.shiftr y 8) in
  let y := Z.lor y (Z.shiftr y 16) in
  y = Z.ones (Z.log2 x + 1).
Proof.
  intros Hx. cbv zeta.
  assert (Hlog : 0 <= Z.log2 x < 32).
  { split; [apply Z.log2_nonneg|]. apply Z.log2_lt_pow2; lia. }
  assert (H1 : forall n, 0 <= n ->
             Z.testbit x n = true
             <-> exists j, 0 <= j < 1 /\ Z.testbit x (n + j) = true).
  { intros n Hn. split.
    - intros Hb. exists 0. split; [lia|]. by rewrite Z.add_0_r.
    - intros (j & Hj & Hb). by replace n with (n + j) by lia. }
  pose proof (smear_step x _ 1 ltac:(lia) H1) as H2.
  pose proof (smear_step x _ 2 ltac:(lia) H2) as H4.
  pose proof (smear_step x _ 4 ltac:(lia) H4) as H8.
  pose proof (smear_step x _ 8 ltac:(lia) H8) as H16.
  pose proof (smear_step x _ 16 ltac:(lia) H16) as H32.
  apply Z.bits_inj'. intros n Hn.
  apply eq_true_iff_eq. rewrite (H32 n Hn).
  rewrite Z.testbit_ones_nonneg by lia.
  rewrite Z.ltb_lt. split.
  - intros (j & Hj & Hb).
    destruct (Z.lt_ge_cases n (Z.log2 x + 1)); [done|].
    rewrite Z.bits_above_log2 in Hb by lia. done.
  - intros Hlt. exists (Z.log2 x - n). split; [lia|].
    replace (n + (Z.log2 x - n)) with (Z.log2 x) by lia.
    apply Z.bit_log2. lia.
Qed.

Lemma roundup_power_of_two_smear (val : Z) :
  1 < val <= 2 ^ 32 ->
  roundup_power_of_two val = wrap32 (2 ^ (Z.log2 (val - 1) + 1)).
Proof.
  intros Hval. unfold roundup_power_of_two. cbv zeta.
  assert (E : wrap32 (val - 1) = val - 1) by (apply Z.mod_small; lia).
  rewrite E.
  pose proof (smear_ones (val - 1) ltac:(lia)) as Hs. cbv zeta in Hs.
  rewrite Hs, Z.ones_equiv. f_equal. lia.
Qed.

(** X1. [roundup_power_of_two] on an unsigned 32-bit value: for
    1 <= val <= 2^31 it returns the least power of two that is not below
    val (so less than 2 val), and it returns 0 for val = 0 and for every
    val above 2^31, where the power of two no longer fits. *)
Theorem roundup_power_of_two_least_power (val : Z) :
  0 <= val < 2 ^ 32 ->
  let r := roundup_power_of_two val in
  (val = 0 \/ 2 ^ 31 < val -> r = 0)
  /\ (1 <= val <= 2 ^ 31 ->
      r = 2 ^ Z.log2_up val /\ val <= r /\ r < 2 * val
      /\ forall k, 0 <= k -> val <= 2 ^ k -> r <= 2 ^ k).
Proof.
  intros Hrange r. split.
  - intros [->|Hbig]; [reflexivity|].
    unfold r. rewrite roundup_power_of_two_smear by lia.
    assert (Z.log2 (val - 1) = 31) as ->.
    { apply Z.log2_unique; lia. }
    reflexivity.
  - intros Hval. destruct (Z.eq_dec val 1) as [->|Hne].
    { split; [reflexivity|]. split; [by vm_compute|]. split; [by vm_compute|].
      intros k Hk _. change r with 1.
      pose proof (Z.pow_pos_nonneg 2 k ltac:(lia) Hk). lia. }
    assert (Hlog : 0 <= Z.log2 (val - 1) < 31).
    { split; [apply Z.log2_nonneg|]. apply Z.log2_lt_pow2; lia. }
    assert (Hup : Z.log2_up val = Z.log2 (val - 1) + 1).
    { rewrite Z.log2_up_eqn by lia. rewrite <- Z.sub_1_r. lia. }
    assert (Hr : r = 2 ^ Z.log2_up val).
    { unfold r. rewrite roundup_power_of_two_smear by lia. rewrite Hup.
      apply Z.mod_small. split; [apply Z.pow_nonneg; lia|].
      apply Z.pow_lt_mono_r; lia. }
    pose proof (Z.log2_up_spec val ltac:(lia)) as [Hlo Hhi].
    split; [done|]. rewrite Hr. split; [done|]. split.
    + replace (Z.log2_up val) with (Z.succ (Z.pred (Z.log2_up val))) by lia.
      rewrite Z.pow_succ_r by lia. lia.
    + intros k Hk Hle. apply Z.pow_le_mono_r; [lia|].
      apply Z.log2_up_le_pow2; lia.
Qed.

(** ** Verifying a leader *)

Lemma verify_leader_checks_pass token lr checksum :
  verify_leader_checks token lr checksum = None
  <-> lr_magic lr = PAXOS_DISK_MAGIC
      /\ Z.land (lr_version lr) 0xFFFF0000 = PAXOS_DISK_VERSION_MAJOR
      /\ lr_space_name lr = r_lockspace_name token
      /\ lr_resource_name lr = r_name token
      /\ host_id token <= lr_num_hosts lr
      /\ lr_checksum lr = checksum.
Proof.
  unfold verify_leader_checks.
  destruct (Z.eqb_spec (lr_magic lr) PAXOS_DISK_MAGIC); cbn [negb];
    [|split; [done|tauto]].
  destruct (Z.eqb_spec (Z.land (lr_version lr) 4294901760)
              PAXOS_DISK_VERSION_MAJOR); cbn [negb]; [|split; [done|tauto]].
  destruct (String.eqb_spec (lr_space_name lr) (r_lockspace_name token));
    cbn [negb]; [|split; [done|tauto]].
  destruct (String.eqb_spec (lr_resource_name lr) (r_name token));
    cbn [negb]; [|split; [done|tauto]].
  destruct (Z.ltb_spec (lr_num_hosts lr) (host_id token));
    [split; [done|lia]|].
  destruct (Z.eqb_spec (lr_checksum lr) checksum); cbn [negb];
    [|split; [done|tauto]].
  done.
Qed.

Lemma verify_leader_checks_fail token lr checksum code :
  verify_leader_checks token lr checksum = Some code -> code < 0.
Proof.
  pose proof (leader_codes_neg HC) as Hneg. rewrite Forall_forall in Hneg.
  unfold verify_leader_checks. intros Hchk. apply Hneg.
  repeat (match type of Hchk with
          | context [if ?b then _ else _] => destruct b
          end); first [discriminate | injection Hchk as <-; set_solver].
Qed.

(** X2. [_verify_leader] accepts a leader exactly when it is not cleared
    and its magic, major version, lockspace name, resource name and
    checksum are the expected ones and its num_hosts covers our host_id;
    every other leader gets a negative result.  The result does not
    depend on [print_error], which only adds a read for the log; the
    token and the disks are never changed, and without [print_error],
    for a cleared leader, or on success nothing at all is done. *)
Theorem verify_leader_accepts_exactly
    (d : nat) (lr : leader_record) (checksum : Z) (print_error : bool)
    (w : world) :
  let token := w_token w in
  let r := _verify_leader d lr checksum print_error w in
  (r.1 = SANLK_OK
   <-> lr_magic lr <> PAXOS_DISK_CLEAR
       /\ lr_magic lr = PAXOS_DISK_MAGIC
       /\ Z.land (lr_version lr) 0xFFFF0000 = PAXOS_DISK_VERSION_MAJOR
       /\ lr_space_name lr = r_lockspace_name token
       /\ lr_resource_name lr = r_name token
       /\ host_id token <= lr_num_hosts lr
       /\ lr_checksum lr = checksum)
  /\ (r.1 <> SANLK_OK -> r.1 < 0)
  /\ r.1 = (_verify_leader d lr checksum (negb print_error) w).1
  /\ w_token r.2 = w_token w
  /\ w_disks r.2 = w_disks w
  /\ (print_error = false \/ lr_magic lr = PAXOS_DISK_CLEAR \/ r.1 = SANLK_OK ->
      r.2 = w).
Proof.
  intros token r. subst r.
  pose proof (ok_nonneg HC) as Hok.
  pose proof (leader_codes_neg HC) as Hneg. rewrite Forall_forall in Hneg.
  assert (Hmagic : SANLK_LEADER_MAGIC < 0) by (apply Hneg; set_solver).
  unfold _verify_leader, bind, get_token, io_result, emit, ret. fold token.
  destruct (Z.eqb_spec (lr_magic lr) PAXOS_DISK_CLEAR) as [Hclear|Hclear].
  { cbn [fst snd]. split; [split; [lia|tauto]|]. split; [lia|]. done. }
  pose proof (verify_leader_checks_pass token lr checksum) as Hpass.
  destruct (verify_leader_checks token lr checksum) as [code|] eqn:Hchk.
  - apply verify_leader_checks_fail in Hchk.
    assert (Hno : ~ (lr_magic lr = PAXOS_DISK_MAGIC
                     /\ Z.land (lr_version lr) 4294901760
                        = PAXOS_DISK_VERSION_MAJOR
                     /\ lr_space_name lr = r_lockspace_name token
                     /\ lr_resource_name lr = r_name token
                     /\ host_id token <= lr_num_hosts lr
                     /\ lr_checksum lr = checksum)).
    { intros Hall. by apply Hpass in Hall. }
    destruct print_error; cbn [negb fst snd w_token w_disks];
      (split; [split; [lia|tauto]|]); (split; [lia|]);
      (split; [done|]); (split; [done|]); (split; [done|]);
      intros [?|[?|?]]; first [done | lia].
  - assert (Hall : lr_magic lr = PAXOS_DISK_MAGIC
                   /\ Z.land (lr_version lr) 4294901760
                      = PAXOS_DISK_VERSION_MAJOR
                   /\ lr_space_name lr = r_lockspace_name token
                   /\ lr_resource_name lr = r_name token
                   /\ host_id token <= lr_num_hosts lr
                   /\ lr_checksum lr = checksum) by by apply Hpass.
    cbn [fst snd]. split; [tauto|]. done.
Qed.

(** ** write_new_leader *)

Lemma last_cons_default {A} (x d : A) (l : list A) :
  List.last (x :: l) d = List.last l x.
Proof.
  revert x d. induction l as [|y l IH]; intros x d; [done|].
  change (List.last (x :: y :: l) d) with (List.last (y :: l) d).
  by rewrite !IH.
Qed.

Lemma write_leader_loop_cons d ds nl num_writes rv timeout w :
  let x0 := hd 0 (w_io w) in
  write_leader_loop (d :: ds) nl num_writes rv timeout w
  = write_leader_loop ds (seal nl)
      (if x0 <? 0 then num_writes else num_writes + 1) x0
      (if x0 =? SANLK_AIO_TIMEOUT then true else timeout)
      (write_leader d nl w).2.
Proof.
  cbv zeta. cbn [write_leader_loop]. unfold bind at 1.
  rewrite write_leader_eq. cbn [fst snd]. by destruct (hd 0 (w_io w) <? 0).
Qed.

(** What the write loop leaves in [rv] and [timeout]. *)
Lemma write_leader_loop_rv ds nl num_writes rv timeout w :
  let results := io_results (length ds) (w_io w) in
  let r := (write_leader_loop ds nl num_writes rv timeout w).1 in
  r.1.2 = List.last results rv
  /\ r.2 = timeout || existsb (fun x => x =? SANLK_AIO_TIMEOUT) results.
Proof.
  revert nl num_writes rv timeout w.
  induction ds as [|d ds IH]; intros nl num_writes rv timeout w.
  { cbn. by rewrite orb_false_r. }
  cbv zeta. rewrite write_leader_loop_cons. cbv zeta.
  cbn [length io_results].
  set (x0 := hd 0 (w_io w)).
  specialize (IH (seal nl) (if x0 <? 0 then num_writes else num_writes + 1)
                x0 (if x0 =? SANLK_AIO_TIMEOUT then true else timeout)
                (write_leader d nl w).2).
  cbv zeta in IH.
  assert (Hio : w_io (write_leader d nl w).2 = tl (w_io w)).
  { rewrite write_leader_eq. done. }
  rewrite Hio in IH. destruct IH as [-> ->]. split.
  - by rewrite last_cons_default.
  - cbn [existsb]. destruct (x0 =? SANLK_AIO_TIMEOUT), timeout; done.
Qed.

(** X3. [write_new_leader] returns SANLK_OK exactly when the writes that
    succeeded are a majority of the disks.  Otherwise the result is
    negative: SANLK_AIO_TIMEOUT if any write timed out, else the result
    of the last write when that one failed, else SANLK_LEADER_WRITE. *)
Theorem write_new_leader_result (nl : leader_record) (w : world) :
  let n := length (w_disks w) in
  let results := io_results n (w_io w) in
  let rv := (write_new_leader nl w).1.1 in
  rv = (if majority_disks (Z.of_nat n) (successes results) then SANLK_OK
        else if existsb (fun x => x =? SANLK_AIO_TIMEOUT) results
             then SANLK_AIO_TIMEOUT
             else if List.last results 0 <? 0 then List.last results 0
                  else SANLK_LEADER_WRITE)
  /\ (rv = SANLK_OK
      <-> majority_disks (Z.of_nat n) (successes results) = true)
  /\ (rv <> SANLK_OK -> rv < 0).
Proof.
  intros n results rv.
  pose proof (ok_nonneg HC). pose proof (aio_timeout_neg HC).
  pose proof (leader_write_neg HC).
  assert (Hrv : rv = (if majority_disks (Z.of_nat n) (successes results)
                      then SANLK_OK
                      else if existsb (fun x => x =? SANLK_AIO_TIMEOUT) results
                           then SANLK_AIO_TIMEOUT
                           else if List.last results 0 <? 0
                                then List.last results 0
                                else SANLK_LEADER_WRITE)).
  { unfold rv, write_new_leader, bind, num_disks. cbn beta iota.
    rewrite Nat2Z.id. fold n.
    pose proof (write_leader_loop_count (seq 0 n) nl 0 0 false w) as Hc.
    pose proof (write_leader_loop_rv (seq 0 n) nl 0 0 false w) as Hr.
    rewrite length_seq in Hc, Hr. cbv zeta in Hr. fold results in Hc, Hr.
    destruct (write_leader_loop (seq 0 n) nl 0 0 false w)
      as [[[[l0 nw] rv0] tmo] w2].
    cbn [fst snd] in Hc, Hr. destruct Hr as [-> ->]. subst nw.
    rewrite Z.add_0_l. cbn [orb].
    destruct (majority_disks _ _); cbn [negb]; [done|].
    destruct (existsb _ _); [done|]. by destruct (_ <? 0). }
  split; [done|]. rewrite Hrv.
  destruct (majority_disks _ _); [split; [done|intros []; done]|].
  destruct (existsb _ _); [split; [split; [lia|done]|lia]|].
  destruct (Z.ltb_spec (List.last results 0) 0);
    (split; [split; [lia|done]|lia]).
Qed.

(** ** A release by a host that did not write the leader *)

(** X4. When the leader that [paxos_lease_release] reads was written by
    another host, the release returns 0 without writing: the disks and
    the token are as before, and the caller's [leader_ret] is left
    alone. *)
Theorem release_by_other_writer_skips_write
    (resrename : option string) (leader_last : option leader_record)
    (leader_ret leader : leader_record) (rv : Z) (w w1 : world) :
  paxos_lease_leader_read zero_leader w = (rv, leader, w1) ->
  0 <= rv ->
  lr_write_id leader <> host_id (w_token w) ->
  paxos_lease_release resrename leader_last leader_ret w = (0, leader_ret, w1)
  /\ w_disks w1 = w_disks w
  /\ w_token w1 = w_token w.
Proof.
  intros Hread Hrv Hwid.
  pose proof (keeps_run same_token _ _ _ _
                (paxos_lease_leader_read_keeps _ zero_leader) Hread) as Htok.
  pose proof (keeps_run same_disks _ _ _ _
                (paxos_lease_leader_read_keeps _ zero_leader) Hread) as Hdisks.
  split; [|done].
  unfold paxos_lease_release, bind, get_token. cbn beta iota.
  rewrite Hread. cbn beta iota.
  destruct (Z.ltb_spec rv 0); [lia|].
  unfold release_checks.
  by destruct (Z.eqb_spec (lr_write_id leader) (host_id (w_token w))).
Qed.

(** ** The next lver committed by someone else *)

(** X5. When [retry_ballot:] re-reads the leader and finds it at
    next_lver, another host has committed that lver: the acquire runs no
    ballot and writes nothing.  It returns SANLK_OK with that leader and
    our dblock if the leader names the caller (host_id and generation) as
    owner, and SANLK_ACQUIRE_OWNED with that leader otherwise. *)
Theorem retry_ballot_finds_lver_committed
    (fuel : nat) (args : acq_args) (v : acq_vars) (next_lver our_mbal : Z)
    (w w1 : world) (rv : Z) (tmp_leader : leader_record) :
  paxos_lease_leader_read zero_leader w = (rv, tmp_leader, w1) ->
  0 <= rv ->
  lr_lver tmp_leader = next_lver ->
  acquire_from (S fuel) args (PcRetryBallot false next_lver our_mbal) v w
  = (Some (if is_local_owner (w_token w) tmp_leader
           then (SANLK_OK, tmp_leader, av_dblock v)
           else (SANLK_ACQUIRE_OWNED, tmp_leader, av_dblock_ret v)), w1)
  /\ w_disks w1 = w_disks w
  /\ w_token w1 = w_token w.
Proof.
  intros Hread Hrv Hlver.
  pose proof (keeps_run same_token _ _ _ _
                (paxos_lease_leader_read_keeps _ zero_leader) Hread) as Htok.
  pose proof (keeps_run same_disks _ _ _ _
                (paxos_lease_leader_read_keeps _ zero_leader) Hread) as Hdisks.
  split; [|done].
  cbn [acquire_from acquire_step]. unfold bind at 1.
  unfold acquire_retry_ballot, bind at 1, get_token.
  unfold bind at 1. rewrite Hread.
  destruct (Z.ltb_spec rv 0); [lia|].
  destruct (Z.eqb_spec (lr_lver tmp_leader) next_lver); [|done].
  destruct (is_local_owner _ _); unfold ret; cbn; by destruct fuel.
Qed.

(** ** The two phases abort alike *)

Lemma phase2_scan_spec dblock bks :
  phase2_scan dblock bks
  = match List.find (fun qb => contender dblock qb.2) bks with
    | Some qb => Abort (abort_code dblock qb.2)
    | None => Go tt
    end.
Proof.
  induction bks as [|[q bk] bks IH]; [done|].
  cbn [phase2_scan List.find snd]. rewrite IH. clear IH.
  unfold phase2_block, contender, considered, abort_code.
  destruct (verify_dblock bk (dblock_checksum bk) <? 0); [done|].
  destruct (pd_lver bk <? pd_lver dblock) eqn:Hlt; [done|]. cbn [negb andb].
  destruct (pd_lver bk >? pd_lver dblock) eqn:Hgt; cbn [orb snd];
    [by rewrite Hgt|].
  destruct (pd_mbal bk >? pd_mbal dblock); cbn [snd]; [by rewrite Hgt|done].
Qed.

(** X6. The read loops of phase 1 and phase 2 abort on the same dblocks:
    scanning the dblocks of a disk, phase 2 ends the ballot with an error
    exactly when phase 1 would, whatever phase 1 has tracked so far, and
    the error is that of the first dblock that verifies and has a larger
    lver than ours (DBLOCK_LVER) or our lver and a larger mbal
    (DBLOCK_MBAL). *)
Theorem phase2_aborts_like_phase1
    (dblock : paxos_dblock) (bks : list (Z * paxos_dblock))
    (bk_max : paxos_dblock) (q_max : Z) (e : Z) :
  (phase2_scan dblock bks = Abort e
   <-> phase1_scan dblock bks bk_max q_max = Abort e)
  /\ (phase2_scan dblock bks = Abort e ->
      exists q bk,
        List.find (fun qb => contender dblock qb.2) bks = Some (q, bk)
        /\ verify_dblock bk (dblock_checksum bk) = SANLK_OK
        /\ (pd_lver dblock < pd_lver bk /\ e = SANLK_DBLOCK_LVER
            \/ pd_lver bk = pd_lver dblock /\ pd_mbal dblock < pd_mbal bk
               /\ e = SANLK_DBLOCK_MBAL)).
Proof.
  rewrite phase2_scan_spec, phase1_scan_spec.
  destruct (List.find _ bks) as [[q bk]|] eqn:Hfind;
    [|split; [split; discriminate|discriminate]].
  split; [split; intros [= <-]; reflexivity|].
  intros [= <-]. exists q, bk. split; [done|].
  apply find_some in Hfind as [_ Hc]. cbn in Hc.
  unfold contender, considered in Hc. unfold abort_code. cbn [snd].
  pose proof (dblock_checksum_neg HC) as Hneg.
  assert (Hv : verify_dblock bk (dblock_checksum bk) = SANLK_OK).
  { assert (Hcases : verify_dblock bk (dblock_checksum bk) = SANLK_OK
                     \/ verify_dblock bk (dblock_checksum bk)
                        = SANLK_DBLOCK_CHECKSUM).
    { unfold verify_dblock. repeat case_match; auto. }
    destruct Hcases as [Hv|Hv]; [done|]. rewrite Hv in Hc.
    by destruct (Z.ltb_spec SANLK_DBLOCK_CHECKSUM 0); [|lia]. }
  split; [done|].
  destruct (Z.ltb_spec (verify_dblock bk (dblock_checksum bk)) 0); [done|].
  destruct (Z.ltb_spec (pd_lver bk) (pd_lver dblock)); [done|].
  cbn [negb andb] in Hc.
  destruct (Z.gtb_spec (pd_lver bk) (pd_lver dblock)); [left; lia|].
  cbn [orb] in Hc.
  destruct (Z.gtb_spec (pd_mbal bk) (pd_mbal dblock)); [|done].
  right. lia.
Qed.

(** ** What the lease engine leaves alone *)

#[local] Instance same_host_frame : Frame same_host.
Proof.
  split; unfold keeps, same_host.
  1: by intros w.
  1: intros a b c [? ?] [? ?]; split; congruence.
  all: by intros.
Qed.
#[local] Instance same_host_write_frame : WriteFrame same_host.
Proof. split; [tc_solve|]. by intros. Qed.

#[local] Instance same_leaders_frame : Frame same_leaders.
Proof.
  split; unfold keeps, same_leaders.
  1: by intros w.
  1: { intros a b c [Hl1 H1] [Hl2 H2]. split; [congruence|].
       intros d. by rewrite H2, H1. }
  all: by intros.
Qed.

#[local] Instance same_sectors_frame : Frame same_sectors.
Proof.
  split; unfold keeps, same_sectors.
  1: by intros w.
  1: { intros a b c [Hl1 H1] [Hl2 H2]. split; [congruence|].
       intros d q. by rewrite H2, H1. }
  all: by intros.
Qed.

#[local] Instance others_sectors_kept_frame : Frame others_sectors_kept.
Proof.
  split; unfold keeps, others_sectors_kept, same_host.
  1: by intros w.
  1: { intros a b c ([Hh1 Hg1] & Hl1 & H1) ([Hh2 Hg2] & Hl2 & H2).
       split; [split; congruence|]. split; [congruence|].
       intros d q Hq. rewrite H2 by congruence. by apply H1. }
  all: by intros.
Qed.

Lemma keeps_get_token_bind R {A} (k : token -> M A) :
  (forall t, keeps_when (fun w => w_token w = t) R (k t)) ->
  keeps R (bind get_token k).
Proof. intros Hk w. by apply (Hk (w_token w) w). Qed.

Lemma keeps_when_bind P R `{!Transitive R} {A B} (m : M A) (k : A -> M B) :
  keeps_when P R m -> (forall a, keeps R (k a)) -> keeps_when P R (bind m k).
Proof.
  intros Hm Hk w HP. unfold bind. specialize (Hm w HP).
  destruct (m w) as [a w1]. cbn in Hm. etrans; [exact Hm|apply Hk].
Qed.

Lemma keeps_when_weaken P R {A} (m : M A) : keeps R m -> keeps_when P R m.
Proof. intros Hm w _. apply Hm. Qed.

(** Looking an area up after [put_area]. *)
Lemma insert_area_lookup (l : list lease_area) (d d' : nat) (a : lease_area) :
  default zero_area (<[d := a]> l !! d')
  = if bool_decide (d = d' /\ (d < length l)%nat) then a
    else default zero_area (l !! d').
Proof.
  case_bool_decide as Hc.
  - destruct Hc as [-> Hlt]. by rewrite list_lookup_insert_eq.
  - destruct (decide (d = d')) as [->|Hne].
    + rewrite list_insert_ge; [done|]. lia.
    + by rewrite list_lookup_insert_ne.
Qed.

(** What a dblock write does to the world, whichever of the two ways it
    goes: nothing to the token, and to the disks nothing or the sector
    of the slot on that disk. *)
Lemma write_dblock_disks d hid pd w :
  let w' := (write_dblock d hid pd w).2 in
  let a := default zero_area (w_disks w !! d) in
  w_token w' = w_token w
  /\ (w_disks w' = w_disks w
      \/ exists s,
           w_disks w'
           = <[d := mk_area (la_leader a) (<[hid - 1 := s]> (la_sectors a))]>
               (w_disks w)).
Proof.
  cbv zeta. destruct (write_dblock d hid pd w) as [r w'] eqn:Hw.
  cbn [snd]. revert Hw. unfold write_dblock, bind at 1, get_token.
  destruct (flag_set _ _).
  - unfold write_dblock_mblock_sh, bind at 1, get_token.
    destruct (tk_sector_size (w_token w) =? 0);
      [unfold ret; intros [= _ <-]; by split; [|left]|].
    unfold bind at 1, posix_memalign.
    destruct (negb _); [unfold ret; intros [= _ <-]; by split; [|left]|].
    unfold bind, io_result, emit, disk_area, put_area, ret. cbn.
    destruct (hd 0 (w_io w) <? 0); intros [= _ <-]; cbn;
      (split; [done|]); [by left|].
    right. by eexists.
  - unfold bind, io_result, emit, disk_area, put_area, ret. cbn.
    destruct (hd 0 (w_io w) <? 0); intros [= _ <-]; cbn;
      (split; [done|]); [by left|].
    right. by eexists.
Qed.

Lemma write_dblock_same_leaders d hid pd :
  keeps same_leaders (write_dblock d hid pd).
Proof.
  intros w. destruct (write_dblock_disks d hid pd w) as [_ [Heq|[s Heq]]];
    unfold same_leaders, disk_leader; cbn [snd]; rewrite Heq; [done|].
  split; [apply length_insert|]. intros d'.
  rewrite insert_area_lookup. by case_bool_decide as Hc; [destruct Hc as [-> _]|].
Qed.

Lemma write_dblock_others_kept d t pd :
  keeps_when (fun w => w_token w = t) others_sectors_kept
    (write_dblock d (host_id t) pd).
Proof.
  intros w <-.
  destruct (write_dblock_disks d (host_id (w_token w)) pd w)
    as [Htok [Heq|[s Heq]]];
    unfold others_sectors_kept, same_host, disk_sector; cbn [snd];
    rewrite Htok, Heq; [done|].
  split; [done|]. split; [apply length_insert|]. intros d' q Hq.
  rewrite insert_area_lookup. case_bool_decide as Hc; [|done].
  destruct Hc as [-> _]. unfold area_sector. cbn [la_sectors].
  by rewrite lookup_insert_ne.
Qed.

Lemma write_leader_same_sectors d lr : keeps same_sectors (write_leader d lr).
Proof.
  intros w. rewrite write_leader_eq. unfold same_sectors, disk_sector.
  cbn [snd w_disks]. destruct (hd 0 (w_io w) <? 0); [done|].
  split; [apply length_insert|]. intros d' q.
  rewrite insert_area_lookup. by case_bool_decide as Hc; [destruct Hc as [-> _]|].
Qed.

Lemma write_leader_others_kept d lr :
  keeps others_sectors_kept (write_leader d lr).
Proof.
  intros w. destruct (write_leader_same_sectors d lr w) as [Hlen Hsec].
  split; [|split; [done|]].
  - by rewrite write_leader_eq.
  - intros d' q _. apply Hsec.
Qed.

Lemma put_token_same_leaders t : keeps same_leaders (put_token t).
Proof. by intros w. Qed.

Lemma put_token_same_sectors t : keeps same_sectors (put_token t).
Proof. by intros w. Qed.

Lemma put_token_same_disks t : keeps same_disks (put_token t).
Proof. by intros w. Qed.

Lemma put_flags_others_kept x t :
  keeps_when (fun w => w_token w = t) others_sectors_kept
    (put_token (set_tk_flags x t)).
Proof. by intros w <-. Qed.

Lemma put_sizes_others_kept ss al t :
  keeps_when (fun w => w_token w = t) others_sectors_kept
    (put_token (set_tk_sizes ss al t)).
Proof. by intros w <-. Qed.

Hint Resolve write_dblock_same_leaders write_dblock_others_kept
  write_leader_same_sectors write_leader_others_kept put_token_same_leaders
  put_token_same_sectors put_token_same_disks put_flags_others_kept
  put_sizes_others_kept same_host_frame same_leaders_frame
  same_sectors_frame others_sectors_kept_frame : keeps.

(** [keeps_auto] with the token that [get_token] returned kept in
    view. *)
Ltac keeps_more :=
  repeat first
    [ by auto with keeps
    | match goal with
      | |- keeps _ (bind get_token _) =>
          apply keeps_get_token_bind; intros ?
      | |- keeps _ (let _ := _ in _) => cbv zeta
      | |- keeps_when _ _ (let _ := _ in _) => cbv zeta
      end
    | keeps_step
    | match goal with
      | |- keeps_when _ _ (bind _ _) =>
          apply keeps_when_bind; [tc_solve| |intros ?]
      | |- keeps_when _ _ (if ?b then _ else _) => destruct b
      | |- keeps_when _ _ (match ?x with _ => _ end) => destruct x
      | |- keeps_when _ _ _ => apply keeps_when_weaken
      end ].

Section BallotFrame.
Context (R : world -> world -> Prop) `{!Frame R}.
Context (Hwrite : forall d t pd,
            keeps_when (fun w => w_token w = t) R
              (write_dblock d (host_id t) pd)).
Context (Hflags : forall x t,
            keeps_when (fun w => w_token w = t) R
              (put_token (set_tk_flags x t))).

Lemma ballot_write_loop_frame ds dblock num_writes :
  keeps R (ballot_write_loop ds dblock num_writes).
Proof.
  revert dblock num_writes.
  induction ds as [|d ds IH]; intros; cbn [ballot_write_loop]; keeps_more.
Qed.
Hint Resolve ballot_write_loop_frame : keeps.

Lemma ballot_out_frame phase2 error dblock :
  keeps R (ballot_out phase2 error dblock).
Proof. unfold ballot_out. keeps_more. Qed.
Hint Resolve ballot_out_frame : keeps.

Lemma ballot_phase2_frame ds n num_hosts dblock iobuf :
  keeps R (ballot_phase2 ds n num_hosts dblock iobuf).
Proof. unfold ballot_phase2. keeps_more. Qed.
Hint Resolve ballot_phase2_frame : keeps.

Lemma ballot_phase1_frame ds n num_hosts dblock :
  keeps R (ballot_phase1 ds n num_hosts dblock).
Proof. unfold ballot_phase1. keeps_more. Qed.
Hint Resolve ballot_phase1_frame : keeps.

Lemma run_ballot_frame flags num_hosts next_lver our_mbal dblock_out :
  keeps R (run_ballot flags num_hosts next_lver our_mbal dblock_out).
Proof. unfold run_ballot. keeps_more. Qed.

End BallotFrame.

Lemma write_dblock_when_same_leaders d t pd :
  keeps_when (fun w => w_token w = t) same_leaders
    (write_dblock d (host_id t) pd).
Proof. apply keeps_when_weaken, write_dblock_same_leaders. Qed.

Lemma put_flags_when_same_leaders x t :
  keeps_when (fun w => w_token w = t) same_leaders
    (put_token (set_tk_flags x t)).
Proof. apply keeps_when_weaken, put_token_same_leaders. Qed.

(** X7. [run_ballot] writes nothing but the caller's own dblock sector:
    on every disk the leader and the dblock sectors of all other hosts
    are as before, there are as many disks as before, and the token still
    names the same host. *)
Theorem run_ballot_writes_only_own_dblock
    (flags num_hosts next_lver our_mbal : Z) (dblock_out : paxos_dblock)
    (w : world) :
  let w' := (run_ballot flags num_hosts next_lver our_mbal dblock_out w).2 in
  length (w_disks w') = length (w_disks w)
  /\ (forall d, disk_leader w' d = disk_leader w d)
  /\ (forall d q, q <> host_id (w_token w) - 1 ->
        disk_sector w' d q = disk_sector w d q)
  /\ host_id (w_token w') = host_id (w_token w)
  /\ host_generation (w_token w') = host_generation (w_token w).
Proof.
  cbv zeta.
  destruct (run_ballot_frame same_leaders write_dblock_when_same_leaders
              put_flags_when_same_leaders flags num_hosts next_lver our_mbal
              dblock_out w) as [Hlen Hleaders].
  destruct (run_ballot_frame others_sectors_kept write_dblock_others_kept
              put_flags_others_kept flags num_hosts next_lver our_mbal
              dblock_out w) as ([Hhost Hgen] & _ & Hsectors).
  done.
Qed.

Section LeaderFrame.
Context (R : world -> world -> Prop) `{!Frame R}.
Context (Hleader : forall d lr, keeps R (write_leader d lr)).

Lemma write_leader_loop_frame ds nl num_writes rv timeout :
  keeps R (write_leader_loop ds nl num_writes rv timeout).
Proof.
  revert nl num_writes rv timeout.
  induction ds as [|d ds IH]; intros; cbn [write_leader_loop]; keeps_more.
Qed.
Hint Resolve write_leader_loop_frame : keeps.

Lemma write_new_leader_frame nl : keeps R (write_new_leader nl).
Proof. unfold write_new_leader. keeps_more. Qed.
Hint Resolve write_new_leader_frame : keeps.

Lemma paxos_lease_release_frame resrename leader_last leader_ret :
  keeps R (paxos_lease_release resrename leader_last leader_ret).
Proof. unfold paxos_lease_release. keeps_more. Qed.

End LeaderFrame.

Section WaitFrame.
Context (R : world -> world -> Prop) `{!Frame R}.
Context (Hsizes : forall ss al t,
            keeps_when (fun w => w_token w = t) R
              (put_token (set_tk_sizes ss al t))).

Lemma acquire_restart_frame args v : keeps R (acquire_restart args v).
Proof.
  unfold acquire_restart, lockspace_disk, open_disks_fd, host_info.
  keeps_more.
Qed.

Lemma acquire_skip_live_check_frame v wait_start last_timestamp hs :
  keeps R (acquire_skip_live_check v wait_start last_timestamp hs).
Proof. unfold acquire_skip_live_check, external_shutdown. keeps_more. Qed.
Hint Resolve acquire_skip_live_check_frame : keeps.

Lemma acquire_wait_frame args v wait_start last_timestamp hs :
  keeps R (acquire_wait args v wait_start last_timestamp hs).
Proof. unfold acquire_wait, delta_lease_leader_read. keeps_more. Qed.

Lemma acquire_run_frame v copy_cur_leader :
  keeps R (acquire_run v copy_cur_leader).
Proof. unfold acquire_run. keeps_more. Qed.

End WaitFrame.

Section AcquireFrame.
Context (R : world -> world -> Prop) `{!Frame R}.
Context (Hwrite : forall d t pd,
            keeps_when (fun w => w_token w = t) R
              (write_dblock d (host_id t) pd)).
Context (Hflags : forall x t,
            keeps_when (fun w => w_token w = t) R
              (put_token (set_tk_flags x t))).
Context (Hsizes : forall ss al t,
            keeps_when (fun w => w_token w = t) R
              (put_token (set_tk_sizes ss al t))).
Context (Hleader : forall d lr, keeps R (write_leader d lr)).

Lemma retry_delay_frame : keeps R retry_delay.
Proof. unfold retry_delay. keeps_more. Qed.
Hint Resolve retry_delay_frame : keeps.

Lemma acquire_commit_frame args v : keeps R (acquire_commit args v).
Proof.
  pose proof (write_new_leader_frame R Hleader).
  unfold acquire_commit. keeps_more.
Qed.
Hint Resolve acquire_commit_frame : keeps.

Lemma acquire_ballot_frame args v next_lver our_mbal :
  keeps R (acquire_ballot args v next_lver our_mbal).
Proof.
  pose proof (run_ballot_frame R Hwrite Hflags).
  unfold acquire_ballot. keeps_more.
Qed.
Hint Resolve acquire_ballot_frame : keeps.

Lemma acquire_retry_ballot_frame args v copy_cur_leader next_lver our_mbal :
  keeps R (acquire_retry_ballot args v copy_cur_leader next_lver our_mbal).
Proof. unfold acquire_retry_ballot. keeps_more. Qed.

Lemma acquire_step_frame args pc v : keeps R (acquire_step args pc v).
Proof.
  destruct pc; cbn [acquire_step];
    auto using acquire_restart_frame, acquire_wait_frame, acquire_run_frame,
      acquire_retry_ballot_frame.
  all: keeps_more.
Qed.
Hint Resolve acquire_step_frame : keeps.

Lemma acquire_from_frame fuel args pc v :
  keeps R (acquire_from fuel args pc v).
Proof.
  revert pc v.
  induction fuel as [|fuel IH]; intros pc v; destruct pc; cbn [acquire_from];
    keeps_more.
Qed.
Hint Resolve acquire_from_frame : keeps.

Lemma paxos_lease_acquire_frame fuel args leader_ret dblock_ret :
  keeps R (paxos_lease_acquire fuel args leader_ret dblock_ret).
Proof. unfold paxos_lease_acquire. keeps_more. Qed.

End AcquireFrame.

(** X8. [paxos_lease_acquire], however it ends and however often it
    restarts or retries, never writes the dblock sector of another host:
    on every disk all sectors but the caller's own are as before, and the
    token still names the same host and generation. *)
Theorem acquire_never_writes_other_dblocks
    (fuel : nat) (args : acq_args) (leader_ret : leader_record)
    (dblock_ret : paxos_dblock) (w : world) :
  let w' := (paxos_lease_acquire fuel args leader_ret dblock_ret w).2 in
  host_id (w_token w') = host_id (w_token w)
  /\ host_generation (w_token w') = host_generation (w_token w)
  /\ length (w_disks w') = length (w_disks w)
  /\ (forall d q, q <> host_id (w_token w) - 1 ->
        disk_sector w' d q = disk_sector w d q).
Proof.
  cbv zeta.
  destruct (paxos_lease_acquire_frame others_sectors_kept
              write_dblock_others_kept put_flags_others_kept
              put_sizes_others_kept write_leader_others_kept
              fuel args leader_ret dblock_ret w) as ([Hhost Hgen] & Hlen & Hsec).
  done.
Qed.

(** X9. [paxos_lease_release] writes nothing but leaders: on every disk
    all dblock sectors are as before, and so is the token. *)
Theorem release_writes_only_leaders
    (resrename : option string) (leader_last : option leader_record)
    (leader_ret : leader_record) (w : world) :
  let w' := (paxos_lease_release resrename leader_last leader_ret w).2 in
  w_token w' = w_token w
  /\ length (w_disks w') = length (w_disks w)
  /\ (forall d q, disk_sector w' d q = disk_sector w d q).
Proof.
  cbv zeta. split.
  - apply (paxos_lease_release_frame same_token
             (write_leader_keeps same_token)).
  - apply (paxos_lease_release_frame same_sectors write_leader_same_sectors).
Qed.

(** X10. Reading changes neither the disks nor the token:
    [paxos_lease_read], [paxos_lease_leader_read] and [read_dblock]
    leave both exactly as they were, whatever they return. *)
Theorem reads_change_nothing
    (bufs : lease_bufs) (leader_ret : leader_record) (d : nat) (hid : Z)
    (w : world) :
  (w_disks (paxos_lease_read bufs w).2 = w_disks w
   /\ w_token (paxos_lease_read bufs w).2 = w_token w)
  /\ (w_disks (paxos_lease_leader_read leader_ret w).2 = w_disks w
      /\ w_token (paxos_lease_leader_read leader_ret w).2 = w_token w)
  /\ (w_disks (read_dblock d hid w).2 = w_disks w
      /\ w_token (read_dblock d hid w).2 = w_token w).
Proof.
  split; [split|split; [split|split]].
  - apply (paxos_lease_read_keeps same_disks).
  - apply (paxos_lease_read_keeps same_token).
  - apply (paxos_lease_leader_read_keeps same_disks).
  - apply (paxos_lease_leader_read_keeps same_token).
  - apply (read_dblock_keeps same_disks).
  - apply (read_dblock_keeps same_token).
Qed.

Lemma put_sizes_when_same_disks ss al t :
  keeps_when (fun w => w_token w = t) same_disks
    (put_token (set_tk_sizes ss al t)).
Proof. apply keeps_when_weaken, put_token_same_disks. Qed.

(** X11. Up to [run:] an acquire only reads: the pass from [restart:]
    and every pass through the loop that waits for the owner to die
    leave the disks exactly as they were, and at [run:] nothing is done
    to the world at all. *)
Theorem acquire_reads_until_run
    (args : acq_args) (v : acq_vars) (wait_start last_timestamp : Z)
    (hs : host_status) (copy_cur_leader : bool) (w : world) :
  w_disks (acquire_step args PcRestart v w).2 = w_disks w
  /\ w_disks (acquire_step args (PcWait wait_start last_timestamp hs) v w).2
     = w_disks w
  /\ (acquire_step args (PcRun copy_cur_leader) v w).2 = w.
Proof.
  split; [|split].
  - apply (acquire_restart_frame same_disks put_sizes_when_same_disks).
  - apply (acquire_wait_frame same_disks).
  - cbn [acquire_step]. unfold acquire_run, bind, get_token, ret.
    cbn [fst snd]. by destruct (_ && _).
Qed.

(** ** Writing a dblock and reading it back *)

(** A dblock write that did not fail has put the dblock, with its
    checksum, in the slot's sector. *)
Lemma write_dblock_ok d hid pd w rv pd' w' :
  0 < ENOMEM ->
  write_dblock d hid pd w = (rv, pd', w') ->
  0 <= rv ->
  let a := default zero_area (w_disks w !! d) in
  rv = hd 0 (w_io w)
  /\ pd' = set_pd_checksum (dblock_checksum pd) pd
  /\ w_token w' = w_token w
  /\ w_io w' = tl (w_io w)
  /\ exists mb,
       w_disks w'
       = <[d := mk_area (la_leader a)
                  (<[hid - 1 := mk_sector pd' mb]> (la_sectors a))]>
           (w_disks w).
Proof.
  intros Hnomem Hw Hrv. cbv zeta. pose proof (einval_pos HC).
  revert Hw. unfold write_dblock, bind at 1, get_token.
  destruct (flag_set _ _).
  - unfold write_dblock_mblock_sh, bind at 1, get_token.
    destruct (tk_sector_size (w_token w) =? 0);
      [unfold ret; intros [= <- _ _]; lia|].
    unfold bind at 1, posix_memalign.
    destruct (negb _); [unfold ret; intros [= <- _ _]; lia|].
    unfold bind, io_result, emit, disk_area, put_area, ret. cbn.
    destruct (Z.ltb_spec (hd 0 (w_io w)) 0); intros [= <- <- <-]; [lia|].
    cbn. repeat split; try done. by eexists.
  - unfold bind, io_result, emit, disk_area, put_area, ret. cbn.
    destruct (Z.ltb_spec (hd 0 (w_io w)) 0); intros [= <- <- <-]; [lia|].
    cbn. repeat split; try done. by eexists.
Qed.

(** A dblock write that failed has left the disks alone. *)
Lemma write_dblock_failed d hid pd w rv pd' w' :
  write_dblock d hid pd w = (rv, pd', w') ->
  rv < 0 ->
  w_disks w' = w_disks w /\ w_token w' = w_token w.
Proof.
  intros Hw Hrv. revert Hw. unfold write_dblock, bind at 1, get_token.
  destruct (flag_set _ _).
  - unfold write_dblock_mblock_sh, bind at 1, get_token.
    destruct (tk_sector_size (w_token w) =? 0);
      [unfold ret; by intros [= _ _ <-]|].
    unfold bind at 1, posix_memalign.
    destruct (negb _); [unfold ret; by intros [= _ _ <-]|].
    unfold bind, io_result, emit, disk_area, put_area, ret. cbn.
    destruct (Z.ltb_spec (hd 0 (w_io w)) 0); intros [= <- _ <-]; [done|lia].
  - unfold bind, io_result, emit, disk_area, put_area, ret. cbn.
    destruct (Z.ltb_spec (hd 0 (w_io w)) 0); intros [= <- _ <-]; [done|lia].
Qed.

Lemma read_dblock_eq d hid w :
  (read_dblock d hid w).1
  = (hd 0 (w_io w), sec_dblock (disk_sector w d (hid - 1))).
Proof. reflexivity. Qed.

(** X12. A dblock written by [write_dblock] without error is what
    [read_dblock] reads back from that disk for that host: the caller's
    dblock with its checksum filled in.  It verifies, as long as the
    checksum does not cover the checksum field itself; the dblocks of
    the other hosts and the leader on that disk read as before. *)
Theorem dblock_write_read_round_trip
    (d : nat) (hid : Z) (pd pd' : paxos_dblock) (rv : Z) (w w' : world) :
  0 < ENOMEM ->
  (d < length (w_disks w))%nat ->
  write_dblock d hid pd w = (rv, pd', w') ->
  0 <= rv ->
  pd' = set_pd_checksum (dblock_checksum pd) pd
  /\ (read_dblock d hid w').1 = (hd 0 (w_io w'), pd')
  /\ (dblock_checksum pd' = dblock_checksum pd ->
      verify_dblock pd' (dblock_checksum pd') = SANLK_OK)
  /\ (forall hid', hid' <> hid ->
        (read_dblock d hid' w').1.2 = (read_dblock d hid' w).1.2)
  /\ disk_leader w' d = disk_leader w d.
Proof.
  intros Hnomem Hd Hw Hrv.
  destruct (write_dblock_ok _ _ _ _ _ _ _ Hnomem Hw Hrv)
    as (_ & Hpd & _ & _ & mb & Hdisks).
  split; [done|]. rewrite !read_dblock_eq. unfold disk_sector, disk_leader.
  rewrite Hdisks, list_lookup_insert_eq by done. cbn [default].
  unfold area_sector, id. cbn [la_sectors la_leader].
  split; [by rewrite lookup_insert_eq|]. split.
  - intros Hsum. unfold verify_dblock. rewrite Hsum.
    destruct (_ && _); [done|]. rewrite Hpd. cbn [pd_checksum].
    by rewrite Z.eqb_refl.
  - split; [|done]. intros hid' Hne. rewrite !read_dblock_eq.
    unfold disk_sector. rewrite Hdisks, list_lookup_insert_eq by done.
    cbn [default fst snd]. unfold area_sector, id. cbn [la_sectors].
    rewrite lookup_insert_ne by lia. done.
Qed.

(** ** Erasing a dblock *)

Lemma erased_checksum c pd : erased pd -> erased (set_pd_checksum c pd).
Proof. by destruct pd. Qed.

Lemma erase_write_loop_cons d ds hid pd num_writes error w :
  let r := write_dblock d hid pd w in
  erase_write_loop (d :: ds) hid pd num_writes error w
  = erase_write_loop ds hid r.1.2
      (if r.1.1 <? 0 then num_writes else num_writes + 1)
      (if r.1.1 <? 0 then r.1.1 else error) r.2.
Proof.
  cbv zeta. cbn [erase_write_loop]. unfold bind at 1.
  destruct (write_dblock d hid pd w) as [[rv pd'] w']. cbn [fst snd].
  by destruct (rv <? 0).
Qed.

Lemma length_dblock_write_results token n alloc io :
  length (dblock_write_results token n alloc io) = n.
Proof.
  revert alloc io. induction n as [|k IHk]; intros alloc io; [done|]. cbn.
  by repeat case_match; cbn; rewrite IHk.
Qed.

(** One [write_dblock] returns the first of the results and leaves the
    replies for the rest. *)
Lemma dblock_write_results_step d hid pd n w :
  let r := write_dblock d hid pd w in
  dblock_write_results (w_token w) (S n) (w_alloc w) (w_io w)
  = r.1.1 :: dblock_write_results (w_token r.2) n (w_alloc r.2) (w_io r.2).
Proof.
  cbv zeta. cbn [dblock_write_results].
  destruct (write_dblock d hid pd w) as [[rv pd'] w'] eqn:Hw. revert Hw.
  unfold write_dblock, bind at 1, get_token.
  destruct (flag_set _ _).
  - unfold write_dblock_mblock_sh, bind at 1, get_token.
    destruct (tk_sector_size (w_token w) =? 0);
      [unfold ret; by intros [= <- _ <-]|].
    unfold bind at 1, posix_memalign.
    destruct (negb _); [unfold ret; by intros [= <- _ <-]|].
    unfold bind, io_result, emit, disk_area, put_area, ret. cbn.
    by destruct (_ <? 0); intros [= <- _ <-].
  - unfold bind, io_result, emit, disk_area, put_area, ret. cbn.
    by destruct (_ <? 0); intros [= <- _ <-].
Qed.

(** The results of the writes of the loop, in the order of the disks: a
    write that returns before its I/O uses up no reply. *)
Lemma erase_write_loop_spec ds hid pd num_writes error w :
  0 < ENOMEM ->
  NoDup ds ->
  (forall d, d ∈ ds -> (d < length (w_disks w))%nat) ->
  erased pd ->
  let r := erase_write_loop ds hid pd num_writes error w in
  let rvs := dblock_write_results (w_token w) (length ds) (w_alloc w)
               (w_io w) in
  r.1.1 = num_writes + successes rvs
  /\ r.1.2 = last_failure rvs error
  /\ length (w_disks r.2) = length (w_disks w)
  /\ w_token r.2 = w_token w
  /\ (forall d, d ∉ ds -> w_disks r.2 !! d = w_disks w !! d)
  /\ (forall d q, q <> hid - 1 -> disk_sector r.2 d q = disk_sector w d q)
  /\ (forall d, disk_leader r.2 d = disk_leader w d)
  /\ (forall i d rv, ds !! i = Some d -> rvs !! i = Some rv -> 0 <= rv ->
        erased (sec_dblock (disk_sector r.2 d (hid - 1))))
  /\ (forall i d rv, ds !! i = Some d -> rvs !! i = Some rv -> rv < 0 ->
        w_disks r.2 !! d = w_disks w !! d).
Proof.
  intros Hnomem. revert pd num_writes error w.
  induction ds as [|d ds IH]; intros pd num_writes error w Hnd Hlt Hpd.
  { cbn. unfold successes. cbn. repeat split; try done; lia. }
  apply NoDup_cons in Hnd as [Hd Hnd]. cbv zeta.
  rewrite erase_write_loop_cons. cbv zeta. cbn [length].
  rewrite (dblock_write_results_step d hid pd).
  destruct (write_dblock d hid pd w) as [[rv pd'] w1] eqn:Hw. cbn [fst snd].
  assert (Hd_lt : (d < length (w_disks w))%nat).
  { apply Hlt. apply elem_of_cons. by left. }
  assert (Hfacts : erased pd' /\ w_token w1 = w_token w
                   /\ length (w_disks w1) = length (w_disks w)
                   /\ (forall d', d' <> d -> w_disks w1 !! d' = w_disks w !! d')
                   /\ (forall d' q, q <> hid - 1 ->
                         disk_sector w1 d' q = disk_sector w d' q)
                   /\ (forall d', disk_leader w1 d' = disk_leader w d')
                   /\ (0 <= rv ->
                       erased (sec_dblock (disk_sector w1 d (hid - 1))))
                   /\ (rv < 0 -> w_disks w1 = w_disks w)).
  { destruct (Z.lt_ge_cases rv 0) as [Hneg|Hpos].
    - destruct (write_dblock_failed _ _ _ _ _ _ _ Hw Hneg) as [Hdisks Htok].
      assert (Hpd' : erased pd').
      { revert Hw. unfold write_dblock, bind at 1, get_token.
        destruct (flag_set _ _).
        - unfold write_dblock_mblock_sh, bind at 1, get_token.
          destruct (_ =? 0); [unfold ret; by intros [= _ <- _]|].
          unfold bind at 1, posix_memalign.
          destruct (negb _); [unfold ret; by intros [= _ <- _]|].
          unfold bind, io_result, emit, disk_area, put_area, ret. cbn.
          destruct (_ <? 0); intros [= _ <- _]; by apply erased_checksum.
        - unfold bind, io_result, emit, disk_area, put_area, ret. cbn.
          destruct (_ <? 0); intros [= _ <- _]; by apply erased_checksum. }
      unfold disk_sector, disk_leader. rewrite Hdisks.
      split; [done|]. do 5 (split; [done|]). split; [intros; lia|done].
    - destruct (write_dblock_ok _ _ _ _ _ _ _ Hnomem Hw Hpos)
        as (_ & -> & Htok & _ & mb & Hdisks).
      split; [by apply erased_checksum|]. split; [done|].
      unfold disk_sector, disk_leader. rewrite Hdisks.
      split; [apply length_insert|]. split.
      { intros d' Hne. by apply list_lookup_insert_ne. }
      split.
      { intros d' q Hq. rewrite insert_area_lookup.
        case_bool_decide as Hc; [|done]. destruct Hc as [-> _].
        unfold area_sector. cbn [la_sectors]. by rewrite lookup_insert_ne. }
      split.
      { intros d'. rewrite insert_area_lookup.
        by case_bool_decide as Hc; [destruct Hc as [-> _]|]. }
      split; [|intros; lia].
      intros _. rewrite list_lookup_insert_eq by done. cbn [default].
      unfold area_sector, id. cbn [la_sectors]. rewrite lookup_insert_eq.
      by apply erased_checksum. }
  destruct Hfacts
    as (Hpd' & Htok1 & Hlen1 & Hother1 & Hsec1 & Hlead1 & Hown1 & Hfail1).
  destruct (IH pd' (if rv <? 0 then num_writes else num_writes + 1)
              (if rv <? 0 then rv else error) w1 Hnd) as
    (Hnw & Herr & Hlenw & Htok & Hother & Hsec & Hlead & Hown & Hfail);
    [|done|].
  { intros d' Hin. rewrite Hlen1. apply Hlt. apply elem_of_cons. by right. }
  cbv zeta in *.
  set (rvs := dblock_write_results (w_token w1) (length ds) (w_alloc w1)
                (w_io w1)) in *.
  split.
  { rewrite Hnw. unfold successes. cbn [List.filter].
    destruct (rv <? 0); cbn [negb length]; lia. }
  split; [by rewrite Herr|]. split; [congruence|]. split; [congruence|].
  split.
  { intros d' Hd'. apply not_elem_of_cons in Hd' as [Hne Hd'].
    rewrite Hother by done. by apply Hother1. }
  split; [intros d' q Hq; by rewrite Hsec, Hsec1|].
  split; [intros d'; by rewrite Hlead, Hlead1|].
  split.
  - intros [|i] d' rv' Hi Hrv' Hpos; cbn in Hi, Hrv'.
    + injection Hi as <-. injection Hrv' as <-.
      unfold disk_sector. rewrite (Hother d Hd). by apply Hown1.
    + by eapply Hown.
  - intros [|i] d' rv' Hi Hrv' Hneg; cbn in Hi, Hrv'.
    + injection Hi as <-. injection Hrv' as <-.
      rewrite (Hother d Hd). by rewrite Hfail1.
    + rewrite (Hfail i d' rv' Hi Hrv' Hneg).
      apply Hother1. intros ->. apply Hd. apply list_elem_of_lookup; by exists i.
Qed.

(** X13. [paxos_erase_dblock] writes a zeroed dblock into the host's
    slot on every disk, one [write_dblock] per disk in the order of the
    disks; the results of these writes are those the world holds for
    them, [dblock_write_results].  It returns SANLK_OK exactly when the
    writes that succeeded are a majority, and otherwise the result of
    the last write that failed (-1 if none did).  Whatever it returns,
    the leaders and the sectors of all other hosts are untouched, and
    on every disk whose write succeeded the host's dblock now holds
    nothing: no mbal, bal, inp or lver and no flag; a disk whose write
    failed is as it was. *)
Theorem erase_dblock_clears_own_slot (hid : Z) (w : world) :
  0 < ENOMEM ->
  let n := length (w_disks w) in
  let r := paxos_erase_dblock hid w in
  let rvs := dblock_write_results (w_token w) n (w_alloc w) (w_io w) in
  r.1 = (if majority_disks (Z.of_nat n) (successes rvs) then SANLK_OK
         else last_failure rvs (-1))
  /\ (forall d rv, rvs !! d = Some rv -> 0 <= rv ->
        erased (sec_dblock (disk_sector r.2 d (hid - 1))))
  /\ (forall d rv, rvs !! d = Some rv -> rv < 0 ->
        w_disks r.2 !! d = w_disks w !! d)
  /\ (forall d q, q <> hid - 1 -> disk_sector r.2 d q = disk_sector w d q)
  /\ (forall d, disk_leader r.2 d = disk_leader w d)
  /\ w_token r.2 = w_token w.
Proof.
  intros Hnomem n r rvs. subst r.
  unfold paxos_erase_dblock, bind, num_disks.
  cbn beta iota. rewrite Nat2Z.id. fold n.
  destruct (erase_write_loop_spec (seq 0 n) hid zero_dblock 0 (-1) w Hnomem
              (NoDup_seq 0 n))
    as (Hnw & Herr & _ & Htok & _ & Hsec & Hlead & Hown & Hfail).
  { intros d Hd. apply elem_of_seq in Hd. fold n. lia. }
  { by repeat split. }
  cbv zeta in *. rewrite length_seq in *. fold rvs in Hnw, Herr, Hown, Hfail.
  assert (Hlen : length rvs = n) by apply length_dblock_write_results.
  destruct (erase_write_loop (seq 0 n) hid zero_dblock 0 (-1) w)
    as [[nw err] w']. cbn [fst snd] in *. subst nw err.
  rewrite Z.add_0_l.
  assert (Hown' : forall d rv, rvs !! d = Some rv -> 0 <= rv ->
                    forall w'', w'' = w' ->
                    erased (sec_dblock (disk_sector w'' d (hid - 1)))).
  { intros d rv Hd Hrv w'' ->. eapply (Hown d d rv); [|done|done].
    apply lookup_seq. split; [done|].
    apply lookup_lt_Some in Hd. by rewrite Hlen in Hd. }
  assert (Hfail' : forall d rv, rvs !! d = Some rv -> rv < 0 ->
                    w_disks w' !! d = w_disks w !! d).
  { intros d rv Hd Hrv. eapply (Hfail d d rv); [|done|done].
    apply lookup_seq. split; [done|].
    apply lookup_lt_Some in Hd. by rewrite Hlen in Hd. }
  destruct (majority_disks _ _); cbn [negb]; unfold ret; cbn [fst snd];
    (split; [done|]); (split; [|done]); intros d rv Hd Hrv;
    by eapply Hown'.
Qed.

(** ** Initialising a lease and reading it *)

Lemma init_write_loop_ok (ds : list nat) (leader : leader_record) (w : world) :
  NoDup ds ->
  (forall d, d ∈ ds -> (d < length (w_disks w))%nat) ->
  Forall (fun r => 0 <= r) (io_results (length ds) (w_io w)) ->
  let r := init_write_loop ds leader w in
  r.1 = 0
  /\ w_token r.2 = w_token w
  /\ length (w_disks r.2) = length (w_disks w)
  /\ w_io r.2 = drop (length ds) (w_io w)
  /\ (forall d, d ∈ ds -> w_disks r.2 !! d = Some (mk_area leader ∅))
  /\ (forall d, d ∉ ds -> w_disks r.2 !! d = w_disks w !! d).
Proof.
  revert w. induction ds as [|d ds IH]; intros w Hnd Hlt Hio.
  { cbn. repeat split; try done. intros d Hd. by apply elem_of_nil in Hd. }
  apply NoDup_cons in Hnd as [Hd Hnd].
  cbn [length io_results] in Hio. apply Forall_cons in Hio as [Hio0 Hio].
  cbv zeta. cbn [init_write_loop].
  unfold bind, io_result, emit, ret, put_area. cbn.
  destruct (Z.ltb_spec (hd 0 (w_io w)) 0) as [|_]; [lia|]. cbn.
  set (w1 := mk_world _ _ _ _ _ _ _ _).
  destruct (IH w1 Hnd) as (Hrv & Htok & Hlen & Hio' & Hin & Hout).
  { intros d' Hd'. unfold w1. cbn. rewrite length_insert.
    apply Hlt. apply elem_of_cons. by right. }
  { done. }
  cbv zeta in *. split; [done|]. split; [done|].
  split; [by rewrite Hlen; unfold w1; cbn; rewrite length_insert|].
  split.
  { rewrite Hio'. unfold w1. cbn.
    destruct (w_io w); [|done]. cbn. by destruct (length ds). }
  split.
  - intros d' Hd'. apply elem_of_cons in Hd' as [->|Hd']; [|by apply Hin].
    rewrite (Hout d Hd). unfold w1. cbn. apply list_lookup_insert_eq.
    apply Hlt. apply elem_of_cons. by left.
  - intros d' Hd'. apply not_elem_of_cons in Hd' as [Hne Hd'].
    rewrite (Hout d' Hd'). unfold w1. cbn. by apply list_lookup_insert_ne.
Qed.

(** What reading the leader of a single-disk lease returns when the read
    itself succeeds. *)
Lemma leader_read_one_result (w : world) :
  length (w_disks w) = 1%nat ->
  tk_sector_size (w_token w) <> 0 ->
  0 <= hd 0 (w_io w) ->
  let l := disk_leader w 0 in
  (paxos_lease_leader_read zero_leader w).1
  = (if lr_magic l =? PAXOS_DISK_CLEAR then SANLK_LEADER_MAGIC
     else default SANLK_OK
            (verify_leader_checks (w_token w) l (leader_checksum l)), l).
Proof.
  intros Hone Hnz Hio. cbv zeta.
  rewrite leader_read_single by done.
  unfold _leader_read_one, bind, read_leader, bind, get_token.
  destruct (Z.eqb_spec (tk_sector_size (w_token w)) 0); [done|].
  unfold io_result, emit, disk_area, ret. cbn.
  destruct (Z.ltb_spec (hd 0 (w_io w)) 0); [lia|].
  unfold verify_leader, _verify_leader, bind, get_token. cbn.
  fold (disk_leader w 0).
  destruct (lr_magic (disk_leader w 0) =? PAXOS_DISK_CLEAR); [done|].
  destruct (verify_leader_checks _ _ _) as [code|]; [|done].
  unfold io_result, emit, ret. by cbn.
Qed.

(** [paxos_lease_init] up to its write loop. *)
Lemma paxos_lease_init_run (num_hosts : Z) (write_clear : bool) (w : world) :
  (sizes_from_flags (r_flags (w_token w))).1 = 0 ->
  hd 0 (w_alloc w) = 0 ->
  exists leader w1 al,
    paxos_lease_init num_hosts write_clear w
    = init_write_loop (seq 0 (length (w_disks w))) leader w1
    /\ w_token w1 = set_tk_sizes (init_sector_size (w_token w)) al (w_token w)
    /\ w_disks w1 = w_disks w /\ w_io w1 = w_io w
    /\ fresh_leader (w_token w) num_hosts write_clear leader.
Proof.
  intros Hsizes Halloc.
  unfold paxos_lease_init, bind, get_token, fresh_leader, init_num_hosts,
    init_sector_size, init_max_hosts.
  cbv zeta. cbn [fst snd].
  destruct (sizes_from_flags _) as [rv0 [[ss al] mh]]. cbn in Hsizes.
  subst rv0. cbn [negb Z.eqb fst snd].
  destruct (ss =? 0);
    unfold put_token, posix_memalign; cbn; rewrite Halloc; cbn;
    destruct write_clear; unfold monotime, ret, num_disks; cbn;
    rewrite Nat2Z.id; eexists _, _, _;
    (split; [reflexivity|]); cbn; (split; [done|]);
    (split; [done|]); (split; [done|]); cbn;
    do 11 (split; [done|]); symmetry; apply (leader_checksum_skips_field HC).
Qed.

(** X14. When [paxos_lease_init] gets its sizes and its buffer and every
    write succeeds, each disk holds the same sealed leader and no dblock
    of any host: the leader is free (timestamp LEASE_FREE, no owner,
    lver 0) and carries the token's names, the sector size and
    max_hosts of the init, and the number of hosts asked for, or
    max_hosts when that was 0 or more than max_hosts.  These three are
    [int]s stored in unsigned fields: a negative num_hosts, which is
    neither 0 nor more than max_hosts, is stored as 2^64 + num_hosts.
    On a single disk [paxos_lease_leader_read] then returns the leader:
    with SANLK_OK if the host's id is not above the num_hosts stored,
    with SANLK_LEADER_NUMHOSTS if it is, and with SANLK_LEADER_MAGIC
    after an init with [write_clear]. *)
Theorem init_leader_reads_back_free
    (num_hosts : Z) (write_clear : bool) (w : world) :
  PAXOS_DISK_MAGIC <> PAXOS_DISK_CLEAR ->
  Z.land (Z.lor PAXOS_DISK_VERSION_MAJOR PAXOS_DISK_VERSION_MINOR) 0xFFFF0000
  = PAXOS_DISK_VERSION_MAJOR ->
  (sizes_from_flags (r_flags (w_token w))).1 = 0 ->
  hd 0 (w_alloc w) = 0 ->
  let n := length (w_disks w) in
  Forall (fun r => 0 <= r) (io_results n (w_io w)) ->
  let w' := (paxos_lease_init num_hosts write_clear w).2 in
  let max_hosts := init_max_hosts (w_token w) in
  exists l,
    (forall d, (d < n)%nat ->
       disk_leader w' d = l /\ forall q, disk_sector w' d q = zero_sector)
    /\ lr_magic l = (if write_clear then PAXOS_DISK_CLEAR else PAXOS_DISK_MAGIC)
    /\ lr_timestamp l = LEASE_FREE
    /\ lr_owner_id l = 0 /\ lr_owner_generation l = 0 /\ lr_lver l = 0
    /\ lr_space_name l = r_lockspace_name (w_token w)
    /\ lr_resource_name l = r_name (w_token w)
    /\ lr_sector_size l = wrap32 (init_sector_size (w_token w))
    /\ lr_max_hosts l = wrap64 max_hosts
    /\ lr_num_hosts l
       = wrap64 (if (num_hosts =? 0) || (num_hosts >? max_hosts)
                 then max_hosts else num_hosts)
    /\ lr_checksum l = leader_checksum l
    /\ tk_sector_size (w_token w') = init_sector_size (w_token w)
    /\ host_id (w_token w') = host_id (w_token w)
    /\ (n = 1%nat -> init_sector_size (w_token w) <> 0 ->
        0 <= hd 0 (w_io w') ->
        (paxos_lease_leader_read zero_leader w').1
        = (if write_clear then SANLK_LEADER_MAGIC
           else if lr_num_hosts l <? host_id (w_token w)
                then SANLK_LEADER_NUMHOSTS else SANLK_OK, l)).
Proof.
  intros Hmagic Hversion Hsizes Halloc n Hio w' max_hosts.
  destruct (paxos_lease_init_run num_hosts write_clear w Hsizes Halloc)
    as (leader & w1 & al & Hrun & Htok1 & Hdisks1 & Hio1 & Hfresh).
  fold n in Hrun. subst w'. rewrite Hrun.
  destruct (init_write_loop_ok (seq 0 n) leader w1 (NoDup_seq 0 n))
    as (_ & Htok & Hlen & _ & Hin & _).
  { intros d Hd. apply elem_of_seq in Hd. rewrite Hdisks1. fold n. lia. }
  { by rewrite length_seq, Hio1. }
  cbv zeta in *.
  set (w2 := (init_write_loop (seq 0 n) leader w1).2) in *.
  assert (Hdisk : forall d, (d < n)%nat ->
                    w_disks w2 !! d = Some (mk_area leader ∅)).
  { intros d Hd. apply Hin. apply elem_of_seq. lia. }
  destruct Hfresh
    as (Hm & Hv & Hts & Ho & Hog & Hlv & Hsn & Hrn & Hss & Hmh & Hnh & Hck).
  exists leader. split.
  { intros d Hd. unfold disk_leader, disk_sector. rewrite (Hdisk d Hd).
    split; [done|]. intros q. unfold area_sector, default, id.
    cbn [from_option la_sectors]. by rewrite lookup_empty. }
  do 11 (split; [done|]).
  split; [by rewrite Htok, Htok1|]. split; [by rewrite Htok, Htok1|].
  intros Hone Hssnz Hread.
  rewrite leader_read_one_result;
    [|by rewrite Hlen, Hdisks1|by rewrite Htok, Htok1|done].
  unfold disk_leader. rewrite (Hdisk 0%nat) by lia.
  unfold default, id. cbn [from_option la_leader].
  f_equal. rewrite Htok, Htok1.
  unfold verify_leader_checks. rewrite Hm, Hv, Hsn, Hrn, <- Hck. cbn.
  destruct write_clear.
  - by rewrite Z.eqb_refl.
  - destruct (Z.eqb_spec PAXOS_DISK_MAGIC PAXOS_DISK_CLEAR); [done|].
    rewrite Z.eqb_refl, Hversion, !Z.eqb_refl, !String.eqb_refl. cbn.
    by destruct (_ <? _).
Qed.

(** ** What a successful acquire returns *)

Section AcquireResult.
Context (Hcodes : acquire_codes_fail).

Ltac not_ok_leaf :=
  cbn [fst snd]; try discriminate;
  let Heq := fresh in
  intros [= Heq];
  pose proof (ok_nonneg HC); pose proof (einval_pos HC);
  unfold acquire_codes_fail in Hcodes;
  rewrite !Forall_cons in Hcodes;
  repeat match goal with
         | Hlt : (_ <? 0) = true |- _ => apply Z.ltb_lt in Hlt
         end;
  first [lia | intuition congruence].

Lemma acquire_skip_live_check_not_ok v wait_start last_timestamp hs w :
  (acquire_skip_live_check v wait_start last_timestamp hs w).1.1
  <> PcOut SANLK_OK.
Proof.
  unfold acquire_skip_live_check, bind at 1. unfold emit at 1. cbn [fst snd].
  unfold bind at 1, external_shutdown, bind, get_ls, put_ls, ret.
  cbn [fst snd]. destruct (hd false _); [not_ok_leaf|].
  destruct (paxos_lease_leader_read _ _) as [[error tmp_leader] w1].
  cbn [fst snd]. destruct (error <? 0) eqn:?; [not_ok_leaf|].
  destruct (negb _); not_ok_leaf.
Qed.

Lemma acquire_restart_not_ok args v w :
  (acquire_restart args v w).1.1 <> PcOut SANLK_OK.
Proof.
  unfold acquire_restart, bind at 1.
  destruct (paxos_lease_read _ w) as [[error bufs] w1]. cbn [fst snd].
  destruct (error <? 0) eqn:?; [unfold ret; not_ok_leaf|].
  unfold bind, get_token, put_token, ret, lockspace_disk, open_disks_fd,
    host_info, monotime, get_ls, put_ls.
  cbn [fst snd].
  repeat (match goal with
          | |- context [if ?b then _ else _] => destruct b eqn:?
          | |- context [let '(_, _) := ?x in _] => destruct x eqn:?
          end; cbn [fst snd]); not_ok_leaf.
Qed.

Lemma acquire_wait_not_ok args v wait_start last_timestamp hs w :
  (acquire_wait args v wait_start last_timestamp hs w).1.1 <> PcOut SANLK_OK.
Proof.
  unfold acquire_wait. cbv zeta. unfold bind at 1.
  destruct (delta_lease_leader_read _ w) as [[error host_id_leader] w1].
  cbn [fst snd].
  destruct (error <? 0) eqn:?; [unfold ret; not_ok_leaf|].
  destruct (_ =? LEASE_FREE); [unfold ret; not_ok_leaf|].
  destruct (_ || _); [unfold ret; not_ok_leaf|].
  destruct (last_timestamp =? 0); [apply acquire_skip_live_check_not_ok|].
  destruct (_ || _).
  - destruct (negb _); [|unfold ret; not_ok_leaf].
    unfold bind at 1.
    destruct (read_dblock _ _ _) as [[rv owner_dblock] w2]. cbn [fst snd].
    destruct (_ && _); unfold ret; not_ok_leaf.
  - unfold bind at 1, monotime. cbn [fst snd].
    destruct (_ >? _); [unfold ret; not_ok_leaf|].
    destruct (flag_set _ _); [unfold ret; not_ok_leaf|].
    apply acquire_skip_live_check_not_ok.
Qed.

(** Success at [retry_ballot:]: the leader handed back is owned by the
    host of the token. *)
Lemma acquire_retry_ballot_out_ok args v copy_cur_leader next_lver our_mbal
    w pc' v' w' :
  acquire_retry_ballot args v copy_cur_leader next_lver our_mbal w
  = (pc', v', w') ->
  pc' = PcOut SANLK_OK ->
  lr_owner_id (av_leader_ret v') = host_id (w_token w).
Proof.
  unfold acquire_retry_ballot, bind at 1, get_token. cbn [fst snd].
  unfold bind at 1.
  match goal with
  | |- context [(if copy_cur_leader then ?a else ?b) w] =>
      destruct ((if copy_cur_leader then a else b) w)
        as [[error tmp_leader] w1] eqn:Hread
  end.
  cbn [fst snd].
  destruct (error <? 0) eqn:?;
    [unfold ret; intros [= <- <- <-]; not_ok_leaf|].
  destruct (_ =? next_lver).
  { unfold is_local_owner.
    destruct (Z.eqb_spec (lr_owner_id tmp_leader) (host_id (w_token w)));
      cbn [andb]; [|unfold ret; intros [= <- <- <-]; not_ok_leaf].
    destruct (_ =? _); unfold ret; intros [= <- <- <-]; [done|not_ok_leaf]. }
  destruct (_ >? next_lver); [unfold ret; intros [= <- <- <-]; not_ok_leaf|].
  destruct (negb _); [unfold ret; intros [= <- <- <-]; not_ok_leaf|].
  assert (Hhost1 : host_id (w_token w1) = host_id (w_token w)).
  { destruct copy_cur_leader.
    - by injection Hread as _ _ <-.
    - pose proof (paxos_lease_leader_read_keeps same_token zero_leader w) as Hk.
      rewrite Hread in Hk. cbn in Hk. by rewrite Hk. }
  unfold acquire_ballot. cbv zeta. unfold bind at 1.
  pose proof (run_ballot_frame others_sectors_kept write_dblock_others_kept
                put_flags_others_kept (a_flags args)
                (to_int (lr_num_hosts (av_cur_leader v))) next_lver our_mbal
                (av_dblock v) w1) as ([Hhost2 _] & _).
  destruct (run_ballot _ _ _ _ _ w1) as [[error2 dblock] w2]. cbn [fst snd] in *.
  destruct (_ || _).
  { unfold bind, retry_delay, bind, get_token, get_rand, emit, ret.
    cbn [fst snd]. intros [= <- <- <-]. not_ok_leaf. }
  destruct (error2 <? 0) eqn:?;
    [unfold ret; intros [= <- <- <-]; not_ok_leaf|].
  unfold acquire_commit, bind at 1, get_token. cbn [fst snd].
  unfold bind at 1, monotime. cbn [fst snd]. cbv zeta.
  unfold bind at 1.
  match goal with
  | |- context [write_new_leader ?nl ?w0] =>
      destruct (write_new_leader nl w0) as [[error3 new_leader] w3]
  end.
  cbn [fst snd].
  destruct (error3 <? 0) eqn:?.
  { unfold bind, get_token, put_token, ret. cbn [fst snd].
    intros [= <- <- <-]. not_ok_leaf. }
  cbn [w_token].
  destruct (Z.eqb_spec (lr_owner_id new_leader) (host_id (w_token w2)));
    cbn [negb]; unfold ret; intros [= <- <- <-]; [|not_ok_leaf].
  intros _. cbn [av_leader_ret]. congruence.
Qed.

Lemma acquire_step_out_ok args pc v w pc' v' w' :
  (forall e, pc <> PcOut e) ->
  acquire_step args pc v w = (pc', v', w') ->
  pc' = PcOut SANLK_OK ->
  lr_owner_id (av_leader_ret v') = host_id (w_token w).
Proof.
  intros Hpc.
  destruct pc as [|ws lt hs|c|c nl mb|e|]; cbn [acquire_step].
  - intros Hrun Hout.
    pose proof (acquire_restart_not_ok args v w) as Hne.
    rewrite Hrun in Hne. done.
  - intros Hrun Hout.
    pose proof (acquire_wait_not_ok args v ws lt hs w) as Hne.
    rewrite Hrun in Hne. done.
  - unfold acquire_run, bind, get_token, ret. cbn [fst snd].
    by destruct (_ && _); intros [= <- _ _].
  - apply acquire_retry_ballot_out_ok.
  - by destruct (Hpc e).
  - unfold ret. by intros [= <- _ _].
Qed.

Lemma acquire_from_out_ok fuel args pc v w rv leader dblock :
  (pc = PcOut SANLK_OK ->
   lr_owner_id (av_leader_ret v) = host_id (w_token w)) ->
  (acquire_from fuel args pc v w).1 = Some (rv, leader, dblock) ->
  rv = SANLK_OK ->
  lr_owner_id leader = host_id (w_token w).
Proof.
  revert pc v w. induction fuel as [|fuel IH]; intros pc v w Hinv.
  - destruct pc; cbn; try done. intros [= <- <- _] ->. by apply Hinv.
  - destruct pc as [|ws lt hs|c|c nl mb|e|].
    5: { cbn. intros [= <- <- _] ->. by apply Hinv. }
    5: { by cbn. }
    all: cbn [acquire_from]; unfold bind;
      match goal with
      | |- context [acquire_step ?a ?pc ?v0 ?w0] =>
          pose proof (acquire_step_out_ok a pc v0 w0) as Hstep;
          specialize (fun pc' v' w' => Hstep pc' v' w' ltac:(done));
          pose proof (acquire_step_frame others_sectors_kept
                        write_dblock_others_kept put_flags_others_kept
                        put_sizes_others_kept write_leader_others_kept
                        a pc v0 w0) as ([Hhost _] & _);
          destruct (acquire_step a pc v0 w0) as [[pc' v'] w1]
      end;
      cbn [fst snd] in *; rewrite <- Hhost; apply IH;
      intros Hout; rewrite Hhost; by eapply Hstep.
Qed.

End AcquireResult.

(** X15. [paxos_lease_acquire] returns SANLK_OK only for a lease the
    host itself owns: whenever the result is SANLK_OK, the owner_id of
    the leader handed back in [leader_ret] is the host_id of the token,
    whether the host committed the leader itself or found at
    [retry_ballot:] that the lver it was after is already committed in
    its name. *)
Theorem acquire_ok_only_as_owner
    (fuel : nat) (args : acq_args) (leader_ret leader : leader_record)
    (dblock_ret dblock : paxos_dblock) (rv : Z) (w : world) :
  acquire_codes_fail ->
  (paxos_lease_acquire fuel args leader_ret dblock_ret w).1
  = Some (rv, leader, dblock) ->
  rv = SANLK_OK ->
  lr_owner_id leader = host_id (w_token w).
Proof.
  intros Hcodes. unfold paxos_lease_acquire, bind, get_token. cbn [fst snd].
  destruct (_ =? 0).
  - unfold ret. cbn. intros [= <- _ _] Heq.
    pose proof (ok_nonneg HC). pose proof (einval_pos HC). lia.
  - apply (acquire_from_out_ok Hcodes). done.
Qed.

(** ** A ballot that cannot allocate its buffers *)

Lemma write_new_leader_issues nl w :
  w_disks w <> [] ->
  issues (EvWriteLeader 0 (seal nl)) (write_new_leader nl) w.
Proof.
  intros Hdisks. unfold write_new_leader.
  apply issues_bind_r; [keeps_auto|]. cbn [num_disks fst snd].
  rewrite Nat2Z.id.
  apply issues_bind_l; [|intros [[[l nw] rv] t]; keeps_auto].
  destruct (length (w_disks w)) eqn:Hn; [by destruct (w_disks w)|].
  cbn [seq write_leader_loop].
  apply issues_bind_l.
  - exists [], [], (hd 0 (w_io w)). by rewrite write_leader_eq.
  - intros [rv l]. pose proof (write_leader_loop_keeps trace_grows).
    destruct (rv <? 0); auto with keeps.
Qed.

(** The commit writes a leader made of the dblock the acquire holds. *)
Lemma acquire_commit_issues args v w :
  w_disks w <> [] ->
  exists l,
    lr_lver l = pd_lver (av_dblock v)
    /\ lr_owner_id l = pd_inp (av_dblock v)
    /\ lr_owner_generation l = pd_inp2 (av_dblock v)
    /\ lr_timestamp l = pd_inp3 (av_dblock v)
    /\ issues (EvWriteLeader 0 l) (acquire_commit args v) w.
Proof.
  intros Hdisks. unfold acquire_commit.
  eexists. split; [|split; [|split; [|split]]].
  5: { apply issues_bind_r; [keeps_auto|]. cbn [get_token fst snd].
       apply issues_bind_r; [keeps_auto|]. cbv zeta.
       apply issues_bind_l; [by apply write_new_leader_issues|].
       intros [e l]. keeps_auto. }
  all: unfold seal; cbn;
    repeat (match goal with
            | |- context [if ?b then _ else _] => destruct b
            end; cbn); done.
Qed.

(** X16. When a [posix_memalign] at the start of [run_ballot] fails,
    [run_ballot] returns its positive result before anything is written
    or read.  [paxos_lease_acquire] takes only the two abort codes and
    negative results for failures, so it goes on to the commit with the
    dblock it held before the ballot: the leader it writes carries that
    dblock's lver and owner, not the lver the ballot was meant to
    decide. *)
Theorem ballot_alloc_failure_is_committed
    (args : acq_args) (v : acq_vars) (next_lver our_mbal : Z) (w : world) :
  let num_hosts := to_int (lr_num_hosts (av_cur_leader v)) in
  to_int (roundup_power_of_two (wrap32 (num_hosts + 2))
          * tk_sector_size (w_token w)) <> 0 ->
  w_disks w <> [] ->
  let a := ballot_alloc (seq 0 (length (w_disks w))) w in
  0 < a.1 ->
  run_ballot (a_flags args) num_hosts next_lver our_mbal (av_dblock v) w
  = (a.1, av_dblock v, a.2)
  /\ w_disks a.2 = w_disks w
  /\ w_trace a.2 = w_trace w
  /\ acquire_ballot args v next_lver our_mbal w = acquire_commit args v a.2
  /\ exists l,
       lr_lver l = pd_lver (av_dblock v)
       /\ lr_owner_id l = pd_inp (av_dblock v)
       /\ lr_owner_generation l = pd_inp2 (av_dblock v)
       /\ lr_timestamp l = pd_inp3 (av_dblock v)
       /\ issues (EvWriteLeader 0 l)
            (acquire_ballot args v next_lver our_mbal) w.
Proof.
  intros num_hosts Hlen Hdisks a Hpos.
  assert (Hrun : run_ballot (a_flags args) num_hosts next_lver our_mbal
                   (av_dblock v) w = (a.1, av_dblock v, a.2)).
  { unfold run_ballot, bind at 1, get_token. cbn [fst snd].
    unfold bind at 1, num_disks. cbn [fst snd]. rewrite Nat2Z.id.
    apply Z.eqb_neq in Hlen. rewrite Hlen.
    unfold bind at 1. fold a. destruct a as [rv w1]. cbn [fst snd] in *.
    destruct (Z.eqb_spec rv 0); [lia|]. done. }
  assert (Hsame : w_disks a.2 = w_disks w /\ w_trace a.2 = w_trace w).
  { subst a. clear. generalize (seq 0 (length (w_disks w))). intros ds.
    revert w. induction ds as [|d ds IH]; intros w; [done|].
    cbn [ballot_alloc]. unfold bind, posix_memalign. cbn [fst snd].
    destruct (negb _); [done|]. by destruct (IH (posix_memalign w).2). }
  destruct Hsame as [Hd Ht].
  assert (Hacq : acquire_ballot args v next_lver our_mbal w
                 = acquire_commit args v a.2).
  { unfold acquire_ballot. cbv zeta. unfold bind at 1. fold num_hosts.
    rewrite Hrun. cbn [fst snd].
    pose proof (dblock_mbal_neg HC). pose proof (dblock_lver_neg HC).
    destruct (Z.eqb_spec a.1 SANLK_DBLOCK_MBAL); [lia|].
    destruct (Z.eqb_spec a.1 SANLK_DBLOCK_LVER); [lia|].
    destruct (Z.ltb_spec a.1 0); [lia|]. cbn [orb]. by destruct v. }
  do 4 (split; [done|]).
  destruct (acquire_commit_issues args v a.2) as (l & H1 & H2 & H3 & H4 & Hiss);
    [by rewrite Hd|].
  exists l. do 4 (split; [done|]).
  destruct Hiss as (t & t0 & rv & Htr). exists t, t0, rv.
  by rewrite Hacq, Htr, Ht.
Qed.

(** ** The largest mbal a lease read reports *)

Lemma verify_dblock_nonneg pd c :
  0 <= verify_dblock pd c -> verify_dblock pd c = SANLK_OK.
Proof.
  pose proof (dblock_checksum_neg HC). unfold verify_dblock.
  destruct (_ && _); [done|]. destruct (negb _); [lia|done].
Qed.

(** The dblock loop of a lease read: it stops at the first dblock that
    does not verify, and otherwise ends with the largest mbal of the
    slots and a slot that holds it. *)
Lemma lease_read_dblocks_spec a qs rv tmp_mbal tmp_q rv' m qr :
  (forall q, 0 <= pd_mbal (area_dblock a q)) ->
  0 <= tmp_mbal ->
  lease_read_dblocks a qs rv tmp_mbal tmp_q = (rv', Some (m, qr)) ->
  tmp_mbal <= m
  /\ (forall q, q ∈ qs ->
        verify_dblock (area_dblock a q) (dblock_checksum (area_dblock a q))
        = SANLK_OK
        /\ pd_mbal (area_dblock a q) <= m)
  /\ ((qr = tmp_q /\ m = tmp_mbal /\ (tmp_mbal = 0 -> qs = []))
      \/ (qr ∈ qs /\ pd_mbal (area_dblock a qr) = m)).
Proof.
  intros Hpos. revert rv tmp_mbal tmp_q.
  induction qs as [|q qs IH]; intros rv tmp_mbal tmp_q Htmp.
  { cbn. intros [= _ <- <-]. split; [lia|]. split; [|by left].
    intros q Hq. by apply elem_of_nil in Hq. }
  cbn [lease_read_dblocks]. cbv zeta.
  destruct (Z.ltb_spec (verify_dblock (area_dblock a q)
                          (dblock_checksum (area_dblock a q))) 0) as [|Hver];
    [done|].
  apply verify_dblock_nonneg in Hver. pose proof (Hpos q) as Hq0.
  destruct (Z.eqb_spec tmp_mbal 0) as [Hz|Hnz]; cbn [orb];
    [|destruct (Z.gtb_spec (pd_mbal (area_dblock a q)) tmp_mbal) as [Hgt|Hle]].
  - intros Hrun. destruct (IH _ _ _ (Hpos q) Hrun) as (Hm & Hall & Hq).
    split; [lia|]. split.
    + intros q' Hq'. apply elem_of_cons in Hq' as [->|Hq']; [|by apply Hall].
      split; [done|lia].
    + right. destruct Hq as [(-> & -> & _)|[Hin Heq]].
      * split; [apply elem_of_cons; by left|done].
      * split; [apply elem_of_cons; by right|done].
  - intros Hrun. destruct (IH _ _ _ (Hpos q) Hrun) as (Hm & Hall & Hq).
    split; [lia|]. split.
    + intros q' Hq'. apply elem_of_cons in Hq' as [->|Hq']; [|by apply Hall].
      split; [done|lia].
    + right. destruct Hq as [(-> & -> & _)|[Hin Heq]].
      * split; [apply elem_of_cons; by left|done].
      * split; [apply elem_of_cons; by right|done].
  - intros Hrun. destruct (IH _ _ _ Htmp Hrun) as (Hm & Hall & Hq).
    split; [done|]. split.
    + intros q' Hq'. apply elem_of_cons in Hq' as [->|Hq']; [|by apply Hall].
      split; [done|lia].
    + destruct Hq as [(-> & -> & Hemp)|[Hin Heq]].
      * left. split; [done|]. split; [done|]. intros Hz. by destruct Hnz.
      * right. split; [apply elem_of_cons; by right|done].
Qed.

Lemma lease_read_dblocks_none a qs rv tmp_mbal tmp_q rv' :
  lease_read_dblocks a qs rv tmp_mbal tmp_q = (rv', None) -> rv' < 0.
Proof.
  revert rv tmp_mbal tmp_q.
  induction qs as [|q qs IH]; intros rv tmp_mbal tmp_q; [done|].
  cbn [lease_read_dblocks]. cbv zeta.
  destruct (Z.ltb_spec (verify_dblock (area_dblock a q)
                          (dblock_checksum (area_dblock a q))) 0).
  - by intros [= <-].
  - destruct (_ || _); apply IH.
Qed.

Lemma lease_read_dblocks_ok a qs tmp_mbal tmp_q rv' r :
  lease_read_dblocks a qs SANLK_OK tmp_mbal tmp_q = (rv', Some r) ->
  rv' = SANLK_OK.
Proof.
  assert (Hgen : forall rv, rv = SANLK_OK ->
            lease_read_dblocks a qs rv tmp_mbal tmp_q = (rv', Some r) ->
            rv' = SANLK_OK); [|by apply Hgen].
  revert tmp_mbal tmp_q.
  induction qs as [|q qs IH]; intros tmp_mbal tmp_q rv Hrv.
  { cbn. by intros [= <- _]. }
  cbn [lease_read_dblocks]. cbv zeta.
  destruct (Z.ltb_spec (verify_dblock (area_dblock a q)
                          (dblock_checksum (area_dblock a q))) 0) as [|Hver];
    [done|].
  apply verify_dblock_nonneg in Hver.
  destruct (_ || _); by apply IH.
Qed.


(** ** An acquire that nobody contends *)

Lemma phase1_block_quiet dblock q bk bk_max q_max :
  pd_lver bk < pd_lver dblock
  \/ (pd_lver bk = pd_lver dblock /\ pd_mbal bk <= pd_mbal dblock
      /\ pd_inp bk = 0) ->
  phase1_block dblock q bk bk_max q_max = Go (bk_max, q_max).
Proof.
  intros Hq. unfold phase1_block. cbv zeta.
  destruct (_ <? 0); [done|].
  destruct (Z.ltb_spec (pd_lver bk) (pd_lver dblock)); [done|].
  destruct Hq as [|(Hl & Hm & Hi)]; [lia|].
  destruct (Z.gtb_spec (pd_lver bk) (pd_lver dblock)); [lia|].
  destruct (Z.gtb_spec (pd_mbal bk) (pd_mbal dblock)); [lia|].
  by rewrite Hi.
Qed.

Lemma phase2_block_quiet dblock bk :
  pd_lver bk < pd_lver dblock
  \/ (pd_lver bk = pd_lver dblock /\ pd_mbal bk <= pd_mbal dblock) ->
  phase2_block dblock bk = Go tt.
Proof.
  intros Hq. unfold phase2_block. cbv zeta.
  destruct (_ <? 0); [done|].
  destruct (Z.ltb_spec (pd_lver bk) (pd_lver dblock)); [done|].
  destruct Hq as [|(Hl & Hm)]; [lia|].
  destruct (Z.gtb_spec (pd_lver bk) (pd_lver dblock)); [lia|].
  by destruct (Z.gtb_spec (pd_mbal bk) (pd_mbal dblock)); [lia|].
Qed.

Lemma phase1_scan_quiet dblock bks bk_max q_max :
  Forall (fun qb =>
            pd_lver qb.2 < pd_lver dblock
            \/ (pd_lver qb.2 = pd_lver dblock
                /\ pd_mbal qb.2 <= pd_mbal dblock /\ pd_inp qb.2 = 0)) bks ->
  phase1_scan dblock bks bk_max q_max = Go (bk_max, q_max).
Proof.
  induction 1 as [|[q bk] bks Hq _ IH]; [done|].
  cbn [phase1_scan]. by rewrite phase1_block_quiet.
Qed.

Lemma phase2_scan_quiet dblock bks :
  Forall (fun qb =>
            pd_lver qb.2 < pd_lver dblock
            \/ (pd_lver qb.2 = pd_lver dblock
                /\ pd_mbal qb.2 <= pd_mbal dblock)) bks ->
  phase2_scan dblock bks = Go tt.
Proof.
  induction 1 as [|[q bk] bks Hq _ IH]; [done|].
  cbn [phase2_scan]. by rewrite phase2_block_quiet.
Qed.

(** The dblocks of an area in which our own has just been written. *)
Lemma area_blocks_own (a : lease_area) (q0 : Z) (s : sector) (num_hosts : Z)
    (P : Z * paxos_dblock -> Prop) :
  P (q0, sec_dblock s) ->
  (forall q, q <> q0 -> P (q, area_dblock a q)) ->
  Forall P
    (area_blocks (mk_area (la_leader a) (<[q0 := s]> (la_sectors a)))
       num_hosts).
Proof.
  intros Hown Hothers. unfold area_blocks. apply Forall_fmap, Forall_forall.
  intros q _. unfold area_dblock, area_sector, compose. cbn [la_sectors].
  destruct (decide (q = q0)) as [->|Hne].
  - by rewrite lookup_insert_eq.
  - rewrite lookup_insert_ne by done. by apply Hothers.
Qed.

(** A dblock write when every call succeeds. *)
Lemma write_dblock_calm tok a clock rand ls trace hid pd :
  tk_sector_size tok <> 0 ->
  let pd' := set_pd_checksum (dblock_checksum pd) pd in
  exists mb,
    write_dblock 0 hid pd (mk_world tok [a] [] [] clock rand ls trace)
    = (0, pd',
       mk_world tok
         [mk_area (la_leader a) (<[hid - 1 := mk_sector pd' mb]> (la_sectors a))]
         [] [] clock rand ls (EvWriteDblock 0 (hid - 1) pd' 0 :: trace)).
Proof.
  intros Hss. apply Z.eqb_neq in Hss. cbv zeta.
  unfold write_dblock, bind at 1, get_token. cbn [fst snd w_token].
  destruct (flag_set _ _).
  - unfold write_dblock_mblock_sh, bind at 1, get_token. cbn [fst snd w_token].
    rewrite Hss. eexists. reflexivity.
  - eexists. reflexivity.
Qed.

Lemma ballot_write_loop_calm tok a clock rand ls trace pd num_writes :
  tk_sector_size tok <> 0 ->
  let pd' := set_pd_checksum (dblock_checksum pd) pd in
  exists mb,
    ballot_write_loop [0%nat] pd num_writes
      (mk_world tok [a] [] [] clock rand ls trace)
    = (pd', num_writes + 1,
       mk_world tok
         [mk_area (la_leader a)
            (<[host_id tok - 1 := mk_sector pd' mb]> (la_sectors a))]
         [] [] clock rand ls
         (EvWriteDblock 0 (host_id tok - 1) pd' 0 :: trace)).
Proof.
  intros Hss. cbv zeta.
  destruct (write_dblock_calm tok a clock rand ls trace (host_id tok) pd Hss)
    as [mb Hw].
  exists mb. cbn [ballot_write_loop]. unfold bind, get_token.
  cbv beta iota zeta. cbn [w_token]. rewrite Hw. cbv beta iota zeta.
  change (0 <? 0) with false. by cbv beta iota zeta.
Qed.

Lemma phase1_read_loop_calm tok a clock rand ls trace num_hosts pd bk_max q_max :
  phase1_scan pd (area_blocks a num_hosts) bk_max q_max = Go (bk_max, q_max) ->
  phase1_read_loop [0%nat] num_hosts pd (mk_p1 [true] 0 bk_max q_max)
    (mk_world tok [a] [] [] clock rand ls trace)
  = (Go (mk_p1 [true] 1 bk_max q_max),
     mk_world tok [a] [] [] clock rand ls (EvReadArea 0 0 :: trace)).
Proof.
  intros Hscan. pose proof (aio_timeout_neg HC).
  cbn [phase1_read_loop p1_iobuf p1_num_reads p1_bk_max p1_q_max].
  change (default false ([true] !! 0%nat)) with true.
  unfold bind, io_result, emit, disk_area, ret. cbn.
  rewrite Hscan. by destruct SANLK_AIO_TIMEOUT; [lia| |].
Qed.

Lemma phase2_read_loop_calm tok a clock rand ls trace num_hosts pd :
  phase2_scan pd (area_blocks a num_hosts) = Go tt ->
  phase2_read_loop [0%nat] num_hosts pd [true] 0
    (mk_world tok [a] [] [] clock rand ls trace)
  = (Go 1, mk_world tok [a] [] [] clock rand ls (EvReadArea 0 0 :: trace)).
Proof.
  intros Hscan. pose proof (aio_timeout_neg HC).
  cbn [phase2_read_loop].
  change (default false ([true] !! 0%nat)) with true.
  unfold bind, io_result, emit, disk_area, ret. cbn.
  rewrite Hscan. by destruct SANLK_AIO_TIMEOUT; [lia| |].
Qed.

(** With one disk, every call succeeding and the dblocks of all other
    hosts from older lvers, the ballot decides on the host's own values:
    its id, its generation and the time of the choice. *)
Lemma run_ballot_uncontended tok a clock rand ls trace
    flags num_hosts next_lver our_mbal dblock_out :
  dblock_checksum_skips_field ->
  majority_disks 1 1 = true ->
  tk_sector_size tok <> 0 ->
  to_int (roundup_power_of_two (wrap32 (num_hosts + 2)) * tk_sector_size tok)
  <> 0 ->
  (forall q, q <> host_id tok - 1 -> pd_lver (area_dblock a q) < next_lver) ->
  let d0 := mk_dblock our_mbal our_mbal (host_id tok) (host_generation tok)
              (hd 0 clock) next_lver 0 0 in
  let d := set_pd_checksum (dblock_checksum d0) d0 in
  exists mb trace',
    run_ballot flags num_hosts next_lver our_mbal dblock_out
      (mk_world tok [a] [] [] clock rand ls trace)
    = (SANLK_OK, d,
       mk_world tok
         [mk_area (la_leader a)
            (<[host_id tok - 1 := mk_sector d mb]> (la_sectors a))]
         [] [] (tl clock) rand ls trace').
Proof.
  intros Hsum Hmaj Hss Hlen Hquiet. cbv zeta.
  pose proof (ok_nonneg HC) as Hok.
  set (p1 := mk_dblock our_mbal 0 0 0 0 next_lver 0 0).
  set (p1' := set_pd_checksum (dblock_checksum p1) p1).
  set (d0 := mk_dblock our_mbal our_mbal (host_id tok) (host_generation tok)
               (hd 0 clock) next_lver 0 0).
  set (d := set_pd_checksum (dblock_checksum d0) d0).
  (* phase 1 *)
  destruct (ballot_write_loop_calm tok a clock rand ls trace p1 0 Hss)
    as [mb1 Hw1]. fold p1' in Hw1.
  set (a1 := mk_area (la_leader a)
               (<[host_id tok - 1 := mk_sector p1' mb1]> (la_sectors a)))
    in Hw1.
  set (t1 := EvWriteDblock 0 (host_id tok - 1) p1' 0 :: trace) in Hw1.
  assert (Hscan1 : phase1_scan p1' (area_blocks a1 num_hosts) zero_dblock (-1)
                   = Go (zero_dblock, -1)).
  { apply phase1_scan_quiet, area_blocks_own.
    - right. by cbn.
    - intros q Hq. left. cbn. by apply Hquiet. }
  pose proof (phase1_read_loop_calm tok a1 clock rand ls t1 num_hosts p1'
                zero_dblock (-1) Hscan1) as Hr1.
  set (t2 := EvReadArea 0 0 :: t1) in Hr1.
  (* phase 2 *)
  destruct (ballot_write_loop_calm tok a1 (tl clock) rand ls t2 d0 0 Hss)
    as [mb2 Hw2]. fold d in Hw2.
  assert (Ha2 : mk_area (la_leader a1)
                  (<[host_id tok - 1 := mk_sector d mb2]> (la_sectors a1))
                = mk_area (la_leader a)
                    (<[host_id tok - 1 := mk_sector d mb2]> (la_sectors a))).
  { unfold a1. cbn [la_leader la_sectors]. by rewrite insert_insert_eq. }
  rewrite Ha2 in Hw2. clear Ha2.
  set (a2 := mk_area (la_leader a)
               (<[host_id tok - 1 := mk_sector d mb2]> (la_sectors a)))
    in Hw2.
  set (t3 := EvWriteDblock 0 (host_id tok - 1) d 0 :: t2) in Hw2.
  assert (Hscan2 : phase2_scan d (area_blocks a2 num_hosts) = Go tt).
  { apply phase2_scan_quiet, area_blocks_own.
    - right. by cbn.
    - intros q Hq. left. cbn. by apply Hquiet. }
  pose proof (phase2_read_loop_calm tok a2 (tl clock) rand ls t3 num_hosts d
                Hscan2) as Hr2.
  exists mb2, (EvReadArea 0 0 :: t3). fold a2.
  unfold run_ballot, bind at 1, get_token. cbv beta iota zeta. cbn [w_token].
  unfold bind at 1, num_disks. cbv beta iota zeta. cbn [w_disks length].
  change (Z.to_nat (Z.of_nat 1)) with 1%nat. change (Z.of_nat 1) with 1.
  cbn [seq]. apply Z.eqb_neq in Hlen. rewrite Hlen.
  unfold bind at 1. rewrite ballot_alloc_ok by done. cbv beta iota zeta.
  change (negb (0 =? 0)) with false. cbv beta iota zeta. fold p1.
  unfold ballot_phase1, bind at 1. rewrite Hw1. cbv beta iota zeta.
  rewrite Z.add_0_l, Hmaj. cbn [negb map].
  unfold bind at 1. rewrite Hr1. cbv beta iota zeta.
  cbn [p1_num_reads p1_bk_max p1_iobuf]. rewrite Hmaj. cbn [negb].
  unfold bind at 1, choose_inp, bind at 1, get_token. cbv beta iota zeta.
  cbn [w_token pd_inp zero_dblock].
  change (negb (0 =? 0)) with false. cbv beta iota zeta.
  unfold bind at 1, monotime, ret at 1. cbv beta iota zeta.
  cbn [w_clock w_token w_disks w_io w_alloc w_rand w_ls w_trace].
  change (mk_dblock (pd_mbal p1') (pd_mbal p1') (host_id tok)
            (host_generation tok) (hd 0 clock) (pd_lver p1') 0 (pd_flags p1'))
    with d0.
  unfold ballot_phase2, bind at 1. rewrite Hw2. cbv beta iota zeta.
  rewrite Z.add_0_l, Hmaj. cbn [negb].
  unfold bind at 1. rewrite Hr2. cbv beta iota zeta. rewrite Hmaj. cbn [negb].
  unfold ballot_out, bind, get_token, ret. cbv beta iota zeta.
  destruct (Z.ltb_spec SANLK_OK 0); [lia|]. by cbn [andb].
Qed.

Lemma lease_read_dblocks_zero a qs tmp_q :
  (forall q, area_dblock a q = zero_dblock) ->
  exists tmp_q',
    lease_read_dblocks a qs SANLK_OK 0 tmp_q = (SANLK_OK, Some (0, tmp_q')).
Proof.
  intros Hzero. pose proof (ok_nonneg HC).
  assert (Hgen : forall rv, rv = SANLK_OK ->
            exists tmp_q',
              lease_read_dblocks a qs rv 0 tmp_q
              = (SANLK_OK, Some (0, tmp_q'))); [|by apply Hgen].
  revert tmp_q. induction qs as [|q qs IH]; intros tmp_q rv ->.
  { by eexists. }
  cbn [lease_read_dblocks]. cbv zeta. rewrite Hzero.
  change (verify_dblock zero_dblock (dblock_checksum zero_dblock))
    with SANLK_OK.
  destruct (Z.ltb_spec SANLK_OK 0); [lia|].
  change (0 =? 0) with true. cbn [orb]. by apply IH.
Qed.

(** Reading a lease whose dblocks are all empty, when every call
    succeeds. *)
Lemma paxos_lease_read_fresh tok a clock rand ls trace bufs :
  0 <= tk_align_size tok ->
  lr_magic (la_leader a) <> PAXOS_DISK_CLEAR ->
  verify_leader_checks tok (la_leader a) (leader_checksum (la_leader a))
  = None ->
  (forall q, area_dblock a q = zero_dblock) ->
  exists max_q,
    paxos_lease_read bufs (mk_world tok [a] [] [] clock rand ls trace)
    = (SANLK_OK, mk_bufs (la_leader a) zero_dblock 0 max_q,
       mk_world tok [a] [] [] clock rand ls (EvReadArea 0 0 :: trace)).
Proof.
  intros Halign Hmagic Hchk Hzero. pose proof (ok_nonneg HC).
  destruct (lease_read_dblocks_zero a (seqZ 0 (lr_num_hosts (la_leader a)))
              (-1) Hzero) as [max_q Hloop].
  exists max_q.
  unfold paxos_lease_read, bind at 1, num_disks. cbv beta iota zeta.
  cbn [w_disks length]. change (Z.of_nat 1 >? 1) with false. cbv iota.
  unfold _lease_read_one, bind at 1, get_token. cbv beta iota zeta.
  cbn [w_token].
  destruct (Z.ltb_spec (tk_align_size tok) 0); [lia|].
  unfold bind at 1, posix_memalign. cbv beta iota zeta. cbn [w_alloc hd].
  change (negb (0 =? 0)) with false. cbv iota.
  unfold bind at 1, io_result. cbv beta iota zeta. cbn [w_io hd].
  unfold bind at 1, emit. cbv beta iota zeta.
  change (0 <? 0) with false. cbv iota.
  unfold bind at 1, disk_area. cbv beta iota zeta.
  cbn [w_token w_disks w_io w_alloc w_clock w_rand w_ls w_trace tl].
  change (default zero_area ([a] !! 0%nat)) with a.
  unfold bind at 1, verify_leader, _verify_leader, bind at 1, get_token.
  cbv beta iota zeta. cbn [w_token].
  apply Z.eqb_neq in Hmagic. rewrite Hmagic, Hchk.
  unfold ret at 1. cbv beta iota zeta.
  destruct (Z.ltb_spec SANLK_OK 0); [lia|].
  rewrite Hloop, Hzero. reflexivity.
Qed.

Lemma write_new_leader_calm tok a clock rand ls trace nl :
  majority_disks 1 1 = true ->
  write_new_leader nl (mk_world tok [a] [] [] clock rand ls trace)
  = (SANLK_OK, seal nl,
     mk_world tok [mk_area (seal nl) (la_sectors a)] [] [] clock rand ls
       (EvWriteLeader 0 (seal nl) 0 :: trace)).
Proof.
  intros Hmaj. pose proof (aio_timeout_neg HC).
  unfold write_new_leader, bind at 1, num_disks. cbv beta iota zeta.
  cbn [w_disks length]. change (Z.to_nat (Z.of_nat 1)) with 1%nat.
  change (Z.of_nat 1) with 1. cbn [seq write_leader_loop].
  unfold bind. rewrite write_leader_eq. cbv beta iota zeta.
  cbn [w_io hd tl w_token w_disks w_alloc w_clock w_rand w_ls w_trace].
  change (0 <? 0) with false. cbv iota. unfold ret. cbv beta iota zeta.
  rewrite Z.add_0_l, Hmaj. cbn [negb]. reflexivity.
Qed.


End Properties.

(** ** The supervisor's kill rounds *)

Section SupervisorProperties.
Import Supervisor.

Lemma signal_loop_spec sp limit sig cls found :
  signal_loop sp limit sig cls found
  = ((signal_round sp limit sig cls).1,
     map (fun cl => Kill (pid cl) sig) (List.filter (signalled sp limit) cls),
     found + Z.of_nat (length (List.filter (signalled sp limit) cls))).
Proof.
  revert found. induction cls as [|cl cls IH]; intros found.
  { cbn. f_equal. lia. }
  cbn [signal_loop]. rewrite !IH. unfold signal_round, signalled, targeted.
  cbn [map List.filter fst].
  destruct (used cl) eqn:Eu, (pid cl =? 0), (client_using_space cl sp),
    (killing cl >? limit); cbn [negb andb orb length map List.filter];
    try done.
  unfold bump at 2. rewrite Eu. f_equal. lia.
Qed.

Lemma filter_nonempty_existsb {A} (f : A -> bool) (l : list A) :
  (Z.of_nat (length (List.filter f l)) =? 0) = negb (existsb f l).
Proof.
  induction l as [|a l IH]; [done|]. cbn. destruct (f a); cbn; [|done].
  apply Z.eqb_neq. lia.
Qed.

Lemma kill_pids_signals cls sp :
  killing_pids sp <= 10 ->
  kill_pids cls sp
  = (let '(limit, sig) :=
       if killing_pids sp >? 1 then (2, SIGKILL) else (1, SIGTERM) in
     ((signal_round sp limit sig cls).1, next_round sp,
      (signal_round sp limit sig cls).2)).
Proof.
  intros Hkp. unfold kill_pids.
  destruct (Z.gtb_spec (killing_pids sp) 11); [lia|].
  destruct (Z.gtb_spec (killing_pids sp) 10); [lia|].
  destruct (killing_pids sp >? 1); rewrite signal_loop_spec; cbn [fst snd];
    unfold signal_round; cbn [fst snd];
    rewrite Z.add_0_l, filter_nonempty_existsb;
    by destruct (existsb _ cls).
Qed.

(** C8 (amended). A round of [kill_pids] is decided by killing_pids: at
    1 (or below) it sends SIGTERM to every client of the lockspace whose
    killing count is at most 1, at 2 to 10 it sends SIGKILL to every one
    whose count is at most 2, each signal adding one to the client's
    count; at 11 it only logs the pids still there; above 11 it does
    nothing, and killing_pids stays as it is.  So a client that was not
    signalled before and does not exit is sent SIGTERM in the first round
    and SIGKILL in the second and the third, is logged as stuck in the
    eleventh, and is left alone from then on. *)
Theorem kill_pids_escalation :
  (forall cls sp,
     (killing_pids sp <= 1 ->
        kill_pids cls sp
        = ((signal_round sp 1 SIGTERM cls).1, next_round sp,
           (signal_round sp 1 SIGTERM cls).2))
     /\ (2 <= killing_pids sp <= 10 ->
         kill_pids cls sp
         = ((signal_round sp 2 SIGKILL cls).1, next_round sp,
            (signal_round sp 2 SIGKILL cls).2))
     /\ (killing_pids sp = 11 ->
         kill_pids cls sp = (cls, next_round sp, dump_loop cls)
         /\ forall p sig, Kill p sig ∉ dump_loop cls)
     /\ (11 < killing_pids sp -> kill_pids cls sp = (cls, sp, [])))
  /\ (forall name p toks,
       let cl k := mk_client true p k toks in
       p <> 0 ->
       client_using_space (cl 0) (mk_space name 0) = true ->
       ticks 13 true [cl 0] (mk_space name 0)
       = ([[Kill p SIGTERM; Usleep 500000];
           [Kill p SIGKILL; Usleep 500000];
           [Kill p SIGKILL; Usleep 500000];
           []; []; []; []; []; []; [];
           [LogStuck p];
           []; []],
          [cl 3], Some (mk_space name 12))).
Proof.
  split.
  - intros cls sp. split; [|split; [|split]].
    + intros Hkp. rewrite kill_pids_signals by lia.
      by destruct (Z.gtb_spec (killing_pids sp) 1); [lia|].
    + intros Hkp. rewrite kill_pids_signals by lia.
      by destruct (Z.gtb_spec (killing_pids sp) 1); [|lia].
    + intros Hkp. split.
      * unfold kill_pids, next_round. rewrite Hkp. done.
      * intros p sig Hin. unfold dump_loop in Hin.
        apply list_elem_of_In, in_flat_map in Hin as (cl & _ & Hin).
        destruct (_ && _); cbn in Hin; [|done].
        by destruct Hin as [[=]|[]].
    + intros Hkp. unfold kill_pids.
      by destruct (Z.gtb_spec (killing_pids sp) 11); [|lia].
  - intros name p toks cl Hp Huse.
    apply Z.eqb_neq in Hp.
    unfold client_using_space in Huse. cbn in Huse.
    assert (Hstep : forall k kp,
              space_tick true [cl k] (mk_space name kp)
              = if kp =? 0 then
                  let '(cls, sp, acts) := kill_pids [cl k] (mk_space name 1) in
                  (cls, Some sp, acts)
                else
                  let '(cls, sp, acts) := kill_pids [cl k] (mk_space name kp) in
                  (cls, Some sp, acts)).
    { intros k kp. unfold space_tick, all_pids_dead, targeted,
        client_using_space. cbn. rewrite Hp, Huse. cbn.
      by destruct (kp =? 0). }
    assert (Hkill : forall k kp,
              kill_pids [cl k] (mk_space name kp)
              = if kp >? 11 then ([cl k], mk_space name kp, [])
                else if kp >? 10
                then ([cl k], mk_space name (kp + 1),
                      if k =? 0 then [] else [LogStuck p])
                else if k >? (if kp >? 1 then 2 else 1)
                then ([cl k], mk_space name (kp + 1), [])
                else ([cl (k + 1)], mk_space name (kp + 1),
                      [Kill p (if kp >? 1 then SIGKILL else SIGTERM);
                       Usleep 500000])).
    { intros k kp. unfold kill_pids, dump_loop, client_using_space. cbn.
      rewrite Hp, Huse. cbn.
      destruct (kp >? 11); [done|]. destruct (kp >? 10).
      { by destruct (k =? 0). }
      destruct (kp >? 1); cbn; by destruct (k >? _). }
    subst cl. cbn beta in *. cbn [ticks].
    repeat (rewrite Hstep; cbv - [space_tick kill_pids];
            rewrite Hkill; cbv - [space_tick kill_pids]).
    reflexivity.
Qed.

End SupervisorProperties.

Lemma verify_dblock_all_zero_or_checksum_witness :
  @verify_dblock sample_consts bad_sum_dblock 11 = -214
  /\ @verify_dblock sample_consts zero_dblock 11 = 1.
Proof.
  pose proof (@verify_dblock_all_zero_or_checksum sample_consts
                sample_consts_ok bad_sum_dblock 11) as (_ & _ & Hbad).
  pose proof (@verify_dblock_all_zero_or_checksum sample_consts
                sample_consts_ok zero_dblock 11) as (Hzero & _ & _).
  split.
  - apply Hbad. split; [|vm_compute; lia].
    intros (Hc & _). vm_compute in Hc. lia.
  - apply Hzero. repeat split; reflexivity.
Defined.

Lemma our_mbal_exceeds_max_and_is_own_witness :
  exists our_mbal,
    acquire_run vars_mbal_14002 true world_host1
    = (PcRetryBallot true 1 our_mbal, vars_mbal_14002, world_host1)
    /\ our_mbal = 16001 /\ 14002 < our_mbal.
Proof.
  destruct (our_mbal_exceeds_max_and_is_own vars_mbal_14002
              true world_host1 2000 1)
    as (m & Hrun & Hm & _ & Hval & Hgt & _);
    [reflexivity|reflexivity|cbn; lia|lia|vm_compute; reflexivity|].
  exists m. split; [exact Hrun|]. split; [|exact Hgt].
  rewrite Hval by (cbn; lia). reflexivity.
Defined.

(** C2 as stated fails where the 64-bit sum wraps: with the largest mbal
    on disk, host 1 of 2000 would choose 385. *)
Lemma our_mbal_wraps_at_the_top :
  1 <= 1 <= 2000
  /\ choose_our_mbal (2 ^ 64 - 1) 2000 1 = 385
  /\ ~ (2 ^ 64 - 1 < choose_our_mbal (2 ^ 64 - 1) 2000 1).
Proof. split; [lia|]. split; [reflexivity|]. vm_compute. discriminate. Qed.

Lemma retract_flag_follows_read_write_failure_witness :
  (let r := @ballot_phase2 sample_consts [0%nat] 1 8 host1_accept [true]
              world_read_fails in
   r.1.1 = -210
   /\ flag_set (tk_flags (w_token r.2)) (@T_RETRACT_PAXOS sample_consts) = true)
  /\ (let r := @run_ballot sample_consts 0 8 1 1 zero_dblock world_three_disks in
      r.1.1 = -213 /\ w_token r.2 = token_host1).
Proof.
  pose proof (@retract_flag_follows_read_write_failure sample_consts
                sample_consts_ok) as [Hp2 Hrun].
  split.
  - destruct (@ballot_phase2 sample_consts [0%nat] 1 8 host1_accept [true]
                world_read_fails) as [[e d] w'] eqn:Hr.
    assert (He : e = -210) by (vm_compute in Hr; by injection Hr as <- _ _).
    split; [exact He|].
    apply (Hp2 _ _ _ _ _ _ _ _ _ Hr). left. exact He.
  - destruct (@run_ballot sample_consts 0 8 1 1 zero_dblock world_three_disks)
      as [[e d] w'] eqn:Hr.
    assert (He : e = -213) by (vm_compute in Hr; by injection Hr as <- _ _).
    split; [exact He|].
    apply (Hrun _ _ _ _ _ _ _ _ _ Hr). left. exact He.
Defined.

(** C3 as stated fails: host 2's higher mbal is seen only in the reads of
    phase 2, after all three phase 2 writes have completed; the ballot
    returns the MBAL abort and the retract flag is not set. *)
Lemma mbal_abort_in_phase2_sets_no_retract_flag :
  let r := @run_ballot sample_consts 0 8 1 1 zero_dblock world_three_disks in
  r.1.1 = @SANLK_DBLOCK_MBAL sample_consts
  /\ EvWriteDblock 0 0 (set_pd_checksum 106 host1_accept) 0 ∈ w_trace r.2
  /\ flag_set (tk_flags (w_token r.2)) (@T_RETRACT_PAXOS sample_consts) = false.
Proof.
  cbv zeta. split; [by vm_compute|]. split; [|by vm_compute].
  apply (bool_decide_unpack _). by vm_compute.
Qed.

Lemma release_verification_errors_witness :
  @paxos_lease_release sample_consts None None zero_leader
    (world_with_leader leader_of_host2)
  = (-251, zero_leader,
     (@paxos_lease_leader_read sample_consts zero_leader
        (world_with_leader leader_of_host2)).2).
Proof.
  destruct (@paxos_lease_leader_read sample_consts zero_leader
              (world_with_leader leader_of_host2)) as [[rv leader] w1] eqn:Hr.
  assert (Hv : rv = 1 /\ leader = leader_of_host2)
    by (vm_compute in Hr; by injection Hr as <- <- _).
  destruct Hv as [-> ->].
  refine (proj1 (proj2 (proj2
            (@release_verification_errors sample_consts sample_consts_ok
               None None zero_leader _ _ _ _ Hr _ _))) _ _ _).
  - lia.
  - reflexivity.
  - reflexivity.
  - vm_compute. discriminate.
  - left. vm_compute. discriminate.
Defined.

(** C5 as stated fails: a release that finds the lease already free and
    one that finds it held by host 2 return the same code. *)
Lemma already_free_and_other_owner_share_a_code :
  let free := @paxos_lease_release sample_consts None None zero_leader
                (world_with_leader leader_freed) in
  let other := @paxos_lease_release sample_consts None None zero_leader
                 (world_with_leader leader_of_host2) in
  lr_write_id leader_freed = host_id token_host1
  /\ lr_timestamp leader_freed = LEASE_FREE
  /\ lr_owner_id leader_freed = host_id token_host1
  /\ lr_owner_generation leader_freed = host_generation token_host1
  /\ lr_write_id leader_of_host2 = host_id token_host1
  /\ lr_timestamp leader_of_host2 <> LEASE_FREE
  /\ lr_owner_id leader_of_host2 <> host_id token_host1
  /\ free.1.1 = @SANLK_RELEASE_OWNER sample_consts
  /\ other.1.1 = @SANLK_RELEASE_OWNER sample_consts
  /\ free.1.1 = other.1.1.
Proof. cbv zeta. repeat split; by vm_compute. Qed.



Lemma init_succeeds_only_on_every_disk_witness :
  (@paxos_lease_init sample_consts 8 false world_second_write_fails).1 = -5
  /\ (@write_new_leader sample_consts free_leader world_second_write_fails).1.1
     = 1.
Proof.
  destruct (@init_succeeds_only_on_every_disk sample_consts 8 false
              world_second_write_fails eq_refl eq_refl) as (Hrv & _ & _ & Hmaj).
  split.
  - rewrite Hrv. reflexivity.
  - apply Hmaj. reflexivity.
Defined.

Lemma ballot_abort_delays_and_retries_witness :
  exists w3,
    @acquire_retry_ballot sample_consts (mk_args 0 0 0) vars_free true 1 1
      world_host2_ahead
    = (PcRetryBallot false 1 2001,
       mk_av free_leader 0 (mk_dblock 1 0 0 0 0 1 3 0) false zero_leader
         zero_dblock, w3)
    /\ hd_error (w_trace w3) = Some (EvUsleep 500000).
Proof.
  destruct (@run_ballot sample_consts 0 8 1 1 zero_dblock world_host2_ahead)
    as [[e d] w2] eqn:Hr.
  assert (Hv : e = -213 /\ d = mk_dblock 1 0 0 0 0 1 3 0
               /\ hd 0 (w_rand w2) = 500000).
  { vm_compute in Hr. by injection Hr as <- <- <-. }
  destruct Hv as (-> & -> & Hrand).
  destruct (@ballot_abort_delays_and_retries sample_consts (mk_args 0 0 0)
              vars_free true 1 1 world_host2_ahead 0 free_leader
              world_host2_ahead (-213) (mk_dblock 1 0 0 0 0 1 3 0) w2)
    as (w3 & Hstep & Htrace & _); [reflexivity|lia|reflexivity|cbn; lia| |by left|].
  - exact Hr.
  - exists w3. split; [exact Hstep|]. rewrite Htrace, Hrand. reflexivity.
Defined.

(** C6 as stated fails in the length of the delay: [usleep] counts
    microseconds, and here the acquire sleeps 500000 of them, far more
    than the 1000 of a millisecond. *)
Lemma retry_delay_exceeds_a_millisecond :
  let r := @acquire_retry_ballot sample_consts (mk_args 0 0 0) vars_free true
             1 1 world_host2_ahead in
  r.1.1 = PcRetryBallot false 1 2001
  /\ hd_error (w_trace r.2) = Some (EvUsleep 500000)
  /\ ~ (500000 <= 1000).
Proof. cbv zeta. split; [by vm_compute|]. split; [by vm_compute|lia]. Qed.

Lemma phase1_aborts_on_first_contender_or_tracks_bk_max_witness :
  @phase1_scan sample_consts host1_prepare_lver2 sample_blocks_contended
    zero_dblock (-1) = Abort (-213)
  /\ (exists bk_max q_max,
        @phase1_scan sample_consts host1_prepare_lver2 sample_blocks
          zero_dblock (-1) = Go (bk_max, q_max)
        /\ pd_inp bk_max = 4 /\ q_max = 3)
  /\ (exists bk_max q_max,
        @phase1_scan sample_consts host1_prepare_lver2 sample_blocks_tied
          zero_dblock (-1) = Go (bk_max, q_max)
        /\ sample_blocks_tied !! 2%nat = Some (q_max, bk_max)
        /\ pd_inp bk_max = 4 /\ q_max = 3).
Proof.
  split; [|split].
  - exact (proj1 (proj2 (@phase1_aborts_on_first_contender_or_tracks_bk_max
                           sample_consts host1_prepare_lver2
                           sample_blocks_contended))).
  - destruct (proj1 (proj2 (@phase1_aborts_on_first_contender_or_tracks_bk_max
                              sample_consts host1_prepare_lver2 sample_blocks)))
      as (bm & qm & Hscan & _ & _).
    exists bm, qm. split; [exact Hscan|].
    vm_compute in Hscan. by injection Hscan as <- <-.
  - destruct (proj1 (proj2 (@phase1_aborts_on_first_contender_or_tracks_bk_max
                              sample_consts host1_prepare_lver2
                              sample_blocks_tied)))
      as (bm & qm & Hscan & _ & _).
    exists bm, qm. split; [exact Hscan|].
    vm_compute in Hscan. by injection Hscan as <- <-.
Defined.

(** C1 as stated fails: host 2's dblock verifies and has a larger mbal
    than ours, but it is of an older lver, and the ballot does not abort
    with DBLOCK_MBAL; it succeeds. *)
Lemma stale_dblock_with_larger_mbal_does_not_abort :
  let r := @run_ballot sample_consts 0 8 2 1 zero_dblock world_host2_ahead in
  @verify_dblock sample_consts host2_prepare
    (@dblock_checksum sample_consts host2_prepare) = @SANLK_OK sample_consts
  /\ 1 < pd_mbal host2_prepare
  /\ pd_lver host2_prepare < 2
  /\ r.1.1 = @SANLK_OK sample_consts
  /\ r.1.1 <> @SANLK_DBLOCK_MBAL sample_consts.
Proof. cbv zeta. repeat split; by vm_compute. Qed.



Lemma kill_pids_escalation_witness :
  (Supervisor.ticks 13 true [client_4321] space_LS).1.1
  = [[Supervisor.Kill 4321 Supervisor.SIGTERM; Supervisor.Usleep 500000];
     [Supervisor.Kill 4321 Supervisor.SIGKILL; Supervisor.Usleep 500000];
     [Supervisor.Kill 4321 Supervisor.SIGKILL; Supervisor.Usleep 500000];
     []; []; []; []; []; []; [];
     [Supervisor.LogStuck 4321];
     []; []].
Proof.
  exact (f_equal (fun r => r.1.1)
           (proj2 kill_pids_escalation "LS"%string 4321
              [None; Some "LS"%string] ltac:(lia) eq_refl)).
Defined.

(** C8 as stated fails: the second round already sends SIGKILL, and so
    does the third. *)
Lemma second_round_sends_sigkill :
  (Supervisor.ticks 3 true [client_4321] space_LS).1.1
  = [[Supervisor.Kill 4321 Supervisor.SIGTERM; Supervisor.Usleep 500000];
     [Supervisor.Kill 4321 Supervisor.SIGKILL; Supervisor.Usleep 500000];
     [Supervisor.Kill 4321 Supervisor.SIGKILL; Supervisor.Usleep 500000]]
  /\ (Supervisor.ticks 3 true [client_4321] space_LS).1.1
     <> Supervisor.rounds_as_specified 4321.
Proof. split; [reflexivity|]. vm_compute. discriminate. Qed.

(** * Instances of the further properties *)

Lemma roundup_power_of_two_least_power_witness :
  roundup_power_of_two 2002 = 2048 /\ 2002 <= 2048 < 2 * 2002.
Proof.
  destruct (roundup_power_of_two_least_power 2002 ltac:(lia)) as [_ Hpow].
  destruct (Hpow ltac:(lia)) as (Hr & Hle & Hlt & _).
  rewrite Hr in Hle, Hlt. split; [rewrite Hr; reflexivity|].
  change (2 ^ Z.log2_up 2002) with 2048 in Hle, Hlt. lia.
Defined.

Lemma verify_leader_accepts_exactly_witness :
  (@_verify_leader sample_consts 0 leader_held
     (sample_leader_checksum leader_held) true
     (world_with_leader leader_held)).1 = 1.
Proof.
  destruct (@verify_leader_accepts_exactly sample_consts sample_consts_ok 0
              leader_held (sample_leader_checksum leader_held) true
              (world_with_leader leader_held)) as [[_ Haccept] _].
  apply Haccept. repeat split; by vm_compute.
Defined.

Lemma write_new_leader_result_witness :
  (@write_new_leader sample_consts free_leader world_second_write_fails).1.1
  = 1
  /\ (@write_new_leader sample_consts free_leader world_read_fails).1.1 = 1.
Proof.
  split.
  - destruct (@write_new_leader_result sample_consts sample_consts_ok
                free_leader world_second_write_fails) as [Hrv _].
    rewrite Hrv. reflexivity.
  - destruct (@write_new_leader_result sample_consts sample_consts_ok
                free_leader world_read_fails) as [Hrv _].
    rewrite Hrv. reflexivity.
Defined.

Lemma release_by_other_writer_skips_write_witness :
  exists w1,
    @paxos_lease_release sample_consts None None zero_leader
      (world_with_leader leader_written_by_host2)
    = (0, zero_leader, w1)
    /\ w_disks w1 = w_disks (world_with_leader leader_written_by_host2).
Proof.
  destruct (@paxos_lease_leader_read sample_consts zero_leader
              (world_with_leader leader_written_by_host2))
    as [[rv leader] w1] eqn:Hread.
  assert (Hv : 0 <= rv /\ lr_write_id leader <> 1).
  { vm_compute in Hread. injection Hread as <- <- _. by vm_compute. }
  destruct Hv as [Hrv Hwid].
  destruct (@release_by_other_writer_skips_write sample_consts None None
              zero_leader leader rv
              (world_with_leader leader_written_by_host2) w1 Hread Hrv Hwid)
    as (Hrel & Hdisks & _).
  by exists w1.
Defined.

Lemma retry_ballot_finds_lver_committed_witness :
  exists w1,
    @acquire_from sample_consts 1 (mk_args 0 0 0) (PcRetryBallot false 1 1)
      vars_free (world_with_leader leader_held)
    = (Some (1, leader_held, zero_dblock), w1).
Proof.
  destruct (@paxos_lease_leader_read sample_consts zero_leader
              (world_with_leader leader_held)) as [[rv leader] w1] eqn:Hread.
  assert (Hv : 0 <= rv /\ leader = leader_held).
  { vm_compute in Hread. injection Hread as <- <- _. by vm_compute. }
  destruct Hv as [Hrv ->].
  destruct (@retry_ballot_finds_lver_committed sample_consts 0 (mk_args 0 0 0)
              vars_free 1 1 (world_with_leader leader_held) w1 rv leader_held
              Hread Hrv eq_refl) as (Hacq & _).
  exists w1. exact Hacq.
Defined.

Lemma phase2_aborts_like_phase1_witness :
  @phase2_scan sample_consts host1_prepare_lver2 sample_blocks_contended
  = Abort (-213).
Proof.
  apply (proj1 (@phase2_aborts_like_phase1 sample_consts sample_consts_ok
                  host1_prepare_lver2 sample_blocks_contended zero_dblock
                  (-1) (-213))).
  reflexivity.
Defined.

(** ** The supervisor's kill rounds, over any number of passes *)

Section SupervisorRounds.
Import Supervisor.

Lemma targeted_same_name cl sp sp' :
  space_name sp' = space_name sp -> targeted cl sp' = targeted cl sp.
Proof. unfold targeted, client_using_space. by intros ->. Qed.

Lemma targeted_signalled_on cl cl' sp :
  signalled_on cl cl' -> targeted cl' sp = targeted cl sp.
Proof.
  intros (Hu & Hp & Ht & _). unfold targeted, client_using_space.
  by rewrite Hu, Hp, Ht.
Qed.

Lemma signalled_on_refl cl : signalled_on cl cl.
Proof. unfold signalled_on. repeat split; lia. Qed.

Lemma signalled_on_trans cl1 cl2 cl3 :
  signalled_on cl1 cl2 -> signalled_on cl2 cl3 -> signalled_on cl1 cl3.
Proof.
  unfold signalled_on.
  intros (Hu1 & Hp1 & Ht1 & H1) (Hu2 & Hp2 & Ht2 & H2).
  repeat split; first [congruence | lia].
Qed.

Lemma Forall2_signalled_on_refl cls : Forall2 signalled_on cls cls.
Proof. induction cls; constructor; auto using signalled_on_refl. Qed.

Lemma Forall2_signalled_on_trans cls1 cls2 cls3 :
  Forall2 signalled_on cls1 cls2 -> Forall2 signalled_on cls2 cls3 ->
  Forall2 signalled_on cls1 cls3.
Proof.
  intros H12. revert cls3. induction H12; intros cls3 H23;
    inversion H23; subst; constructor; eauto using signalled_on_trans.
Qed.

Lemma kills_app acts1 acts2 : kills (acts1 ++ acts2) = kills acts1 + kills acts2.
Proof.
  unfold kills. rewrite List.filter_app, length_app. lia.
Qed.

(** One signal loop: who is signalled, and how the counts move. *)
Lemma signal_round_spec sp limit sig cls :
  limit <= 2 ->
  Forall2 signalled_on cls (signal_round sp limit sig cls).1
  /\ kills (signal_round sp limit sig cls).2
     = sum_killing (signal_round sp limit sig cls).1 - sum_killing cls
  /\ (forall p s, Kill p s ∈ (signal_round sp limit sig cls).2 ->
        s = sig
        /\ exists cl, cl ∈ cls /\ pid cl = p /\ targeted cl sp = true
                      /\ killing cl <= limit).
Proof.
  intros Hlimit. unfold signal_round. cbn [fst snd]. split; [|split].
  - induction cls as [|cl cls IH]; cbn [map]; constructor; [|done].
    unfold signalled. destruct (targeted cl sp); cbn [andb];
      [|apply signalled_on_refl].
    destruct (Z.gtb_spec (killing cl) limit); cbn [negb];
      [apply signalled_on_refl|].
    unfold signalled_on, bump. cbn. repeat split; lia.
  - rewrite kills_app.
    assert (Hsleep : kills (if existsb (signalled sp limit) cls
                            then [Usleep 500000] else []) = 0)
      by by destruct (existsb _ _).
    rewrite Hsleep, Z.add_0_r. clear Hsleep.
    induction cls as [|cl cls IH]; [done|].
    cbn [map List.filter sum_killing foldr].
    fold (sum_killing cls).
    fold (sum_killing
            (map (fun cl0 => if signalled sp limit cl0 then bump cl0 else cl0)
               cls)).
    destruct (signalled sp limit cl).
    + cbn [map]. unfold kills in *. cbn [List.filter is_kill length bump killing].
      lia.
    + lia.
  - intros p s Hin. apply elem_of_app in Hin as [Hin|Hin].
    2: { destruct (existsb _ _); [|by apply elem_of_nil in Hin].
         apply list_elem_of_singleton in Hin. done. }
    apply list_elem_of_fmap in Hin as (cl & [= -> ->] & Hcl).
    apply list_elem_of_In, filter_In in Hcl as [Hcl Hsig].
    apply list_elem_of_In in Hcl.
    unfold signalled in Hsig. apply andb_true_iff in Hsig as [Htar Hk].
    split; [done|]. exists cl. repeat split; try done.
    destruct (Z.gtb_spec (killing cl) limit); [done|lia].
Qed.

Lemma dump_loop_no_kill cls : kills (dump_loop cls) = 0.
Proof.
  unfold dump_loop. induction cls as [|cl cls IH]; [done|].
  cbn [flat_map]. rewrite kills_app, IH. by destruct (_ && _).
Qed.

Lemma dump_loop_not_kill cls p s : Kill p s ∉ dump_loop cls.
Proof.
  intros Hin. unfold dump_loop in Hin.
  apply list_elem_of_In, in_flat_map in Hin as (cl & _ & Hin).
  destruct (_ && _); cbn in Hin; [|done].
  by destruct Hin as [[=]|[]].
Qed.

(** One call of [kill_pids]. *)
Lemma kill_pids_round cls sp :
  let r := kill_pids cls sp in
  space_name r.1.2 = space_name sp
  /\ killing_pids sp <= killing_pids r.1.2
  /\ Forall2 signalled_on cls r.1.1
  /\ kills r.2 = sum_killing r.1.1 - sum_killing cls
  /\ (forall p s, Kill p s ∈ r.2 ->
        exists cl, cl ∈ cls /\ pid cl = p /\ targeted cl sp = true).
Proof.
  cbv zeta. destruct (Z.le_gt_cases (killing_pids sp) 10) as [Hle|Hgt].
  - rewrite kill_pids_signals by done.
    destruct (killing_pids sp >? 1); cbn [fst snd].
    + destruct (signal_round_spec sp 2 SIGKILL cls) as (H1 & H2 & H3); [lia|].
      split; [done|]. split; [cbn; lia|]. split; [done|]. split; [done|].
      intros p s Hin. destruct (H3 p s Hin) as (_ & cl & ? & ? & ? & _).
      by exists cl.
    + destruct (signal_round_spec sp 1 SIGTERM cls) as (H1 & H2 & H3); [lia|].
      split; [done|]. split; [cbn; lia|]. split; [done|]. split; [done|].
      intros p s Hin. destruct (H3 p s Hin) as (_ & cl & ? & ? & ? & _).
      by exists cl.
  - unfold kill_pids.
    destruct (Z.gtb_spec (killing_pids sp) 11); cbn [fst snd].
    + split; [done|]. split; [lia|].
      split; [apply Forall2_signalled_on_refl|].
      split; [unfold kills; cbn; lia|].
      intros p s Hin. by apply elem_of_nil in Hin.
    + destruct (Z.gtb_spec (killing_pids sp) 10); [|lia]. cbn [fst snd].
      split; [done|]. split; [cbn; lia|].
      split; [apply Forall2_signalled_on_refl|].
      split; [rewrite dump_loop_no_kill; lia|].
      intros p s Hin. by apply dump_loop_not_kill in Hin.
Qed.

(** One pass of [main_loop] over a lockspace. *)
Lemma space_tick_round failed cls sp :
  let r := space_tick failed cls sp in
  Forall2 signalled_on cls r.1.1
  /\ kills r.2 = sum_killing r.1.1 - sum_killing cls
  /\ (forall p s, Kill p s ∈ r.2 ->
        exists cl, cl ∈ cls /\ pid cl = p /\ targeted cl sp = true)
  /\ match r.1.2 with
     | Some sp' => space_name sp' = space_name sp
     | None => existsb (fun cl => targeted cl sp) cls = false
     end.
Proof.
  cbv zeta. unfold space_tick.
  assert (Hnone : Forall2 signalled_on cls cls
                  /\ kills [] = sum_killing cls - sum_killing cls
                  /\ (forall p s, Kill p s ∈ [] ->
                        exists cl, cl ∈ cls /\ pid cl = p
                                   /\ targeted cl sp = true)).
  { split; [apply Forall2_signalled_on_refl|]. split; [unfold kills; cbn; lia|].
    intros p s Hin. by apply elem_of_nil in Hin. }
  destruct (negb (killing_pids sp =? 0)).
  - unfold all_pids_dead.
    destruct (existsb _ cls) eqn:Hex; cbn [negb].
    + pose proof (kill_pids_round cls sp) as (Hn & _ & H1 & H2 & H3).
      destruct (kill_pids cls sp) as [[cls' sp'] acts]. by cbn [fst snd] in *.
    + cbn [fst snd]. destruct Hnone as (? & ? & ?). done.
  - destruct failed.
    + pose proof (kill_pids_round cls (mk_space (space_name sp) 1))
        as (Hn & _ & H1 & H2 & H3).
      destruct (kill_pids cls _) as [[cls' sp'] acts]. cbn [fst snd] in *.
      split; [done|]. split; [done|]. split; [|done].
      intros p s Hin. destruct (H3 p s Hin) as (cl & ? & ? & Ht).
      exists cl. split; [done|]. split; [done|].
      by rewrite <- (targeted_same_name cl sp (mk_space (space_name sp) 1)).
    + cbn [fst snd]. destruct Hnone as (? & ? & ?). done.
Qed.

(** X18. However many passes [main_loop] makes over a lockspace whose
    clients do not exit, the kill rounds change nothing in the client
    table but the killing counts, which only grow and never past 3;
    every signal sent adds one to exactly one count, so a client that
    was not signalled before is sent three signals at most; each
    signal goes to the pid of a client that is in use, has a pid and
    holds a token of this lockspace; and as long as there is such a
    client the lockspace is not moved to [spaces_remove]. *)
Theorem kill_rounds_bounded_and_aimed
    (n : nat) (failed : bool) (cls : list client) (sp : space) :
  let r := ticks n failed cls sp in
  let acts := concat r.1.1 in
  let cls' := r.1.2 in
  Forall2 signalled_on cls cls'
  /\ kills acts = sum_killing cls' - sum_killing cls
  /\ (forall p s, Kill p s ∈ acts ->
        exists cl, cl ∈ cls /\ pid cl = p /\ targeted cl sp = true)
  /\ match r.2 with
     | Some sp' => space_name sp' = space_name sp
     | None => existsb (fun cl => targeted cl sp) cls = false
     end.
Proof.
  cbv zeta. revert cls sp.
  induction n as [|n IH]; intros cls sp.
  { cbn [ticks fst snd concat]. split; [apply Forall2_signalled_on_refl|].
    split; [unfold kills; cbn [List.filter length]; lia|]. split; [|done].
    intros p s Hin. by apply elem_of_nil in Hin. }
  cbn [ticks].
  pose proof (space_tick_round failed cls sp) as (H1 & H2 & H3 & H4).
  destruct (space_tick failed cls sp) as [[cls1 [sp1|]] acts1];
    cbn [fst snd] in *.
  - specialize (IH cls1 sp1).
    destruct (ticks n failed cls1 sp1) as [[rest cls2] sp2].
    cbn [fst snd concat] in *.
    destruct IH as (I1 & I2 & I3 & I4).
    split; [by eapply Forall2_signalled_on_trans|].
    split; [rewrite kills_app; lia|]. split.
    + intros p s Hin. apply elem_of_app in Hin as [Hin|Hin]; [by eapply H3|].
      destruct (I3 p s Hin) as (cl1 & Hcl1 & Hp & Ht).
      apply list_elem_of_lookup in Hcl1 as [i Hi].
      destruct (Forall2_lookup_r _ _ _ _ _ H1 Hi) as (cl & Hcl & Hon).
      exists cl. split; [by eapply list_elem_of_lookup_2|].
      destruct Hon as (Hu & Hpid & Htok & _).
      split; [congruence|].
      rewrite (targeted_same_name cl1 sp sp1) in Ht by done.
      revert Ht. unfold targeted, client_using_space.
      by rewrite Hu, Hpid, Htok.
    + destruct sp2 as [sp2|].
      * congruence.
      * rewrite <- I4. clear -H1 H4.
        induction H1 as [|cl cl1 cls cls1 Hon _ IHf]; [done|]. cbn [existsb].
        rewrite IHf, (targeted_signalled_on cl cl1 sp1 Hon).
        by rewrite !(targeted_same_name _ sp sp1).
  - cbn [concat]. rewrite app_nil_r. done.
Qed.

End SupervisorRounds.

(** ** The client table *)

Section DaemonProperties.
Import Daemon.
Context (SANLK_MAX_RESOURCES : nat) (SM_CMD_ACQUIRE EBUSY : Z).

#[local] Abbreviation zero_client := (zero_client SANLK_MAX_RESOURCES).
#[local] Abbreviation client_alloc := (client_alloc SANLK_MAX_RESOURCES).
#[local] Abbreviation client_add_again :=
  (client_add_again SANLK_MAX_RESOURCES).
#[local] Abbreviation client_add := (client_add SANLK_MAX_RESOURCES).
#[local] Abbreviation client_dead := (client_dead SANLK_MAX_RESOURCES).
#[local] Abbreviation client_pid_dead :=
  (client_pid_dead SANLK_MAX_RESOURCES SM_CMD_ACQUIRE).
#[local] Abbreviation set_cmd_active :=
  (set_cmd_active SANLK_MAX_RESOURCES EBUSY).
#[local] Abbreviation client_at := (client_at SANLK_MAX_RESOURCES).

(** The loop of [client_add] stops at the first entry not in use. *)
Lemma find_unused_spec cls i0 :
  match find_unused cls i0 with
  | Some i =>
      exists k c, i = (i0 + k)%nat /\ cls !! k = Some c /\ used c = false
                  /\ forall j c', (j < k)%nat -> cls !! j = Some c' ->
                       used c' = true
  | None => Forall (fun c => used c = true) cls
  end.
Proof.
  revert i0. induction cls as [|c cls IH]; intros i0; cbn [find_unused];
    [done|].
  destruct (used c) eqn:Hu; cbn [negb].
  - specialize (IH (S i0)). destruct (find_unused cls (S i0)) as [i|].
    + destruct IH as (k & c' & -> & Hk & Hc' & Hbefore).
      exists (S k), c'. split; [lia|]. split; [done|]. split; [done|].
      intros [|j] c'' Hj Hc''; cbn in Hc''; [congruence|].
      apply (Hbefore j); [lia|done].
    + by constructor.
  - exists 0%nat, c. split; [lia|]. split; [done|]. split; [done|].
    intros j c' Hj. lia.
Qed.

Lemma find_unused_app cls1 cls2 i0 :
  find_unused (cls1 ++ cls2) i0
  = match find_unused cls1 i0 with
    | Some i => Some i
    | None => find_unused cls2 (i0 + length cls1)
    end.
Proof.
  revert i0. induction cls1 as [|c cls1 IH]; intros i0; cbn.
  - by rewrite Nat.add_0_r.
  - destruct (negb (used c)); [done|]. rewrite IH.
    by replace (S i0 + length cls1)%nat with (i0 + S (length cls1))%nat by lia.
Qed.

Lemma client_add_eq fuel fd wf df t :
  client_add (S fuel) fd wf df t
  = Some (Z.of_nat (entry_taken t),
          take_entry (entry_taken t) fd wf df
            (match find_unused (clients t) 0 with
             | Some _ => t
             | None => client_alloc t
             end)).
Proof.
  unfold client_add, entry_taken.
  assert (Hfull : forall f t0,
            find_unused (clients t0) 0 = None ->
            client_add_again f fd wf df (client_alloc t0)
            = Some (Z.of_nat (length (clients t0)),
                    take_entry (length (clients t0)) fd wf df
                      (client_alloc t0))).
  { intros f t0 Hnone.
    assert (Hfind : find_unused (clients (client_alloc t0)) 0
                    = Some (length (clients t0))).
    { unfold Daemon.client_alloc. cbn [clients].
      by rewrite find_unused_app, Hnone. }
    destruct f; cbn [client_add_again]; by rewrite Hfind. }
  destruct (clients t) as [|c cls] eqn:Hcls.
  - rewrite <- Hcls. rewrite (Hfull (S fuel) t) by by rewrite Hcls.
    by rewrite Hcls.
  - rewrite <- Hcls. cbn [client_add_again].
    destruct (find_unused (clients t) 0) as [i|] eqn:Hfind; [done|].
    by apply Hfull.
Qed.

(** X19. [client_add] always finds an entry, after at most one more
    pass from [again:]: the first entry not in use or, when all are in
    use (or none is allocated), the first of a new block of
    CLIENT_NALLOC.  It marks that entry used with the fd and the
    functions given ([client_dead] for a NULL [deadfn]), polls the fd
    for input, raises [client_maxi] to the index if that is larger, and
    leaves every other entry as it was. *)
Theorem client_add_takes_first_free
    (fuel : nat) (fd : Z) (wf df : option fn) (t : table) :
  length (pollfd t) = length (clients t) ->
  exists i t',
    client_add (S fuel) fd wf df t = Some (Z.of_nat i, t')
    /\ (forall j, (j < i)%nat ->
          exists c, clients t !! j = Some c /\ used c = true)
    /\ ((i < length (clients t))%nat -> used (client_at t i) = false)
    /\ length (clients t')
       = (if decide (i < length (clients t))%nat then length (clients t)
          else length (clients t) + CLIENT_NALLOC)%nat
    /\ (i <= length (clients t))%nat
    /\ length (pollfd t') = length (clients t')
    /\ (exists c, clients t' !! i = Some c
          /\ used c = true /\ Daemon.fd c = fd /\ workfn c = wf
          /\ deadfn c = Some (default ClientDeadFn df))
    /\ (exists p, pollfd t' !! i = Some p /\ p_fd p = fd /\ p_events p = POLLIN)
    /\ (forall j, j <> i -> (j < length (clients t))%nat ->
          clients t' !! j = clients t !! j /\ pollfd t' !! j = pollfd t !! j)
    /\ client_maxi t' = Z.max (client_maxi t) (Z.of_nat i).
Proof.
  intros Hlen. exists (entry_taken t). eexists. split; [apply client_add_eq|].
  unfold entry_taken.
  pose proof (find_unused_spec (clients t) 0) as Hspec.
  assert (Hmaxi : forall i t0,
            client_maxi t0 = client_maxi t ->
            client_maxi (take_entry i fd wf df t0)
            = Z.max (client_maxi t) (Z.of_nat i)).
  { intros i t0 Hm. unfold take_entry. cbn [client_maxi]. rewrite Hm.
    destruct (Z.gtb_spec (Z.of_nat i) (client_maxi t)); lia. }
  destruct (find_unused (clients t) 0) as [i|]; unfold default;
    cbn [from_option]; unfold id.
  - destruct Hspec as (k & c & -> & Hk & Hc & Hbefore). cbn [Nat.add].
    pose proof (lookup_lt_Some _ _ _ Hk) as Hlt.
    assert (Hp : is_Some (pollfd t !! k))
      by (apply lookup_lt_is_Some; lia).
    destruct Hp as [p Hp].
    split.
    { intros j Hj. destruct (lookup_lt_is_Some_2 (clients t) j) as [c' Hc'];
        [lia|]. exists c'. split; [done|]. by apply (Hbefore j). }
    split; [intros _; unfold Daemon.client_at; by rewrite Hk|].
    unfold take_entry. cbn [clients pollfd].
    rewrite !length_alter. split; [by destruct (decide _); [|lia]|].
    split; [lia|]. split; [done|]. split.
    { rewrite list_lookup_alter_eq, Hk. cbn. eexists. split; [done|]. done. }
    split.
    { rewrite list_lookup_alter_eq, Hp. cbn. eexists. split; [done|]. done. }
    split; [|by apply Hmaxi].
    intros j Hne _. by rewrite !list_lookup_alter_ne.
  - split.
    { intros j Hj. destruct (lookup_lt_is_Some_2 (clients t) j) as [c' Hc'];
        [lia|]. exists c'. split; [done|].
      rewrite Forall_forall in Hspec. apply Hspec.
      by eapply list_elem_of_lookup_2. }
    split; [lia|].
    unfold take_entry, Daemon.client_alloc. cbn [clients pollfd].
    rewrite !length_alter, !length_app, !length_replicate.
    split; [by destruct (decide _); [lia|]|].
    split; [lia|]. split; [lia|]. split.
    { rewrite list_lookup_alter_eq, lookup_app_r, Nat.sub_diag by lia.
      cbn. eexists. split; [done|]. done. }
    split.
    { rewrite list_lookup_alter_eq, lookup_app_r by lia.
      rewrite Hlen, Nat.sub_diag. cbn. eexists. split; [done|]. done. }
    split; [|by apply Hmaxi].
    intros j Hne Hj. rewrite !list_lookup_alter_ne by done.
    rewrite !lookup_app_l by lia. done.
Qed.

Lemma client_add_again_more fuel fd wf df t r :
  client_add_again fuel fd wf df t = Some r ->
  client_add_again (S fuel) fd wf df t = Some r.
Proof.
  revert t. induction fuel as [|fuel IH]; intros t.
  - cbn. by destruct (find_unused (clients t) 0).
  - intros Hrun. cbn [Daemon.client_add_again] in *.
    destruct (find_unused (clients t) 0); [done|]. by apply IH.
Qed.

(** Whatever [client_add] returns is what one more pass gives. *)
Lemma client_add_some fuel fd wf df t i t' :
  client_add fuel fd wf df t = Some (i, t') ->
  client_add 1 fd wf df t = Some (i, t').
Proof.
  intros Hadd. apply client_add_again_more in Hadd.
  change (client_add (S fuel) fd wf df t = Some (i, t')) in Hadd.
  by rewrite client_add_eq in *.
Qed.

Lemma table_ok_take_entry fd wf df t :
  table_ok t ->
  table_ok (take_entry (entry_taken t) fd wf df
              (match find_unused (clients t) 0 with
               | Some _ => t
               | None => client_alloc t
               end)).
Proof.
  intros (Hlen & Hmaxi & Hused). unfold entry_taken, client_size in *.
  pose proof (find_unused_spec (clients t) 0) as Hspec.
  destruct (find_unused (clients t) 0) as [i|]; unfold default;
    cbn [from_option]; unfold id.
  - destruct Hspec as (k & c & -> & Hk & _). cbn [Nat.add].
    pose proof (lookup_lt_Some _ _ _ Hk) as Hlt.
    unfold table_ok, take_entry, client_size. cbn [clients pollfd client_maxi].
    rewrite !length_alter. split; [done|]. split.
    { destruct (Z.gtb_spec (Z.of_nat k) (client_maxi t)); lia. }
    intros j c' Hj Hu. destruct (decide (k = j)) as [<-|Hne].
    + destruct (Z.gtb_spec (Z.of_nat k) (client_maxi t)); lia.
    + rewrite list_lookup_alter_ne in Hj by done.
      specialize (Hused j c' Hj Hu).
      destruct (Z.gtb_spec (Z.of_nat k) (client_maxi t)); lia.
  - unfold table_ok, take_entry, Daemon.client_alloc, client_size.
    cbn [clients pollfd client_maxi].
    rewrite !length_alter, !length_app, !length_replicate.
    split; [lia|]. split.
    { unfold CLIENT_NALLOC.
      destruct (Z.gtb_spec (Z.of_nat (length (clients t))) (client_maxi t));
        lia. }
    intros j c' Hj Hu.
    destruct (decide (length (clients t) = j)) as [<-|Hne].
    + destruct (Z.gtb_spec (Z.of_nat (length (clients t))) (client_maxi t));
        lia.
    + rewrite list_lookup_alter_ne in Hj by done.
      apply lookup_app_Some in Hj as [Hj|[_ Hj]].
      * specialize (Hused j c' Hj Hu).
        destruct (Z.gtb_spec (Z.of_nat (length (clients t))) (client_maxi t));
          lia.
      * apply lookup_replicate in Hj as [-> _]. done.
Qed.

(** X20. The client table keeps its shape: starting from the empty
    table, [client_add], [client_dead], [client_pid_dead],
    [set_cmd_active], [client_ignore] and [client_back] all keep
    [client] and [pollfd] of one size, [client_maxi] within the array,
    and every entry in use at an index up to [client_maxi].  So the
    loops of [kill_pids] and [all_pids_dead], which stop at
    [client_maxi], pass over every client in use. *)
Theorem client_table_invariant :
  table_ok no_table
  /\ forall t,
       table_ok t ->
       (forall fuel fd wf df i t',
          client_add fuel fd wf df t = Some (i, t') -> table_ok t')
       /\ (forall ci, table_ok (client_dead ci t).2)
       /\ (forall ci, table_ok (client_pid_dead ci t).2)
       /\ (forall ci cmd, table_ok (set_cmd_active ci cmd t).2)
       /\ (forall ci, table_ok (client_ignore ci t))
       /\ (forall ci fd, table_ok (client_back ci fd t))
       /\ (forall i c, clients t !! i = Some c -> used c = true ->
             scanned t !! i = Some (seen_by_supervisor c)).
Proof.
  split.
  { unfold table_ok, no_table, client_size. cbn. split; [done|].
    split; [lia|]. intros i c Hi. by rewrite lookup_nil in Hi. }
  intros t Hok.
  assert (Hdead : forall t0 ci, table_ok t0 -> table_ok (client_dead ci t0).2).
  { intros t0 ci (Hlen & Hmaxi & Hused).
    unfold table_ok, Daemon.client_dead, client_size in *.
    cbn [snd clients pollfd client_maxi].
    rewrite length_alter, length_insert. split; [done|]. split; [done|].
    intros j c Hj Hu. rewrite list_lookup_insert in Hj.
    destruct (decide _) as [_|_]; [by injection Hj as <-|].
    by apply (Hused j c). }
  assert (Hset : forall t0 ci c',
            table_ok t0 ->
            used c' = used (client_at t0 ci) ->
            table_ok (mk_table (<[ci := c']> (clients t0)) (pollfd t0)
                        (client_maxi t0))).
  { intros t0 ci c' (Hlen & Hmaxi & Hused) Hsame.
    unfold table_ok, client_size in *. cbn [clients pollfd client_maxi].
    rewrite length_insert. split; [done|]. split; [done|].
    intros j c Hj Hu. rewrite list_lookup_insert in Hj.
    destruct (decide _) as [[<- Hlt]|_]; [|by apply (Hused j c)].
    injection Hj as <-.
    destruct (lookup_lt_is_Some_2 (clients t0) ci Hlt) as [c0 Hc0].
    apply (Hused ci c0 Hc0). rewrite <- Hu, Hsame.
    unfold Daemon.client_at. by rewrite Hc0. }
  split.
  { intros fuel fd wf df i t' Hadd. apply client_add_some in Hadd.
    rewrite client_add_eq in Hadd. injection Hadd as _ <-.
    by apply table_ok_take_entry. }
  split; [intros ci; by apply Hdead|]. split.
  { intros ci. unfold Daemon.client_pid_dead. cbv zeta.
    destruct (_ && _); cbn [snd].
    - by apply Hset.
    - match goal with
      | |- context [Daemon.client_dead _ ci ?t1] =>
          pose proof (Hdead t1 ci) as Hd;
          destruct (Daemon.client_dead SANLK_MAX_RESOURCES ci t1)
      end.
      cbn [snd] in *. apply Hd. by apply Hset. }
  split.
  { intros ci cmd. unfold Daemon.set_cmd_active. cbv zeta.
    destruct (_ && _); cbn [snd]; by apply Hset. }
  destruct Hok as (Hlen & Hmaxi & Hused).
  split.
  { intros ci. unfold table_ok, client_ignore, client_size in *.
    cbn [clients pollfd client_maxi]. by rewrite length_alter. }
  split.
  { intros ci fd. unfold table_ok, client_back, client_size in *.
    cbn [clients pollfd client_maxi]. by rewrite length_alter. }
  intros i c Hi Hu. unfold scanned.
  rewrite list_lookup_fmap, lookup_take_lt, Hi; [done|].
  specialize (Hused i c Hi Hu). lia.
Qed.

Lemma find_pid_from_spec p cls i0 :
  0 <= i0 ->
  let r := find_pid_from p cls i0 in
  (r = -1 /\ forall k c, cls !! k = Some c -> used c = true -> pid c <> p)
  \/ (exists k c,
        r = i0 + Z.of_nat k /\ cls !! k = Some c /\ used c = true /\ pid c = p
        /\ forall j c', (j < k)%nat -> cls !! j = Some c' -> used c' = true ->
             pid c' <> p).
Proof.
  revert i0. induction cls as [|c cls IH]; intros i0 Hi0; cbv zeta.
  { left. split; [done|]. intros k c Hk. by rewrite lookup_nil in Hk. }
  cbn [find_pid_from].
  destruct (used c) eqn:Hu; cbn [andb];
    [destruct (Z.eqb_spec (pid c) p) as [Hp|Hp]|].
  - right. exists 0%nat, c. split; [lia|]. repeat split; try done.
    intros j c' Hj. lia.
  - destruct (IH (i0 + 1) ltac:(lia)) as [[Hr Hnone]|(k & c' & Hr & Hk & Hrest)].
    + left. split; [done|]. intros [|k] c' Hk Hu'; cbn in Hk.
      * by injection Hk as <-.
      * by apply (Hnone k).
    + right. exists (S k), c'. split; [lia|]. split; [done|].
      destruct Hrest as (Hu' & Hp' & Hbefore). repeat split; try done.
      intros [|j] c'' Hj Hc'' Hu''; cbn in Hc''.
      * by injection Hc'' as <-.
      * apply (Hbefore j); [lia|done|done].
  - destruct (IH (i0 + 1) ltac:(lia)) as [[Hr Hnone]|(k & c' & Hr & Hk & Hrest)].
    + left. split; [done|]. intros [|k] c' Hk Hu'; cbn in Hk.
      * injection Hk as <-. congruence.
      * by apply (Hnone k).
    + right. exists (S k), c'. split; [lia|]. split; [done|].
      destruct Hrest as (Hu' & Hp' & Hbefore). repeat split; try done.
      intros [|j] c'' Hj Hc'' Hu''; cbn in Hc''.
      * injection Hc'' as <-. congruence.
      * apply (Hbefore j); [lia|done|done].
Qed.

(** X21. [find_client_pid] returns the index of the first entry in use
    that has the pid, and -1 exactly when no entry in use has it; it
    looks at the whole array, not only up to [client_maxi].  An entry
    that [client_dead] has cleared is never found again, whatever pid
    is asked for, and one that [client_pid_dead] has handled is not
    found under the pid it had. *)
Theorem find_client_pid_first_in_use (p : Z) (t : table) :
  let r := find_client_pid p t in
  (r = -1 <->
   forall i c, clients t !! i = Some c -> used c = true -> pid c <> p)
  /\ (r <> -1 ->
      exists k c,
        r = Z.of_nat k /\ clients t !! k = Some c
        /\ used c = true /\ pid c = p
        /\ forall j c', (j < k)%nat -> clients t !! j = Some c' ->
             used c' = true -> pid c' <> p)
  /\ (forall ci, find_client_pid p (client_dead ci t).2 <> Z.of_nat ci)
  /\ (forall ci, 0 < p -> pid (client_at t ci) = p ->
        find_client_pid p (client_pid_dead ci t).2 <> Z.of_nat ci).
Proof.
  cbv zeta. unfold find_client_pid.
  assert (Hnot : forall t' ci,
            (forall c, clients t' !! ci = Some c ->
               used c = false \/ pid c <> p) ->
            find_pid_from p (clients t') 0 <> Z.of_nat ci).
  { intros t' ci Hci Heq.
    destruct (find_pid_from_spec p (clients t') 0 ltac:(lia))
      as [[Hr _]|(k & c & Hr & Hk & Hu & Hp & _)]; cbv zeta in *; [lia|].
    assert (k = ci) as -> by lia.
    destruct (Hci c Hk); congruence. }
  split; [|split; [|split]].
  - destruct (find_pid_from_spec p (clients t) 0 ltac:(lia))
      as [[Hr Hnone]|(k & c & Hr & Hk & Hu & Hp & _)]; cbv zeta in *.
    + done.
    + split; [lia|]. intros Hnone. by destruct (Hnone k c).
  - intros Hr. destruct (find_pid_from_spec p (clients t) 0 ltac:(lia))
      as [[Hr' _]|(k & c & Hr' & Hrest)]; cbv zeta in *; [done|].
    exists k, c. split; [lia|done].
  - intros ci. apply Hnot. unfold Daemon.client_dead. cbn [snd clients].
    intros c Hc. rewrite list_lookup_insert in Hc.
    destruct (decide _) as [_|Hno].
    + injection Hc as <-. by left.
    + destruct Hno. split; [done|]. by apply lookup_lt_Some in Hc.
  - intros ci Hpos Hpid. apply Hnot. unfold Daemon.client_pid_dead.
    cbv zeta. destruct (_ && _); cbn [snd clients].
    + intros c Hc. rewrite list_lookup_insert in Hc.
      destruct (decide _) as [_|Hno].
      * injection Hc as <-. right. cbn. lia.
      * destruct Hno. split; [done|]. by apply lookup_lt_Some in Hc.
    + unfold Daemon.client_dead. cbn [snd clients].
      intros c Hc. rewrite list_lookup_insert in Hc.
      destruct (decide _) as [_|Hno].
      * injection Hc as <-. by left.
      * destruct Hno. split; [done|]. by apply lookup_lt_Some in Hc.
Qed.

(** X22. When the process of a client dies while its acquire is still
    in progress, [client_pid_dead] keeps the entry in use and sets its
    pid to -1.  [kill_pids] passes over an entry only when its pid is 0,
    so if the lockspace of one of that client's tokens then fails, the
    next round of [kill_pids] calls [kill] with pid -1, and
    [all_pids_dead] still counts the entry as a live client. *)
Theorem dead_pid_of_pending_acquire_is_signalled
    (ci : nat) (t : table) (sp : Supervisor.space) (cl : client) :
  clients t !! ci = Some cl ->
  Z.of_nat ci <= client_maxi t ->
  used cl = true ->
  cmd_active cl = SM_CMD_ACQUIRE ->
  acquire_done cl = 0 ->
  Supervisor.client_using_space (seen_by_supervisor cl) sp = true ->
  killing cl <= 1 ->
  Supervisor.killing_pids sp <= 10 ->
  let t' := (client_pid_dead ci t).2 in
  let sig := if Supervisor.killing_pids sp >? 1
             then Supervisor.SIGKILL else Supervisor.SIGTERM in
  (exists cl', clients t' !! ci = Some cl'
     /\ used cl' = true /\ pid cl' = -1 /\ pid_dead cl' = 1
     /\ tokens cl' = tokens cl)
  /\ Supervisor.Kill (-1) sig ∈ (Supervisor.kill_pids (scanned t') sp).2
  /\ Supervisor.all_pids_dead (scanned t') sp = false.
Proof.
  intros Hcl Hmaxi Hused Hcmd Hdone Huse Hkilling Hkp. cbv zeta.
  pose proof (lookup_lt_Some _ _ _ Hcl) as Hlt.
  unfold Daemon.client_pid_dead, Daemon.client_at. rewrite Hcl.
  unfold default; cbn [from_option]; unfold id.
  rewrite Hcmd, Hdone, !Z.eqb_refl. cbn [andb snd].
  set (cl' := mk_client _ _ _ _ _ _ _ _ _ _).
  set (t' := mk_table _ _ _).
  assert (Hcl' : clients t' !! ci = Some cl')
    by (unfold t'; cbn; by apply list_lookup_insert_eq).
  assert (Hseen : scanned t' !! ci = Some (seen_by_supervisor cl')).
  { unfold scanned. rewrite list_lookup_fmap, lookup_take_lt, Hcl'; [done|].
    unfold t'. cbn. lia. }
  assert (Htar : Supervisor.targeted (seen_by_supervisor cl') sp = true).
  { unfold Supervisor.targeted. unfold cl' at 1 2. cbn.
    rewrite Hused. exact Huse. }
  split; [exists cl'; by cbn|]. split.
  - rewrite kill_pids_signals by done.
    assert (Hin : forall limit s,
              1 <= limit ->
              Supervisor.Kill (-1) s
              ∈ (Supervisor.signal_round sp limit s (scanned t')).2).
    { intros limit s Hlimit. unfold Supervisor.signal_round. cbn [snd].
      apply elem_of_app. left.
      apply (list_elem_of_fmap_2'
               (fun c => Supervisor.Kill (Supervisor.pid c) s)
               _ (seen_by_supervisor cl')); [|done].
      apply list_elem_of_In, filter_In. split.
      - apply list_elem_of_In. by eapply list_elem_of_lookup_2.
      - unfold Supervisor.signalled. rewrite Htar. cbn.
        destruct (Z.gtb_spec (killing cl) limit); [lia|done]. }
    destruct (Supervisor.killing_pids sp >? 1); cbn [snd]; by apply Hin.
  - unfold Supervisor.all_pids_dead. apply negb_false_iff.
    apply existsb_exists. exists (seen_by_supervisor cl').
    split; [|done]. apply list_elem_of_In. by eapply list_elem_of_lookup_2.
Qed.

(** X23. [set_cmd_active] lets one command at a time be active on a
    client: a command is made active, with result 0, only when none is;
    while it is, every other attempt returns -EBUSY and changes
    nothing; and after the command has been cleared with [cmd] 0 the
    next attempt succeeds again. *)
Theorem set_cmd_active_one_at_a_time
    (ci : nat) (cmd cmd' : Z) (t : table) :
  (ci < length (clients t))%nat ->
  EBUSY <> 0 ->
  cmd <> 0 ->
  cmd' <> 0 ->
  let r := set_cmd_active ci cmd t in
  (r.1 = 0 <-> cmd_active (client_at t ci) = 0)
  /\ (r.1 <> 0 -> r.1 = - EBUSY /\ r.2 = t)
  /\ (r.1 = 0 ->
      cmd_active (client_at r.2 ci) = cmd
      /\ set_cmd_active ci cmd' r.2 = (- EBUSY, r.2)
      /\ let cleared := set_cmd_active ci 0 r.2 in
         cleared.1 = 0
         /\ cmd_active (client_at cleared.2 ci) = 0
         /\ (set_cmd_active ci cmd' cleared.2).1 = 0).
Proof.
  intros Hlt Hbusy Hcmd Hcmd'. cbv zeta.
  destruct (lookup_lt_is_Some_2 (clients t) ci Hlt) as [cl Hcl].
  pose (with_active := fun (c : client) (x : Z) =>
          mk_client (used c) (fd c) (pid c) x (acquire_done c) (pid_dead c)
            (killing c) (workfn c) (deadfn c) (tokens c)).
  assert (Hstep : forall t0 c cmd0,
            clients t0 !! ci = Some c ->
            set_cmd_active ci cmd0 t0
            = (if negb (cmd0 =? 0) && negb (cmd_active c =? 0)
               then - EBUSY else 0,
               mk_table
                 (<[ci := with_active c
                            (if cmd0 =? 0 then 0
                             else if cmd_active c =? 0 then cmd0
                                  else cmd_active c)]> (clients t0))
                 (pollfd t0) (client_maxi t0))).
  { intros t0 c cmd0 Hc. unfold Daemon.set_cmd_active, Daemon.client_at.
    rewrite Hc. unfold default; cbn [from_option]; unfold id.
    by destruct (_ && _). }
  assert (Hsame : forall t0 c,
            clients t0 !! ci = Some c ->
            mk_table (<[ci := with_active c (cmd_active c)]> (clients t0))
              (pollfd t0) (client_maxi t0) = t0).
  { intros t0 c Hc. destruct t0 as [cls pf mx], c. cbn in *.
    by rewrite list_insert_id. }
  assert (Hat : forall t0 c, clients t0 !! ci = Some c -> client_at t0 ci = c).
  { intros t0 c Hc. unfold Daemon.client_at. by rewrite Hc. }
  rewrite (Hstep t cl cmd Hcl), (Hat t cl Hcl).
  destruct (Z.eqb_spec cmd 0) as [|_]; [done|]. cbn [negb andb].
  destruct (Z.eqb_spec (cmd_active cl) 0) as [Hfree|Hbusy'];
    cbn [negb fst snd].
  - split; [done|]. split; [done|]. intros _.
    set (t1 := mk_table _ _ _).
    assert (Hcl1 : clients t1 !! ci = Some (with_active cl cmd))
      by (unfold t1; cbn; by apply list_lookup_insert_eq).
    rewrite (Hat t1 _ Hcl1). split; [done|].
    rewrite !(Hstep t1 _ _ Hcl1). cbn [cmd_active with_active].
    destruct (Z.eqb_spec cmd' 0) as [|_]; [done|].
    destruct (Z.eqb_spec cmd 0) as [|_]; [done|]. cbn [negb andb fst snd].
    split; [f_equal; by apply (Hsame t1 _ Hcl1)|].
    change (0 =? 0) with true. cbn [negb andb fst snd]. split; [done|].
    set (t2 := mk_table _ _ _).
    assert (Hcl2 : clients t2 !! ci = Some (with_active cl 0)).
    { unfold t2. cbn [clients].
      rewrite list_lookup_insert_eq; [done|].
      unfold t1. cbn [clients]. by rewrite length_insert. }
    rewrite (Hat t2 _ Hcl2). split; [done|].
    rewrite (Hstep t2 _ _ Hcl2). cbn [cmd_active with_active fst].
    change (0 =? 0) with true. by rewrite andb_false_r.
  - split; [lia|]. split; [|lia]. intros _. split; [done|].
    by apply Hsame.
Qed.

End DaemonProperties.

(** ** The statements above at sample inputs *)

Lemma dblock_write_read_round_trip_witness :
  (read_dblock 0 1
     (@write_dblock sample_consts 0 1 host1_prepare_lver2 world_host1).2).1.2
  = set_pd_checksum 4 host1_prepare_lver2.
Proof.
  destruct (@write_dblock sample_consts 0 1 host1_prepare_lver2 world_host1)
    as [[rv pd'] w'] eqn:Hw.
  assert (Hv : 0 <= rv /\ pd' = set_pd_checksum 4 host1_prepare_lver2).
  { vm_compute in Hw. injection Hw as <- <- _. by vm_compute. }
  destruct Hv as [Hrv Hpd].
  destruct (@dblock_write_read_round_trip sample_consts sample_consts_ok
              0 1 host1_prepare_lver2 pd' rv world_host1 w' eq_refl
              ltac:(vm_compute; lia) Hw Hrv) as (_ & Hread & _).
  cbn [snd]. rewrite Hread. cbn [fst snd]. exact Hpd.
Defined.

Lemma erase_dblock_clears_own_slot_witness :
  let w := world_dblocks_on_three_disks in
  let r := @paxos_erase_dblock sample_consts 1 w in
  r.1 = 1
  /\ erased (sec_dblock (disk_sector r.2 0 0))
  /\ erased (sec_dblock (disk_sector r.2 2 0))
  /\ sec_dblock (disk_sector r.2 1 0) = host1_accept
  /\ (forall d, sec_dblock (disk_sector r.2 d 1) = sec_dblock (disk_sector w d 1))
  /\ w_token r.2 = token_host1
  /\ disk_leader r.2 0 = free_leader.
Proof.
  destruct (@erase_dblock_clears_own_slot sample_consts sample_consts_ok 1
              world_dblocks_on_three_disks eq_refl)
    as (Hres & Hown & Hfail & Hsec & Hlead & Htok).
  cbv zeta. split; [rewrite Hres; by vm_compute|].
  split; [apply (Hown 0%nat 0); [by vm_compute|lia]|].
  split; [apply (Hown 2%nat 0); [by vm_compute|lia]|].
  split.
  { unfold disk_sector. rewrite (Hfail 1%nat (-5)); [by vm_compute| |lia].
    by vm_compute. }
  split; [intros d; by rewrite (Hsec d 1)|].
  split; [exact Htok|exact (Hlead 0%nat)].
Defined.

Lemma init_leader_reads_back_free_witness :
  (@paxos_lease_leader_read sample_consts zero_leader
     (@paxos_lease_init sample_consts 8 false world_host1).2).1.1 = 1
  /\ (let r := (@paxos_lease_leader_read sample_consts zero_leader
                  (@paxos_lease_init sample_consts (-1) false world_host1).2).1
      in r.1 = 1 /\ lr_num_hosts r.2 = 2 ^ 64 - 1).
Proof.
  split.
  - destruct (@init_leader_reads_back_free sample_consts sample_consts_ok
                8 false world_host1)
      as (l & Hdisk & _ & _ & _ & _ & _ & _ & _ & _ & _ & _ & _ & _ & _ & Hread).
    + by vm_compute.
    + by vm_compute.
    + by vm_compute.
    + by vm_compute.
    + vm_compute. by repeat constructor.
    + destruct (Hdisk 0%nat) as [Hl _]; [vm_compute; lia|]. subst l.
      rewrite Hread; [by vm_compute|by vm_compute|by vm_compute|by vm_compute].
  - destruct (@init_leader_reads_back_free sample_consts sample_consts_ok
                (-1) false world_host1)
      as (l & Hdisk & _ & _ & _ & _ & _ & _ & _ & _ & _ & Hnum & _ & _ & _ & Hread).
    + by vm_compute.
    + by vm_compute.
    + by vm_compute.
    + by vm_compute.
    + vm_compute. by repeat constructor.
    + cbv zeta.
      rewrite Hread; [|by vm_compute|by vm_compute|by vm_compute].
      rewrite Hnum. by vm_compute.
Defined.

Lemma acquire_ok_only_as_owner_witness :
  exists leader dblock,
    (@paxos_lease_acquire sample_consts 5 (mk_args 0 0 0) zero_leader
       zero_dblock world_host1).1 = Some (1, leader, dblock)
    /\ lr_owner_id leader = 1.
Proof.
  eexists _, _. split; [vm_compute; reflexivity|].
  refine (@acquire_ok_only_as_owner sample_consts sample_consts_ok 5
            (mk_args 0 0 0) zero_leader _ zero_dblock _ 1 world_host1
            _ _ eq_refl).
  - vm_compute. by repeat constructor.
  - vm_compute. reflexivity.
Defined.

Lemma ballot_alloc_failure_is_committed_witness :
  (@run_ballot sample_consts 0 8 1 1 zero_dblock world_no_memory).1
  = (12, zero_dblock).
Proof.
  destruct (@ballot_alloc_failure_is_committed sample_consts sample_consts_ok
              (mk_args 0 0 0) vars_free 1 1 world_no_memory)
    as (Hrun & _).
  - by vm_compute.
  - by vm_compute.
  - by vm_compute.
  - exact (f_equal fst Hrun).
Defined.


Lemma client_add_takes_first_free_witness :
  exists t',
    Daemon.client_add 8 1 7 (Some (Daemon.Fn "process_listener")) None
      Daemon.no_table = Some (0, t')
    /\ Daemon.client_maxi t' = 0.
Proof.
  destruct (client_add_takes_first_free 8 0 7
              (Some (Daemon.Fn "process_listener")) None Daemon.no_table
              eq_refl)
    as (i & t' & Hadd & _ & _ & _ & Hi & _ & _ & _ & _ & Hmaxi).
  cbn in Hi. assert (i = 0%nat) as -> by lia.
  exists t'. split; [exact Hadd|exact Hmaxi].
Defined.

Lemma dead_pid_of_pending_acquire_is_signalled_witness :
  Supervisor.Kill (-1) Supervisor.SIGTERM
  ∈ (Supervisor.kill_pids
       (Daemon.scanned (Daemon.client_pid_dead 8 1 0 table_acquiring).2)
       space_LS).2.
Proof.
  destruct (dead_pid_of_pending_acquire_is_signalled 8 1 0 table_acquiring
              space_LS
              (Daemon.mk_client true 5 4321 1 0 0 0 None
                 (Some Daemon.ClientDeadFn) [Some "LS"%string; None]))
    as (_ & Hkill & _);
    [by vm_compute|by vm_compute|by vm_compute|by vm_compute|by vm_compute
    |by vm_compute|by vm_compute|by vm_compute|].
  exact Hkill.
Defined.

Lemma set_cmd_active_one_at_a_time_witness :
  (Daemon.set_cmd_active 8 16 0 3
     (Daemon.set_cmd_active 8 16 0 2 table_idle).2).1 = -16.
Proof.
  destruct (set_cmd_active_one_at_a_time 8 16 0 2 3 table_idle)
    as (_ & _ & Hok);
    [by vm_compute|by vm_compute|by vm_compute|by vm_compute|].
  destruct Hok as (_ & Hbusy & _); [by vm_compute|].
  exact (f_equal fst Hbusy).
Defined.

